(** * CodeGraphRagMcp: the extraction / indexing / query pipeline

    A shallow embedding of [parser.py] (the syntax-tree walker),
    [indexer.py] (the per-file indexer and its fallback) and the two
    functions of [server.py] that decide change detection and symbol
    lookup, followed by the properties of the specification that are
    stated about them.

    Conventions.  Python [str] is [string]; a character of [ascii] stands
    for the code point of the same number.  Line numbers, byte offsets and
    row ids are [nat].  A Python [dict] keyed by strings is a [gmap string].
    A database table is the list of its rows in insertion order; [SERIAL]
    columns draw from counters that a rollback does not rewind. *)

From Stdlib Require Import Ascii String Lia.
From stdpp Require Import gmap strings list sorting.

Open Scope string_scope.
Open Scope nat_scope.
Open Scope list_scope.
Set Warnings "-register-all".

(* ===================================================================== *)
(** * Python string operations used by the sources                        *)
(* ===================================================================== *)

Module PyStr.

(** [sep.join(parts)] *)
Definition join (sep : string) (parts : list string) : string :=
  String.concat sep parts.

(** [s[a:b]] for non-negative [a], [b]: clipped to the string, empty when
    [b <= a]. *)
Definition slice (s : string) (a b : nat) : string :=
  String.substring a (b - a) s.

Definition is_colon (c : ascii) : bool := Ascii.eqb c ":".

(** [s.split("::")]: the leftmost, non-overlapping occurrences of the
    separator cut the string; [cur] is the piece being read. *)
Fixpoint split_scope_from (cur s : string) : list string :=
  match s with
  | EmptyString => [cur]
  | String c s1 =>
      match s1 with
      | String d s2 =>
          if is_colon c && is_colon d
          then cur :: split_scope_from "" s2
          else split_scope_from (cur +:+ String c "") s1
      | EmptyString => [cur +:+ String c ""]
      end
  end.

Definition split_scope (s : string) : list string := split_scope_from "" s.

(** [s.split("::")[-1]] *)
Definition last_scope_segment (s : string) : string :=
  List.last (split_scope s) "".

(** The cut of [s.rsplit("::", 1)]: the text before and after the
    rightmost occurrence of the separator, if there is one. *)
Fixpoint rcut_scope (s : string) : option (string * string) :=
  match s with
  | EmptyString => None
  | String c s1 =>
      match rcut_scope s1 with
      | Some (h, t) => Some (String c h, t)
      | None =>
          match s1 with
          | String d s2 => if is_colon c && is_colon d then Some ("", s2) else None
          | EmptyString => None
          end
      end
  end.

(** [s.rsplit("::", 1)] *)
Definition rsplit_scope1 (s : string) : list string :=
  match rcut_scope s with
  | Some (h, t) => [h; t]
  | None => [s]
  end.

(** ["::" in s] *)
Fixpoint contains_scope (s : string) : bool :=
  match s with
  | EmptyString => false
  | String c s1 =>
      match s1 with
      | String d _ => (is_colon c && is_colon d) || contains_scope s1
      | EmptyString => false
      end
  end.

(** [str.isspace] on the code points below 256. *)
Definition is_space (c : ascii) : bool :=
  let n := nat_of_ascii c in
  ((9 <=? n) && (n <=? 13)) || ((28 <=? n) && (n <=? 32))
  || (n =? 133) || (n =? 160).

Fixpoint lstrip_with (drop : ascii -> bool) (s : string) : string :=
  match s with
  | EmptyString => EmptyString
  | String c s' => if drop c then lstrip_with drop s' else s
  end.

Fixpoint rstrip_with (drop : ascii -> bool) (s : string) : string :=
  match s with
  | EmptyString => EmptyString
  | String c s' =>
      match rstrip_with drop s' with
      | EmptyString => if drop c then EmptyString else String c EmptyString
      | r => String c r
      end
  end.

(** [s.strip()] *)
Definition strip (s : string) : string :=
  rstrip_with is_space (lstrip_with is_space s).

(** [s.strip(chars)] *)
Definition strip_chars (chars : list ascii) (s : string) : string :=
  let drop c := existsb (Ascii.eqb c) chars in
  rstrip_with drop (lstrip_with drop s).

(** [s.startswith(p)] *)
Definition startswith (p s : string) : bool := String.prefix p s.

(** The line boundaries of [str.splitlines] below code point 256. *)
Definition is_linebreak (c : ascii) : bool :=
  let n := nat_of_ascii c in
  ((10 <=? n) && (n <=? 13)) || ((28 <=? n) && (n <=? 30)) || (n =? 133).

(** [s.splitlines()]: a line ends at a boundary, ["\r\n"] counts once, and
    no empty line is reported after a final boundary. *)
Fixpoint splitlines_from (cur s : string) : list string :=
  match s with
  | EmptyString => if bool_decide (cur = "") then [] else [cur]
  | String c s1 =>
      if is_linebreak c then
        match s1 with
        | String d s2 =>
            if (nat_of_ascii c =? 13) && (nat_of_ascii d =? 10)
            then cur :: splitlines_from "" s2
            else cur :: splitlines_from "" s1
        | EmptyString => [cur]
        end
      else splitlines_from (cur +:+ String c "") s1
  end.

Definition splitlines (s : string) : list string := splitlines_from "" s.

(** [x in names] for a list of string literals. *)
Definition str_in (x : string) (names : list string) : bool :=
  existsb (String.eqb x) names.

(** [l[a:b]] on a list, non-negative bounds. *)
Definition lslice {A} (l : list A) (a b : nat) : list A :=
  take (b - a) (drop a l).

(** [range(start, stop, step)] for a positive step, as the list of its
    values; [fuel] bounds the number of values. *)
Fixpoint range_up (fuel start stop step : nat) : list nat :=
  match fuel with
  | 0 => []
  | S fuel' =>
      if start <? stop then start :: range_up fuel' (start + step) stop step
      else []
  end.

(** [range(0, stop, step)]: [stop] values are always enough. *)
Definition range0 (stop step : nat) : list nat := range_up stop 0 stop step.

End PyStr.
Import PyStr.

(* ===================================================================== *)
(** * parser.py: syntax tree, entities, relationships, chunks             *)
(* ===================================================================== *)

(** JSON values that the sources put in a [metadata] dict. *)
Inductive MetaValue : Type :=
| MBool (b : bool)
| MInt (n : nat)
| MStr (s : string).

(** A tree-sitter node.  [field] is the field name under which the parent
    holds the node, [start_row] and [end_row] are [start_point[0]] and
    [end_point[0]].  The tree is what the tree-sitter library hands to the
    walker; the walker is defined on every tree. *)
Module Node.
Inductive t : Type := mk {
  type : string;
  field : option string;
  start_byte : nat;
  end_byte : nat;
  start_row : nat;
  end_row : nat;
  children : list t }.
End Node.

Module Entity.
Record t : Type := mk {
  type : string;
  simple_name : string;
  qualified_name : string;
  signature : option string;
  start_line : nat;
  end_line : nat;
  start_byte : nat;
  end_byte : nat;
  is_public : bool;
  parent_id : option nat;
  complexity_score : nat;
  metadata : list (string * MetaValue) }.
End Entity.

Module Relationship.
Record t : Type := mk {
  from_entity : string;
  to_entity : string;
  relationship_type : string;
  context : string;
  line_number : nat }.
End Relationship.

Module CodeChunk.
Record t : Type := mk {
  entity_name : option string;
  chunk_type : string;
  content : string;
  start_line : nat;
  end_line : nat;
  metadata : list (string * MetaValue) }.
End CodeChunk.

(** The walker's mutable fields together with the two lists that
    [_extract_entities] appends to. *)
Record CppParser : Type := mkParser {
  current_namespace : list string;
  current_class : option string;
  entities : list Entity.t;
  relationships : list Relationship.t }.

Definition nl : string := String (ascii_of_nat 10) EmptyString.
Definition dquote : ascii := ascii_of_nat 34.

(** [node.child_by_field_name(name)] *)
Definition child_by_field_name (node : Node.t) (name : string) : option Node.t :=
  List.find (fun c => bool_decide (Node.field c = Some name)) (Node.children node).

Definition _get_node_text (node : Node.t) (content : string) : string :=
  slice content (Node.start_byte node) (Node.end_byte node).

(** Truth value of an [Optional[str]]. *)
Definition truthy_str (o : option string) : bool :=
  match o with
  | Some s => negb (String.eqb s "")
  | None => false
  end.

Definition _build_qualified_name (self : CppParser) (simple_name : string) : string :=
  let parts : list string := [] in
  let parts :=
    match current_namespace self with
    | [] => parts
    | ns => parts ++ ns
    end in
  let parts :=
    match current_class self with
    | Some cls => if truthy_str (Some cls) then parts ++ [last_scope_segment cls] else parts
    | None => parts
    end in
  let parts := parts ++ [simple_name] in
  join "::" parts.

Definition _get_function_name_node (declarator : Node.t) : option Node.t :=
  let declarator :=
    if String.eqb (Node.type declarator) "function_declarator"
    then child_by_field_name declarator "declarator"
    else Some declarator in
  match declarator with
  | Some d =>
      if String.eqb (Node.type d) "identifier" then Some d
      else if str_in (Node.type d) ["qualified_identifier"; "field_identifier"] then
        List.find (fun child => str_in (Node.type child) ["identifier"; "field_identifier"])
                  (rev (Node.children d))
      else if String.eqb (Node.type d) "destructor_name" then Some d
      else None
  | None => None
  end.

(** [declarator = node if node.type == "function_declarator" else
    node.child_by_field_name("declarator")] *)
Definition declarator_of (node : Node.t) : option Node.t :=
  if String.eqb (Node.type node) "function_declarator" then Some node
  else child_by_field_name node "declarator".

Definition _extract_function_signature (node : Node.t) (content : string) : string :=
  match declarator_of node with
  | Some declarator => _get_node_text declarator content
  | None => ""
  end.

Definition _extract_base_classes (base_clause : Node.t) (content : string) : list string :=
  map (fun child => _get_node_text child content)
      (filter (fun child => str_in (Node.type child) ["type_identifier"; "qualified_identifier"] = true)
              (Node.children base_clause)).

(** [_has_template_params], on the type of the node it is given, [None]
    when there is no node. *)
Definition _has_template_params (node_type : option string) : bool :=
  match node_type with
  | None => false
  | Some ty => String.eqb ty "template_declaration"
  end.

Definition _is_public (node : Node.t) : bool := true.

Definition control_flow_types : list string :=
  ["if_statement"; "while_statement"; "for_statement";
   "switch_statement"; "case_statement"; "catch_clause"].

(** The inner [count_control_flow], with the [nonlocal] counter passed
    through. *)
Fixpoint count_control_flow (n : Node.t) (complexity : nat) : nat :=
  match n with
  | Node.mk ty _ _ _ _ _ ch =>
      let complexity :=
        if str_in ty control_flow_types then complexity + 1 else complexity in
      fold_left (fun acc child => count_control_flow child acc) ch complexity
  end.

Definition _calculate_complexity (node : Node.t) : nat :=
  let complexity := 1 in
  count_control_flow node complexity.

Definition line_of (row : nat) : nat := row + 1.

(** The class / struct branch up to the walk of the body: the [inherits]
    edges, then the entity. *)
Definition class_entity (self : CppParser) (node : Node.t) (content simple_name : string)
  : Entity.t :=
  Entity.mk
    (if String.eqb (Node.type node) "class_specifier" then "class" else "struct")
    simple_name
    (_build_qualified_name self simple_name)
    (Some ((if String.eqb (Node.type node) "class_specifier" then "class" else "struct")
           +:+ " " +:+ simple_name))
    (line_of (Node.start_row node)) (line_of (Node.end_row node))
    (Node.start_byte node) (Node.end_byte node)
    true None 0
    [("has_templates", MBool (_has_template_params (Some (Node.type node))))].

Definition inherits_edges (self : CppParser) (node : Node.t) (content simple_name : string)
  : list Relationship.t :=
  match child_by_field_name node "base_clause" with
  | Some base_clause =>
      map (fun base =>
             Relationship.mk (_build_qualified_name self simple_name) base "inherits"
               ("class " +:+ simple_name +:+ " : " +:+ base)
               (line_of (Node.start_row node)))
          (_extract_base_classes base_clause content)
  | None => []
  end.

Definition function_entity (self : CppParser) (parent_type : option string)
    (node name_node : Node.t) (content : string) : Entity.t :=
  let simple_name := _get_node_text name_node content in
  Entity.mk "function" simple_name
    (_build_qualified_name self simple_name)
    (Some (_extract_function_signature node content))
    (line_of (Node.start_row node)) (line_of (Node.end_row node))
    (Node.start_byte node) (Node.end_byte node)
    (_is_public node) None
    (_calculate_complexity node)
    [("is_definition", MBool (String.eqb (Node.type node) "function_definition"));
     ("has_templates", MBool (_has_template_params parent_type))].

Definition enum_entity (self : CppParser) (node : Node.t) (simple_name : string) : Entity.t :=
  Entity.mk "enum" simple_name
    (_build_qualified_name self simple_name)
    (Some ("enum " +:+ simple_name))
    (line_of (Node.start_row node)) (line_of (Node.end_row node))
    (Node.start_byte node) (Node.end_byte node)
    true None 0 [].

Definition with_namespace (ns : list string) (self : CppParser) : CppParser :=
  mkParser ns (current_class self) (entities self) (relationships self).

Definition with_class (cls : option string) (self : CppParser) : CppParser :=
  mkParser (current_namespace self) cls (entities self) (relationships self).

Definition add_entity (e : Entity.t) (self : CppParser) : CppParser :=
  mkParser (current_namespace self) (current_class self)
           (entities self ++ [e]) (relationships self).

Definition add_relationships (rs : list Relationship.t) (self : CppParser) : CppParser :=
  mkParser (current_namespace self) (current_class self)
           (entities self) (relationships self ++ rs).

Definition is_field (name : string) (c : Node.t) : bool :=
  bool_decide (Node.field c = Some name).

(** [_extract_entities].  [parent_type] is the type of [node.parent]
    ([None] at the root); the source's [parent_name] argument is passed down
    and never read, so it is left out.  [visit] is the loop over a list of
    children, [visit_body] finds [node.child_by_field_name("body")] and
    loops over its children. *)
Fixpoint _extract_entities (content : string) (parent_type : option string)
    (node : Node.t) (self : CppParser) {struct node} : CppParser :=
  let visit :=
    fix visit (pty : option string) (l : list Node.t) (self : CppParser) : CppParser :=
      match l with
      | [] => self
      | child :: l' => visit pty l' (_extract_entities content pty child self)
      end in
  let visit_body :=
    fix visit_body (l : list Node.t) (self : CppParser) : CppParser :=
      match l with
      | [] => self
      | c :: l' =>
          if is_field "body" c
          then visit (Some (Node.type c)) (Node.children c) self
          else visit_body l' self
      end in
  if String.eqb (Node.type node) "namespace_definition" then
    match child_by_field_name node "name" with
    | Some namespace_node =>
        let namespace_name := _get_node_text namespace_node content in
        let self := with_namespace (current_namespace self ++ [namespace_name]) self in
        let self := visit_body (Node.children node) self in
        with_namespace (removelast (current_namespace self)) self
    | None => self
    end
  else if str_in (Node.type node) ["class_specifier"; "struct_specifier"] then
    match child_by_field_name node "name" with
    | Some name_node =>
        let simple_name := _get_node_text name_node content in
        let qualified_name := _build_qualified_name self simple_name in
        let self := add_relationships (inherits_edges self node content simple_name) self in
        let self := add_entity (class_entity self node content simple_name) self in
        let old_class := current_class self in
        let self := with_class (Some qualified_name) self in
        let self := visit_body (Node.children node) self in
        with_class old_class self
    | None => self
    end
  else if str_in (Node.type node) ["function_definition"; "function_declarator"] then
    match declarator_of node with
    | Some declarator =>
        match _get_function_name_node declarator with
        | Some name_node => add_entity (function_entity self parent_type node name_node content) self
        | None => self
        end
    | None => self
    end
  else if String.eqb (Node.type node) "enum_specifier" then
    match child_by_field_name node "name" with
    | Some name_node => add_entity (enum_entity self node (_get_node_text name_node content)) self
    | None => self
    end
  else visit (Some (Node.type node)) (Node.children node) self.

(** The edge that [_extract_relationships] records at [node] itself. *)
Definition edges_at (node : Node.t) (content : string) : list Relationship.t :=
  if String.eqb (Node.type node) "preproc_include" then
    let include_path :=
      match List.find (fun child => str_in (Node.type child) ["string_literal"; "system_lib_string"])
                      (Node.children node) with
      | Some child =>
          Some (strip_chars [dquote; "<"%char; ">"%char] (_get_node_text child content))
      | None => None
      end in
    if truthy_str include_path then
      [Relationship.mk "" (default "" include_path) "includes"
         (_get_node_text node content) (line_of (Node.start_row node))]
    else []
  else if String.eqb (Node.type node) "call_expression" then
    match child_by_field_name node "function" with
    | Some function_node =>
        [Relationship.mk "" (_get_node_text function_node content) "calls"
           (slice (_get_node_text node content) 0 200) (line_of (Node.start_row node))]
    | None => []
    end
  else [].

Fixpoint _extract_relationships (content : string) (node : Node.t)
    (rels : list Relationship.t) {struct node} : list Relationship.t :=
  match node with
  | Node.mk _ _ _ _ _ _ ch =>
      fold_left (fun acc child => _extract_relationships content child acc) ch
                (rels ++ edges_at node content)
  end.

(** [dict.get(key)] followed by a truth test. *)
Definition meta_truthy (key : string) (metadata : list (string * MetaValue)) : bool :=
  match List.find (fun kv => String.eqb (fst kv) key) metadata with
  | Some (_, MBool b) => b
  | Some (_, MInt n) => negb (n =? 0)
  | Some (_, MStr s) => negb (String.eqb s "")
  | None => false
  end.

Definition chunk_type_of (entity : Entity.t) : string :=
  if String.eqb (Entity.type entity) "function" && meta_truthy "is_definition" (Entity.metadata entity)
  then "implementation"
  else if String.eqb (Entity.type entity) "function" then "declaration"
  else if str_in (Entity.type entity) ["class"; "struct"] then "declaration"
  else "mixed".

(** [range(start, stop, -1)] *)
Definition range_down (start stop : Z) : list Z :=
  map (fun k => (start - Z.of_nat k)%Z) (seq 0 (Z.to_nat (start - stop))).

(** The backwards scan for a comment block; [None] is the [IndexError] of
    [lines[i]]. *)
Fixpoint scan_comments (lines : list string) (idxs : list Z) (comment_lines : list string)
  : option (list string) :=
  match idxs with
  | [] => Some comment_lines
  | i :: rest =>
      match lines !! Z.to_nat i with
      | None => None
      | Some raw =>
          let line := strip raw in
          if startswith "//" line || startswith "/*" line || startswith "*" line
          then scan_comments lines rest (raw :: comment_lines)
          else if String.eqb line "" then scan_comments lines rest comment_lines
          else Some comment_lines
      end
  end.

Definition entity_chunk (entity : Entity.t) (entity_lines : list string) : CodeChunk.t :=
  if 100 <? List.length entity_lines then
    CodeChunk.mk (Some (Entity.qualified_name entity)) (chunk_type_of entity)
      (join nl (take 100 entity_lines))
      (Entity.start_line entity) (Entity.start_line entity + 100)
      [("truncated", MBool true); ("original_end", MInt (Entity.end_line entity))]
  else
    CodeChunk.mk (Some (Entity.qualified_name entity)) (chunk_type_of entity)
      (join nl entity_lines)
      (Entity.start_line entity) (Entity.end_line entity) [].

Definition comment_chunk (entity : Entity.t) (entity_code : string)
    (comment_lines : list string) : CodeChunk.t :=
  CodeChunk.mk (Some (Entity.qualified_name entity)) "comment_block"
    (join nl comment_lines +:+ nl +:+ nl +:+ slice entity_code 0 200)
    (Entity.start_line entity - List.length comment_lines) (Entity.start_line entity)
    [("comment_for", MStr (Entity.qualified_name entity))].

(** The chunks of one entity. *)
Definition chunks_of_entity (lines : list string) (entity : Entity.t)
  : option (list CodeChunk.t) :=
  let entity_lines := lslice lines (Entity.start_line entity - 1) (Entity.end_line entity) in
  let entity_code := join nl entity_lines in
  let main := entity_chunk entity entity_lines in
  if 1 <? Entity.start_line entity then
    let first := (Z.of_nat (Entity.start_line entity) - 2)%Z in
    let stop := Z.max (-1) (Z.of_nat (Entity.start_line entity) - 20) in
    match scan_comments lines (range_down first stop) [] with
    | None => None
    | Some comment_lines =>
        if 2 <? List.length comment_lines
        then Some [main; comment_chunk entity entity_code comment_lines]
        else Some [main]
    end
  else Some [main].

Fixpoint _create_chunks_from (lines : list string) (ents : list Entity.t)
    (chunks : list CodeChunk.t) : option (list CodeChunk.t) :=
  match ents with
  | [] => Some chunks
  | entity :: rest =>
      match chunks_of_entity lines entity with
      | Some cs => _create_chunks_from lines rest (chunks ++ cs)
      | None => None
      end
  end.

Definition _create_chunks (ents : list Entity.t) (content : string) : option (list CodeChunk.t) :=
  _create_chunks_from (splitlines content) ents [].

(** What [parse_file] returns. *)
Definition Parsed : Type := list Entity.t * list Relationship.t * list CodeChunk.t.

(** [parse_file].  [tree] is [tree.root_node] for the tree that tree-sitter
    built from [content]; [self] is the parser object before the call, of
    which the two context fields are reset.  [None] is an exception raised
    while walking. *)
Definition parse_file (self : CppParser) (tree : Node.t) (content : string) : option Parsed :=
  let self := mkParser [] None [] [] in
  let self := _extract_entities content None tree self in
  match _create_chunks (entities self) content with
  | Some chunks =>
      Some (entities self,
            _extract_relationships content tree (relationships self),
            chunks)
  | None => None
  end.

(** [parse_cpp_file]: a fresh parser for every file. *)
Definition parse_cpp_file (tree : Node.t) (content : string) : option Parsed :=
  parse_file (mkParser [] None [] []) tree content.

(* ===================================================================== *)
(** * The store: the schema of [initialize_database]                      *)
(* ===================================================================== *)

(** Of each table the columns that indexing and lookup read; [files] also
    has [last_modified], [file_type] and [loc], and [relationships] has
    [is_direct], which are written and never read. *)
Module FileRow.
Record t : Type := mk {
  id : nat;
  path : string;
  content_hash : string;
  status : string;
  last_indexed : option nat }.
End FileRow.

Module EntityRow.
Record t : Type := mk {
  id : nat;
  file_id : nat;
  type : string;
  qualified_name : string;
  simple_name : string;
  signature : option string;
  start_line : nat;
  end_line : nat;
  complexity_score : nat;
  is_public : bool;
  parent_id : option nat;
  metadata : list (string * MetaValue) }.
End EntityRow.

Module RelationshipRow.
Record t : Type := mk {
  id : nat;
  from_entity_id : nat;
  to_entity_id : nat;
  relationship_type : string;
  context : string;
  line_number : nat }.
End RelationshipRow.

(** An embedding is the list of its components; nothing here computes with
    the components, so they stand as integers. *)
Module ChunkRow.
Record t : Type := mk {
  id : nat;
  entity_id : option nat;
  file_id : nat;
  chunk_type : string;
  content : string;
  start_line : nat;
  end_line : nat;
  embedding : list Z;
  metadata : list (string * MetaValue) }.
End ChunkRow.

Module DB.

(** The four tables, rows in insertion order. *)
Record Tables : Type := mkTables {
  files : list FileRow.t;
  entities : list EntityRow.t;
  relationships : list RelationshipRow.t;
  code_chunks : list ChunkRow.t }.

(** The next value of each [SERIAL] column. *)
Record Sequences : Type := mkSeqs {
  files_id_seq : nat;
  entities_id_seq : nat;
  relationships_id_seq : nat;
  code_chunks_id_seq : nat }.

End DB.

(** What an indexing step works on: the tables and sequences behind
    [db_pool], and [self.entity_cache] of the [CodeIndexer]. *)
Record State : Type := mkState {
  tables : DB.Tables;
  seqs : DB.Sequences;
  entity_cache : gmap string nat }.

Inductive Error : Type :=
| EmbeddingError          (* [embedding_model.encode] raised *)
| ForeignKeyViolation     (* a REFERENCES constraint rejected the row *)
| DataError.              (* the vector is not of width 384 *)

Inductive Outcome (A : Type) : Type :=
| Ok (a : A)
| Raise (e : Error).
Arguments Ok {A} a.
Arguments Raise {A} e.

(** Computations that read and write the state and may raise. *)
Definition M (A : Type) : Type := State -> Outcome A * State.

Definition ret {A} (a : A) : M A := fun s => (Ok a, s).

Definition bind {A B} (m : M A) (k : A -> M B) : M B :=
  fun s =>
    match m s with
    | (Ok a, s') => k a s'
    | (Raise e, s') => (Raise e, s')
    end.

Definition raise {A} (e : Error) : M A := fun s => (Raise e, s).
Definition get : M State := fun s => (Ok s, s).

Notation "'let*' x ':=' m 'in' k" := (bind m (fun x => k))
  (at level 10, x name, m at level 100, k at level 200).
Notation "m ';;;' k" := (bind m (fun _ => k))
  (at level 100, k at level 200, right associativity).

(** [for x in l: body(x)] *)
Fixpoint for_each {A} (l : list A) (body : A -> M unit) : M unit :=
  match l with
  | [] => ret tt
  | x :: l' => body x ;;; for_each l' body
  end.

(** [async with conn.transaction()]: when the block raises, the tables are
    rolled back; sequences and Python objects keep what the block did. *)
Definition transaction {A} (block : M A) : M A :=
  fun s =>
    match block s with
    | (Ok a, s') => (Ok a, s')
    | (Raise e, s') => (Raise e, mkState (tables s) (seqs s') (entity_cache s'))
    end.

Definition mem (x : nat) (l : list nat) : bool := existsb (Nat.eqb x) l.

Definition entity_exists (t : DB.Tables) (id : nat) : bool :=
  mem id (map EntityRow.id (DB.entities t)).

Definition file_exists (t : DB.Tables) (id : nat) : bool :=
  mem id (map FileRow.id (DB.files t)).

Definition set_tables (t : DB.Tables) : M unit :=
  fun s => (Ok tt, mkState t (seqs s) (entity_cache s)).

(** ON DELETE CASCADE along [entities.parent_id]: the rows to delete,
    starting from [dead]. *)
Fixpoint cascade_closure (fuel : nat) (ents : list EntityRow.t) (dead : list nat) : list nat :=
  match fuel with
  | 0 => dead
  | S fuel' =>
      let more :=
        map EntityRow.id
          (filter (fun e => (match EntityRow.parent_id e with
                             | Some p => mem p dead
                             | None => false
                             end && negb (mem (EntityRow.id e) dead)) = true) ents) in
      match more with
      | [] => dead
      | _ => cascade_closure fuel' ents (dead ++ more)
      end
  end.

Definition opt_mem (o : option nat) (l : list nat) : bool :=
  match o with
  | Some x => mem x l
  | None => false
  end.

(** [DELETE FROM entities WHERE file_id = $1], with the cascades of the
    schema to child entities, relationships and chunks. *)
Definition delete_entities_of_file (file_id : nat) : M unit :=
  fun s =>
    let t := tables s in
    let ents := DB.entities t in
    let dead :=
      cascade_closure (List.length ents) ents
        (map EntityRow.id (filter (fun e => EntityRow.file_id e = file_id) ents)) in
    let t' :=
      DB.mkTables (DB.files t)
        (filter (fun e => mem (EntityRow.id e) dead = false) ents)
        (filter (fun r => (mem (RelationshipRow.from_entity_id r) dead
                           || mem (RelationshipRow.to_entity_id r) dead) = false)
                (DB.relationships t))
        (filter (fun c => opt_mem (ChunkRow.entity_id c) dead = false) (DB.code_chunks t)) in
    (Ok tt, mkState t' (seqs s) (entity_cache s)).

(** [nextval] of the three sequences used while indexing. *)
Definition next_entity_id : M nat :=
  fun s =>
    let q := seqs s in
    (Ok (DB.entities_id_seq q),
     mkState (tables s)
       (DB.mkSeqs (DB.files_id_seq q) (S (DB.entities_id_seq q))
                  (DB.relationships_id_seq q) (DB.code_chunks_id_seq q))
       (entity_cache s)).

Definition next_relationship_id : M nat :=
  fun s =>
    let q := seqs s in
    (Ok (DB.relationships_id_seq q),
     mkState (tables s)
       (DB.mkSeqs (DB.files_id_seq q) (DB.entities_id_seq q)
                  (S (DB.relationships_id_seq q)) (DB.code_chunks_id_seq q))
       (entity_cache s)).

Definition next_chunk_id : M nat :=
  fun s =>
    let q := seqs s in
    (Ok (DB.code_chunks_id_seq q),
     mkState (tables s)
       (DB.mkSeqs (DB.files_id_seq q) (DB.entities_id_seq q)
                  (DB.relationships_id_seq q) (S (DB.code_chunks_id_seq q)))
       (entity_cache s)).

(** [INSERT INTO entities ... RETURNING id] *)
Definition insert_entity_row (file_id : nat) (entity : Entity.t) : M nat :=
  let* id := next_entity_id in
  let* s := get in
  let t := tables s in
  if file_exists t file_id then
    set_tables
      (DB.mkTables (DB.files t)
         (DB.entities t ++
            [EntityRow.mk id file_id (Entity.type entity) (Entity.qualified_name entity)
               (Entity.simple_name entity) (Entity.signature entity)
               (Entity.start_line entity) (Entity.end_line entity)
               (Entity.complexity_score entity) (Entity.is_public entity)
               None (Entity.metadata entity)])
         (DB.relationships t) (DB.code_chunks t)) ;;;
    ret id
  else raise ForeignKeyViolation.

Definition set_parent (parent id : nat) (e : EntityRow.t) : EntityRow.t :=
  if EntityRow.id e =? id then
    EntityRow.mk (EntityRow.id e) (EntityRow.file_id e) (EntityRow.type e)
      (EntityRow.qualified_name e) (EntityRow.simple_name e) (EntityRow.signature e)
      (EntityRow.start_line e) (EntityRow.end_line e) (EntityRow.complexity_score e)
      (EntityRow.is_public e) (Some parent) (EntityRow.metadata e)
  else e.

(** [UPDATE entities SET parent_id = $1 WHERE id = $2] *)
Definition update_parent (parent id : nat) : M unit :=
  let* s := get in
  let t := tables s in
  if entity_exists t id && negb (entity_exists t parent) then raise ForeignKeyViolation
  else
    set_tables (DB.mkTables (DB.files t) (map (set_parent parent id) (DB.entities t))
                            (DB.relationships t) (DB.code_chunks t)).

(** [SELECT id FROM entities WHERE simple_name = $1 LIMIT 1]; without an
    ORDER BY the row is the first in table order. *)
Definition select_id_by_simple_name (simple_name : string) : M (option nat) :=
  let* s := get in
  ret (option_map EntityRow.id
         (List.find (fun e => String.eqb (EntityRow.simple_name e) simple_name)
                    (DB.entities (tables s)))).

(** [INSERT INTO relationships ... ON CONFLICT DO NOTHING]; the table has
    no unique constraint besides its fresh key, so nothing conflicts. *)
Definition insert_relationship_row (from_id to_id : nat) (rel : Relationship.t) : M unit :=
  let* id := next_relationship_id in
  let* s := get in
  let t := tables s in
  if entity_exists t from_id && entity_exists t to_id then
    set_tables
      (DB.mkTables (DB.files t) (DB.entities t)
         (DB.relationships t ++
            [RelationshipRow.mk id from_id to_id (Relationship.relationship_type rel)
               (Relationship.context rel) (Relationship.line_number rel)])
         (DB.code_chunks t))
  else raise ForeignKeyViolation.

Definition vector_width : nat := 384.

(** [INSERT INTO code_chunks ...] *)
Definition insert_chunk_row (entity_id : option nat) (file_id : nat)
    (chunk_type content : string) (start_line end_line : nat)
    (embedding : list Z) (metadata : list (string * MetaValue)) : M unit :=
  let* id := next_chunk_id in
  let* s := get in
  let t := tables s in
  if negb (List.length embedding =? vector_width) then raise DataError
  else if match entity_id with Some e => entity_exists t e | None => true end
          && file_exists t file_id then
    set_tables
      (DB.mkTables (DB.files t) (DB.entities t) (DB.relationships t)
         (DB.code_chunks t ++
            [ChunkRow.mk id entity_id file_id chunk_type content start_line end_line
               embedding metadata]))
  else raise ForeignKeyViolation.

Definition mark_indexed (now file_id : nat) (f : FileRow.t) : FileRow.t :=
  if FileRow.id f =? file_id then
    FileRow.mk (FileRow.id f) (FileRow.path f) (FileRow.content_hash f) "indexed" (Some now)
  else f.

(** [UPDATE files SET status = 'indexed', last_indexed = $1 WHERE id = $2] *)
Definition update_file_indexed (now file_id : nat) : M unit :=
  let* s := get in
  let t := tables s in
  set_tables (DB.mkTables (map (mark_indexed now file_id) (DB.files t))
                          (DB.entities t) (DB.relationships t) (DB.code_chunks t)).

(* ===================================================================== *)
(** * indexer.py: [CodeIndexer]                                            *)
(* ===================================================================== *)

(** [embedding_model.encode]: [None] when the call raises. *)
Definition Encoder : Type := string -> option (list Z).

Definition encode (embedding_model : Encoder) (text : string) : M (list Z) :=
  match embedding_model text with
  | Some v => ret v
  | None => raise EmbeddingError
  end.

(** [self.entity_cache[name] = id] *)
Definition cache_put (name : string) (id : nat) : M unit :=
  fun s => (Ok tt, mkState (tables s) (seqs s) (<[name := id]> (entity_cache s))).

Definition _insert_entity (file_id : nat) (entity : Entity.t) : M nat :=
  insert_entity_row file_id entity.

(** Truth value of an id that may be [None]. *)
Definition truthy_id (o : option nat) : bool :=
  match o with
  | Some n => negb (n =? 0)
  | None => false
  end.

(** The first two steps of resolving an endpoint: the file-scoped map,
    then the cache of the run. *)
Definition lookup_name (entity_map entity_cache : gmap string nat) (name : string)
  : option nat :=
  match entity_map !! name with
  | Some id => Some id
  | None => entity_cache !! name
  end.

Definition _insert_relationship (rel : Relationship.t) (entity_map : gmap string nat)
    (file_id : nat) : M unit :=
  let* s := get in
  let from_id := lookup_name entity_map (entity_cache s) (Relationship.from_entity rel) in
  if String.eqb (Relationship.relationship_type rel) "includes" then ret tt
  else
    let* to_id :=
      match lookup_name entity_map (entity_cache s) (Relationship.to_entity rel) with
      | Some id => ret (Some id)
      | None =>
          let simple_name := last_scope_segment (Relationship.to_entity rel) in
          select_id_by_simple_name simple_name
      end in
    if truthy_id from_id && truthy_id to_id
    then insert_relationship_row (default 0 from_id) (default 0 to_id) rel
    else ret tt.

Definition _insert_chunk (embedding_model : Encoder) (chunk : CodeChunk.t)
    (entity_map : gmap string nat) (file_id : nat) : M unit :=
  let* embedding := encode embedding_model (CodeChunk.content chunk) in
  let entity_id :=
    if truthy_str (CodeChunk.entity_name chunk)
    then entity_map !! default "" (CodeChunk.entity_name chunk)
    else None in
  insert_chunk_row entity_id file_id (CodeChunk.chunk_type chunk) (CodeChunk.content chunk)
    (CodeChunk.start_line chunk) (CodeChunk.end_line chunk) embedding
    (CodeChunk.metadata chunk).

(** The first loop of the transaction: insert every entity, filling the
    file-scoped map and the cache. *)
Fixpoint insert_entities (file_id : nat) (ents : list Entity.t)
    (entity_map : gmap string nat) : M (gmap string nat) :=
  match ents with
  | [] => ret entity_map
  | entity :: rest =>
      let* entity_id := _insert_entity file_id entity in
      cache_put (Entity.qualified_name entity) entity_id ;;;
      insert_entities file_id rest (<[Entity.qualified_name entity := entity_id]> entity_map)
  end.

(** One round of the second loop: the parent of [entity]. *)
Definition resolve_parent (entity_map : gmap string nat) (entity : Entity.t) : M unit :=
  if contains_scope (Entity.qualified_name entity) then
    match rsplit_scope1 (Entity.qualified_name entity) with
    | [parent_name; _] =>
        match entity_map !! parent_name, entity_map !! Entity.qualified_name entity with
        | Some parent, Some id => update_parent parent id
        | _, _ => ret tt
        end
    | _ => ret tt
    end
  else ret tt.

Definition fallback_window (lines : list string) (i : nat) : list string :=
  lslice lines i (i + 100).

(** One round of the loop of [_simple_file_indexing]. *)
Definition index_window (embedding_model : Encoder) (file_id : nat)
    (lines : list string) (i : nat) : M unit :=
  let chunk_lines := fallback_window lines i in
  let chunk_text := join nl chunk_lines in
  if String.length (strip chunk_text) <? 50 then ret tt
  else
    let* embedding := encode embedding_model chunk_text in
    insert_chunk_row None file_id "mixed" chunk_text (i + 1) (i + List.length chunk_lines)
      embedding [("fallback", MBool true)].

Definition chunk_size : nat := 100.
Definition overlap : nat := 20.

Definition _simple_file_indexing (embedding_model : Encoder) (file_id : nat)
    (content : string) : M unit :=
  let lines := splitlines content in
  for_each (range0 (List.length lines) (chunk_size - overlap))
           (index_window embedding_model file_id lines).

(** [index_file].  [parsed] is what the [try] around [parse_cpp_file] got:
    [None] when the call raised.  [now] is the clock reading of the status
    update. *)
Definition index_file (embedding_model : Encoder) (now : nat)
    (file_id : nat) (content : string) (parsed : option Parsed) : M unit :=
  match parsed with
  | None => _simple_file_indexing embedding_model file_id content
  | Some (ents, rels, chunks) =>
      transaction
        (delete_entities_of_file file_id ;;;
         let* entity_map := insert_entities file_id ents ∅ in
         for_each ents (resolve_parent entity_map) ;;;
         for_each rels (fun rel => _insert_relationship rel entity_map file_id) ;;;
         for_each chunks (fun chunk => _insert_chunk embedding_model chunk entity_map file_id) ;;;
         update_file_indexed now file_id)
  end.

(* ===================================================================== *)
(** * indexer.py: [batch_index_files]; server.py: change detection         *)
(* ===================================================================== *)

(** What the batch reads from outside the store. *)
Record Env : Type := mkEnv {
  read_text : string -> option string;    (* [open(path).read()], [None] when it raises *)
  text_hash : string -> string;           (* [sha256(content.encode()).hexdigest()] *)
  file_hash : string -> string;           (* [calculate_file_hash(path)] *)
  try_parse : string -> option Parsed;    (* the [try] around [parse_cpp_file] *)
  embedding_model : Encoder;
  clock : nat }.

Definition lookup_file (t : DB.Tables) (path : string) : option FileRow.t :=
  List.find (fun f => String.eqb (FileRow.path f) path) (DB.files t).

Definition set_indexing (content_hash : string) (path : string) (f : FileRow.t) : FileRow.t :=
  if String.eqb (FileRow.path f) path
  then FileRow.mk (FileRow.id f) path content_hash "indexing" (FileRow.last_indexed f)
  else f.

(** [INSERT INTO files ... ON CONFLICT (path) DO UPDATE ... RETURNING id] *)
Definition upsert_file (path content_hash : string) : M nat :=
  fun s =>
    let t := tables s in
    let q := seqs s in
    let q' := DB.mkSeqs (S (DB.files_id_seq q)) (DB.entities_id_seq q)
                        (DB.relationships_id_seq q) (DB.code_chunks_id_seq q) in
    match lookup_file t path with
    | Some row =>
        (Ok (FileRow.id row),
         mkState (DB.mkTables (map (set_indexing content_hash path) (DB.files t))
                              (DB.entities t) (DB.relationships t) (DB.code_chunks t))
                 q' (entity_cache s))
    | None =>
        (Ok (DB.files_id_seq q),
         mkState (DB.mkTables (DB.files t ++
                                 [FileRow.mk (DB.files_id_seq q) path content_hash "indexing" None])
                              (DB.entities t) (DB.relationships t) (DB.code_chunks t))
                 q' (entity_cache s))
    end.

(** A task of the batch: the file, its row id and its content. *)
Definition Task : Type := string * nat * string.

(** The first half of a batch: read every file and upsert its row; a file
    that cannot be read is skipped. *)
Fixpoint prepare_tasks (env : Env) (batch : list string) (s : State) : list Task * State :=
  match batch with
  | [] => ([], s)
  | file_path :: rest =>
      match read_text env file_path with
      | None => prepare_tasks env rest s
      | Some content =>
          match upsert_file file_path (text_hash env content) s with
          | (Ok file_id, s1) =>
              let '(tasks, s2) := prepare_tasks env rest s1 in
              ((file_path, file_id, content) :: tasks, s2)
          | (Raise _, s1) => prepare_tasks env rest s1
          end
      end
  end.

(** The second half, [asyncio.gather] with [return_exceptions=True]: each
    task runs to its end and its outcome is kept next to the file.  The
    tasks are run one after the other, in the order of the batch. *)
Fixpoint gather (env : Env) (tasks : list Task) (s : State)
  : list (string * Outcome unit) * State :=
  match tasks with
  | [] => ([], s)
  | (file_path, file_id, content) :: rest =>
      let '(result, s1) :=
        index_file (embedding_model env) (clock env) file_id content (try_parse env content) s in
      let '(results, s2) := gather env rest s1 in
      ((file_path, result) :: results, s2)
  end.

Definition batch_size : nat := 10.

Fixpoint run_batches (env : Env) (batches : list (list string)) (s : State)
  : list (string * Outcome unit) * State :=
  match batches with
  | [] => ([], s)
  | batch :: rest =>
      let '(tasks, s1) := prepare_tasks env batch s in
      let '(results, s2) := gather env tasks s1 in
      let '(more, s3) := run_batches env rest s2 in
      (results ++ more, s3)
  end.

(** [batch_index_files]: a fresh [CodeIndexer], so an empty cache; the
    result lists every file that was indexed with the outcome of its task. *)
Definition batch_index_files (env : Env) (file_paths : list string) (s : State)
  : list (string * Outcome unit) * State :=
  let s := mkState (tables s) (seqs s) ∅ in
  run_batches env
    (map (fun i => lslice file_paths i (i + batch_size))
         (range0 (List.length file_paths) batch_size))
    s.

(** The test of [check_for_changes] on one file: no row, or another hash. *)
Definition is_changed (env : Env) (t : DB.Tables) (file_path : string) : bool :=
  match lookup_file t file_path with
  | None => true
  | Some row => negb (String.eqb (FileRow.content_hash row) (file_hash env file_path))
  end.

(** [check_for_changes].  [candidates] are the files that the walk over
    the monitored directories meets, in its order. *)
Definition check_for_changes (env : Env) (candidates : list string) (s : State)
  : list (string * Outcome unit) * State :=
  let changed_files := filter (fun p => is_changed env (tables s) p = true) candidates in
  match changed_files with
  | [] => ([], s)
  | _ => batch_index_files env changed_files s
  end.

(* ===================================================================== *)
(** * server.py: [find_symbol]                                             *)
(* ===================================================================== *)

(** SQL [s LIKE p] with the default escape character: [%] matches any
    run of characters, [_] any one character, a backslash makes the next
    character literal. *)
Fixpoint sql_like (p s : string) {struct p} : bool :=
  match p with
  | EmptyString => String.eqb s ""
  | String c p' =>
      if Ascii.eqb c "%" then
        (fix any (s : string) : bool :=
           sql_like p' s ||
           match s with
           | EmptyString => false
           | String _ s' => any s'
           end) s
      else if Ascii.eqb c "_" then
        match s with
        | String _ s' => sql_like p' s'
        | EmptyString => false
        end
      else if Ascii.eqb c "\" then
        match p', s with
        | String e p'', String d s' => Ascii.eqb e d && sql_like p'' s'
        | _, _ => false
        end
      else
        match s with
        | String d s' => Ascii.eqb c d && sql_like p' s'
        | EmptyString => false
        end
  end.

Module Usage.
Record t : Type := mk {
  caller : string;
  type : string;
  file : string;
  line : nat;
  relationship : string;
  context : string }.
End Usage.

(** The answer of [find_symbol]; [lines] is the pair that the source
    prints as ["start-end"], and [total_usages] is the length of [usages]. *)
Module SymbolResult.
Record t : Type := mk {
  symbol : string;
  type : string;
  signature : option string;
  file : string;
  lines : nat * nat;
  complexity : nat;
  code : option string;
  usages : option (list Usage.t);
  other_matches : list (string * string) }.
End SymbolResult.

(** [entities e JOIN files f ON e.file_id = f.id]: the entity rows, in
    table order, each with the path of its file. *)
Definition entities_with_file (t : DB.Tables) : list (EntityRow.t * string) :=
  omap (fun e =>
          option_map (fun f => (e, FileRow.path f))
            (List.find (fun f => FileRow.id f =? EntityRow.file_id e) (DB.files t)))
       (DB.entities t).

(** The WHERE clause of the first query. *)
Definition symbol_matches (symbol : string) (e : EntityRow.t) : bool :=
  sql_like ("%" +:+ symbol +:+ "%") (EntityRow.qualified_name e)
  || String.eqb (EntityRow.simple_name e) symbol.

(** The first query: no ORDER BY, LIMIT 10. *)
Definition symbol_candidates (t : DB.Tables) (symbol : string) : list (EntityRow.t * string) :=
  take 10 (filter (fun ef => symbol_matches symbol (fst ef) = true) (entities_with_file t)).

(** [ORDER BY start_line LIMIT 1] over the chunks of one entity. *)
Definition chunk_le (c1 c2 : ChunkRow.t) : Prop :=
  ChunkRow.start_line c1 <= ChunkRow.start_line c2.

#[global] Instance chunk_le_dec : RelDecision chunk_le.
Proof. intros c1 c2. unfold chunk_le. apply _. Defined.

Definition entity_code (t : DB.Tables) (entity_id : nat) : option string :=
  option_map ChunkRow.content
    (head (merge_sort chunk_le
             (filter (fun c => ChunkRow.entity_id c = Some entity_id) (DB.code_chunks t)))).

(** [ORDER BY f.path, r.line_number] *)
Definition usage_le (u1 u2 : Usage.t) : Prop :=
  String.le (Usage.file u1) (Usage.file u2) /\
  (Usage.file u1 = Usage.file u2 -> Usage.line u1 <= Usage.line u2).

#[global] Instance usage_le_dec : RelDecision usage_le.
Proof. intros u1 u2. unfold usage_le. apply _. Defined.

Definition usage_of (t : DB.Tables) (r : RelationshipRow.t) : option Usage.t :=
  match List.find (fun ef => EntityRow.id (fst ef) =? RelationshipRow.from_entity_id r)
                  (entities_with_file t) with
  | Some (e, file_path) =>
      Some (Usage.mk (EntityRow.qualified_name e) (EntityRow.type e) file_path
              (RelationshipRow.line_number r) (RelationshipRow.relationship_type r)
              (RelationshipRow.context r))
  | None => None
  end.

(** The third query: the edges that arrive at the entity, ordered, at most
    [max_usages] of them. *)
Definition incoming_usages (t : DB.Tables) (entity_id max_usages : nat) : list Usage.t :=
  take max_usages
    (merge_sort usage_le
       (omap (usage_of t)
          (filter (fun r => RelationshipRow.to_entity_id r = entity_id) (DB.relationships t)))).

(** [find_symbol]: [None] is the ["error": "Symbol ... not found"] answer. *)
Definition find_symbol (t : DB.Tables) (symbol : string) (include_usages : bool)
    (max_usages : nat) : option SymbolResult.t :=
  match symbol_candidates t symbol with
  | [] => None
  | (entity, file_path) :: others =>
      Some (SymbolResult.mk
              (EntityRow.qualified_name entity) (EntityRow.type entity)
              (EntityRow.signature entity) file_path
              (EntityRow.start_line entity, EntityRow.end_line entity)
              (EntityRow.complexity_score entity)
              (entity_code t (EntityRow.id entity))
              (if include_usages
               then Some (incoming_usages t (EntityRow.id entity) max_usages)
               else None)
              (map (fun ef => (EntityRow.qualified_name (fst ef), snd ef)) others))
  end.

(* ===================================================================== *)
(** * Notions used to state the properties                                 *)
(* ===================================================================== *)

(** The loops of [_extract_entities], as folds. *)
Definition visit_children (content : string) (pty : option string)
    (l : list Node.t) (self : CppParser) : CppParser :=
  fold_left (fun acc child => _extract_entities content pty child acc) l self.

Definition visit_body (content : string) (node : Node.t) (self : CppParser) : CppParser :=
  match child_by_field_name node "body" with
  | Some body => visit_children content (Some (Node.type body)) (Node.children body) self
  | None => self
  end.

(** [within root d]: [d] is [root] or one of its descendants. *)
Inductive within (root : Node.t) : Node.t -> Prop :=
| within_root : within root root
| within_child n c : within root n -> In c (Node.children n) -> within root c.

(** [below n d]: [d] is a proper descendant of [n]. *)
Definition below (n d : Node.t) : Prop :=
  exists c, In c (Node.children n) /\ within c d.

(** The entities that a parse of [tree] extracts: the walk from the state
    that [parse_file] sets up. *)
Definition extracted_entities (tree : Node.t) (content : string) : list Entity.t :=
  entities (_extract_entities content None tree (mkParser [] None [] [])).

Definition parsed_entities (r : option Parsed) : list Entity.t :=
  match r with
  | Some (ents, _, _) => ents
  | None => []
  end.

Definition parsed_relationships (r : option Parsed) : list Relationship.t :=
  match r with
  | Some (_, rels, _) => rels
  | None => []
  end.

(** The number of control-flow nodes in the subtree of [n]. *)
Fixpoint control_flow_nodes (n : Node.t) : nat :=
  match n with
  | Node.mk ty _ _ _ _ _ ch =>
      (if str_in ty control_flow_types then 1 else 0)
      + list_sum (map control_flow_nodes ch)
  end.

(** [e] was made from [node]: same byte range and lines. *)
Definition made_from (e : Entity.t) (node : Node.t) : Prop :=
  Entity.start_byte e = Node.start_byte node /\
  Entity.end_byte e = Node.end_byte node /\
  Entity.start_line e = Node.start_row node + 1 /\
  Entity.end_line e = Node.end_row node + 1.

(** Names along a walk that hands an immutable context down the tree.
    [in_namespace ctx name] is the context inside a namespace, [in_class ctx
    name] the context inside a class or struct of that simple name, and
    [qualify ctx name] the qualified name of an entity met in [ctx]. *)
Section ContextWalk.
Context {Ctx : Type}.
Variable in_namespace : Ctx -> string -> Ctx.
Variable in_class : Ctx -> string -> Ctx.
Variable qualify : Ctx -> string -> string.

Fixpoint names_under (content : string) (ctx : Ctx) (node : Node.t) {struct node}
  : list string :=
  let visit :=
    fix visit (ctx : Ctx) (l : list Node.t) : list string :=
      match l with
      | [] => []
      | child :: l' => names_under content ctx child ++ visit ctx l'
      end in
  let visit_body :=
    fix visit_body (ctx : Ctx) (l : list Node.t) : list string :=
      match l with
      | [] => []
      | c :: l' =>
          if is_field "body" c then visit ctx (Node.children c) else visit_body ctx l'
      end in
  if String.eqb (Node.type node) "namespace_definition" then
    match child_by_field_name node "name" with
    | Some name_node =>
        visit_body (in_namespace ctx (_get_node_text name_node content)) (Node.children node)
    | None => []
    end
  else if str_in (Node.type node) ["class_specifier"; "struct_specifier"] then
    match child_by_field_name node "name" with
    | Some name_node =>
        let simple_name := _get_node_text name_node content in
        qualify ctx simple_name :: visit_body (in_class ctx simple_name) (Node.children node)
    | None => []
    end
  else if str_in (Node.type node) ["function_definition"; "function_declarator"] then
    match declarator_of node with
    | Some declarator =>
        match _get_function_name_node declarator with
        | Some name_node => [qualify ctx (_get_node_text name_node content)]
        | None => []
        end
    | None => []
    end
  else if String.eqb (Node.type node) "enum_specifier" then
    match child_by_field_name node "name" with
    | Some name_node => [qualify ctx (_get_node_text name_node content)]
    | None => []
    end
  else visit ctx (Node.children node).

Definition names_of_children (content : string) (ctx : Ctx) (l : list Node.t) : list string :=
  concat (map (names_under content ctx) l).

Definition names_of_body (content : string) (ctx : Ctx) (node : Node.t) : list string :=
  match child_by_field_name node "body" with
  | Some body => names_of_children content ctx (Node.children body)
  | None => []
  end.
End ContextWalk.

(** The lexical nesting path, in the words of the specification: every
    enclosing namespace, class and struct contributes its name, and the
    names are joined with ["::"]. *)
Definition lexical_names (tree : Node.t) (content : string) : list string :=
  names_under (fun path name => path ++ [name])
              (fun path name => path ++ [name])
              (fun path name => join "::" (path ++ [name]))
              content [] tree.

(** The context that the walker keeps: the open namespaces, and of the
    enclosing classes only the innermost one, by its qualified name. *)
Definition Scope : Type := list string * option string.

Definition scope_qualify (sc : Scope) (simple_name : string) : string :=
  join "::"
    (fst sc
     ++ match snd sc with
        | Some cls => if truthy_str (Some cls) then [last_scope_segment cls] else []
        | None => []
        end
     ++ [simple_name]).

Definition scoped_names (tree : Node.t) (content : string) : list string :=
  names_under (fun sc name => (fst sc ++ [name], snd sc))
              (fun sc name => (fst sc, Some (scope_qualify sc name)))
              scope_qualify
              content ([], None) tree.

(* ===================================================================== *)
(** * Example inputs                                                       *)
(* ===================================================================== *)

Module Examples.

Definition leaf (ty : string) (fld : option string) (a b : nat) : Node.t :=
  Node.mk ty fld a b 0 0 [].

Definition inner (ty : string) (fld : option string) (a b : nat) (ch : list Node.t) : Node.t :=
  Node.mk ty fld a b 0 0 ch.

(** The example of the specification. *)
Definition nested_source : string := "namespace A { class B { void c() {} } }".

(** [void c() {}] inside the class.  [name_kind] is the type of the node
    that holds the name [c]: the C++ grammar of tree-sitter makes it a
    [field_identifier] inside a class body and an [identifier] elsewhere. *)
Definition method_c (name_kind : string) : Node.t :=
  inner "function_definition" None 24 35
    [leaf "primitive_type" (Some "type") 24 28;
     inner "function_declarator" (Some "declarator") 29 32
       [leaf name_kind (Some "declarator") 29 30;
        inner "parameter_list" (Some "parameters") 30 32
          [leaf "(" None 30 31; leaf ")" None 31 32]];
     inner "compound_statement" (Some "body") 33 35
       [leaf "{" None 33 34; leaf "}" None 34 35]].

(** The tree of [nested_source]; the [;] that the class lacks is the empty
    node that error recovery puts in. *)
Definition nested_tree (name_kind : string) : Node.t :=
  inner "translation_unit" None 0 39
    [inner "namespace_definition" None 0 39
       [leaf "namespace" None 0 9;
        leaf "namespace_identifier" (Some "name") 10 11;
        inner "declaration_list" (Some "body") 12 39
          [leaf "{" None 12 13;
           inner "class_specifier" None 14 37
             [leaf "class" None 14 19;
              leaf "type_identifier" (Some "name") 20 21;
              inner "field_declaration_list" (Some "body") 22 37
                [leaf "{" None 22 23; method_c name_kind; leaf "}" None 36 37]];
           leaf ";" None 37 37;
           leaf "}" None 38 39]]].

(** Three classes, each declared inside the one before. *)
Definition classes_source : string := "class A { class B { class C {}; }; };".

Definition classes_tree : Node.t :=
  inner "translation_unit" None 0 37
    [inner "class_specifier" None 0 36
       [leaf "class" None 0 5;
        leaf "type_identifier" (Some "name") 6 7;
        inner "field_declaration_list" (Some "body") 8 36
          [leaf "{" None 8 9;
           inner "field_declaration" None 10 34
             [inner "class_specifier" (Some "type") 10 33
                [leaf "class" None 10 15;
                 leaf "type_identifier" (Some "name") 16 17;
                 inner "field_declaration_list" (Some "body") 18 33
                   [leaf "{" None 18 19;
                    inner "field_declaration" None 20 31
                      [inner "class_specifier" (Some "type") 20 30
                         [leaf "class" None 20 25;
                          leaf "type_identifier" (Some "name") 26 27;
                          inner "field_declaration_list" (Some "body") 28 30
                            [leaf "{" None 28 29; leaf "}" None 29 30]];
                       leaf ";" None 30 31];
                    leaf "}" None 32 33]];
              leaf ";" None 33 34];
           leaf "}" None 35 36]];
     leaf ";" None 36 37].

(** A small file with a base class and a call. *)
Definition edges_source : string :=
  "struct B {};" +:+ nl +:+ "struct D : B {};" +:+ nl +:+
  "void g() {}" +:+ nl +:+ "void f() { g(); }" +:+ nl.

Definition on_row (row : nat) (ty : string) (fld : option string) (a b : nat)
    (ch : list Node.t) : Node.t :=
  Node.mk ty fld a b row row ch.

(** A tree of [edges_source] in which the base clause of [D] is held under
    the field that the walker asks for. *)
Definition edges_tree : Node.t :=
  Node.mk "translation_unit" None 0 60 0 4
    [on_row 0 "struct_specifier" None 0 11
       [on_row 0 "type_identifier" (Some "name") 7 8 [];
        on_row 0 "field_declaration_list" (Some "body") 9 11 []];
     on_row 1 "struct_specifier" None 13 28
       [on_row 1 "type_identifier" (Some "name") 20 21 [];
        on_row 1 "base_class_clause" (Some "base_clause") 22 25
          [on_row 1 ":" None 22 23 []; on_row 1 "type_identifier" None 24 25 []];
        on_row 1 "field_declaration_list" (Some "body") 26 28 []];
     on_row 2 "function_definition" None 30 41
       [on_row 2 "primitive_type" (Some "type") 30 34 [];
        on_row 2 "function_declarator" (Some "declarator") 35 38
          [on_row 2 "identifier" (Some "declarator") 35 36 [];
           on_row 2 "parameter_list" (Some "parameters") 36 38 []];
        on_row 2 "compound_statement" (Some "body") 39 41 []];
     on_row 3 "function_definition" None 42 59
       [on_row 3 "primitive_type" (Some "type") 42 46 [];
        on_row 3 "function_declarator" (Some "declarator") 47 50
          [on_row 3 "identifier" (Some "declarator") 47 48 [];
           on_row 3 "parameter_list" (Some "parameters") 48 50 []];
        on_row 3 "compound_statement" (Some "body") 51 59
          [on_row 3 "expression_statement" None 53 57
             [on_row 3 "call_expression" None 53 56
                [on_row 3 "identifier" (Some "function") 53 54 [];
                 on_row 3 "argument_list" (Some "arguments") 54 56 []]]]]].

(** An encoder that always answers, with a vector of the width of the
    schema. *)
Definition zero_encoder : Encoder := fun _ => Some (repeat 0%Z vector_width).

(** A store that holds one file row, with id 1, and nothing else. *)
Definition one_file_store : State :=
  mkState (DB.mkTables [FileRow.mk 1 "a.cpp" "h" "indexing" None] [] [] [])
          (DB.mkSeqs 2 1 1 1) ∅.

(** A file of 90 lines that holds one initialiser, a sum of 1425 terms.
    Its tree nests one operand per term, and the walker, which calls itself
    once per level, runs into the recursion limit of Python: the parse of
    this content raises.  The fallback has two windows for it, of lines 1-90
    and of lines 81-90. *)
Definition sum_line : string :=
  " + 1 + 1 + 1 + 1 + 1 + 1 + 1 + 1 + 1 + 1 + 1 + 1 + 1 + 1 + 1 + 1".

Definition long_content : string :=
  join nl ("int x = 1" :: repeat sum_line 89) +:+ ";".

(** An encoder that raises on texts of fewer than 1000 characters, as the
    second window of [long_content] is. *)
Definition flaky_encoder : Encoder :=
  fun text => if String.length text <? 1000 then None else Some (repeat 0%Z vector_width).

(** The store after the file of [one_file_store] has been indexed from a
    parse that succeeded: two entities and their two chunks. *)
Definition indexed_store : State :=
  snd (index_file zero_encoder 0 1 nested_source
         (parse_cpp_file (nested_tree "identifier") nested_source)
         one_file_store).

Definition entity_row (id : nat) (qualified_name simple_name : string) : EntityRow.t :=
  EntityRow.mk id 1 "function" qualified_name simple_name (Some (simple_name +:+ "()"))
    1 1 1 true None [].

Definition chunk_row (id entity_id : nat) (content : string) : ChunkRow.t :=
  ChunkRow.mk id (Some entity_id) 1 "implementation" content 1 1 [] [].

(** Two functions of one file: [ns::foobar], stored first, and [foo]. *)
Definition lookup_tables : DB.Tables :=
  DB.mkTables
    [FileRow.mk 1 "a.cpp" "h" "indexed" (Some 0)]
    [entity_row 1 "ns::foobar" "foobar"; entity_row 2 "foo" "foo"]
    []
    [chunk_row 1 1 "void foobar() {}"; chunk_row 2 2 "void foo() {}"].

End Examples.

(* ===================================================================== *)
(** * Notions used to state the properties of the indexer                  *)
(* ===================================================================== *)

(** No edge of the graph references an entity that is not there. *)
Definition edges_closed (t : DB.Tables) : Prop :=
  Forall (fun r => entity_exists t (RelationshipRow.from_entity_id r) = true
                   /\ entity_exists t (RelationshipRow.to_entity_id r) = true)
         (DB.relationships t).

(** The resolution of the "to" endpoint in the words of the
    specification: the file-scoped map, then the cache of the run, then any
    entity whose simple name is the bare trailing identifier. *)
Definition resolve_to (t : DB.Tables) (entity_map cache : gmap string nat) (name : string)
  : option nat :=
  match entity_map !! name with
  | Some id => Some id
  | None =>
      match cache !! name with
      | Some id => Some id
      | None =>
          option_map EntityRow.id
            (List.find (fun e => String.eqb (EntityRow.simple_name e) (last_scope_segment name))
                       (DB.entities t))
      end
  end.

(** The resolution of the "from" endpoint: the map, then the cache. *)
Definition resolve_from (entity_map cache : gmap string nat) (name : string) : option nat :=
  match entity_map !! name with
  | Some id => Some id
  | None => cache !! name
  end.

(** The row that an edge becomes once both endpoints are resolved. *)
Definition edge_row (id from_id to_id : nat) (rel : Relationship.t) : RelationshipRow.t :=
  RelationshipRow.mk id from_id to_id (Relationship.relationship_type rel)
    (Relationship.context rel) (Relationship.line_number rel).

Definition chunks_of_file (t : DB.Tables) (file_id : nat) : list ChunkRow.t :=
  filter (fun c => ChunkRow.file_id c = file_id) (DB.code_chunks t).

Definition entities_of_file (t : DB.Tables) (file_id : nat) : list EntityRow.t :=
  filter (fun e => EntityRow.file_id e = file_id) (DB.entities t).

(** The fallback chunk of the window that starts at line index [i]. *)
Definition window_text (lines : list string) (i : nat) : string :=
  join nl (lslice lines i (i + 100)).

Definition window_kept (lines : list string) (i : nat) : bool :=
  50 <=? String.length (strip (window_text lines i)).

(** [c] is the fallback chunk of the [k]-th window of [lines]: the window
    starts [80 * k] lines into the file, holds at most 100 lines, and its
    trimmed text has at least 50 characters. *)
Definition is_window_chunk (file_id : nat) (lines : list string) (c : ChunkRow.t) : Prop :=
  exists k,
    80 * k < List.length lines
    /\ 50 <= String.length (strip (window_text lines (80 * k)))
    /\ ChunkRow.content c = window_text lines (80 * k)
    /\ ChunkRow.start_line c = 80 * k + 1
    /\ ChunkRow.end_line c = Nat.min (80 * k + 100) (List.length lines)
    /\ ChunkRow.entity_id c = None
    /\ ChunkRow.file_id c = file_id
    /\ ChunkRow.chunk_type c = "mixed"
    /\ ChunkRow.metadata c = [("fallback", MBool true)].

(** The window starts that a complete fallback pass stores, in order. *)
Definition kept_windows (lines : list string) : list nat :=
  filter (fun i => i < List.length lines /\ window_kept lines i = true)
         (map (fun k => 80 * k) (seq 0 (List.length lines))).

(** The ranking of the specification: a candidate whose qualified name
    contains the symbol comes before one whose does not, and among those a
    candidate whose simple name is the symbol comes first. *)
Definition rank (symbol : string) (e : EntityRow.t) : nat :=
  (if sql_like ("%" +:+ symbol +:+ "%") (EntityRow.qualified_name e) then 2 else 0)
  + (if String.eqb (EntityRow.simple_name e) symbol then 1 else 0).

Definition outranks (symbol : string) (e1 e2 : EntityRow.t * string) : Prop :=
  rank symbol (fst e2) <= rank symbol (fst e1).

#[global] Instance outranks_dec symbol : RelDecision (outranks symbol).
Proof. intros e1 e2. unfold outranks. apply _. Defined.

(** The top match under that ranking. *)
Definition top_ranked (t : DB.Tables) (symbol : string) : option (EntityRow.t * string) :=
  head (merge_sort (outranks symbol)
          (filter (fun ef => symbol_matches symbol (fst ef) = true) (entities_with_file t))).

(** Induction on a tree with the hypothesis at every child. *)
Section NodeInduction.
Variable P : Node.t -> Prop.
Hypothesis step : forall n, Forall P (Node.children n) -> P n.

Fixpoint node_ind' (n : Node.t) : P n :=
  step n
    (match n return Forall P (Node.children n) with
     | Node.mk _ _ _ _ _ _ ch =>
         (fix go (l : list Node.t) : Forall P l :=
            match l with
            | [] => @Stdlib.Lists.List.Forall_nil _ P
            | c :: l' => @Stdlib.Lists.List.Forall_cons _ P c l' (node_ind' c) (go l')
            end) ch
     end).
End NodeInduction.

(** The context fields of the walker. *)
Definition scope_of (self : CppParser) : Scope :=
  (current_namespace self, current_class self).

(** What one call of the walker does to the parser object: the context
    fields are as before, and the names of the new entities are those of the
    context-passing walk from the scope at the call. *)
Definition walk_effect (content : string) (self self' : CppParser) (new : list string) : Prop :=
  scope_of self' = scope_of self /\
  map Entity.qualified_name (entities self')
  = map Entity.qualified_name (entities self) ++ new.

Definition names_of_parse (tree : Node.t) (content : string) : list string :=
  map Entity.qualified_name (parsed_entities (parse_cpp_file tree content)).

(** The rows of the entities table after indexing the parse of [tree] into
    the store that holds only the file: id, qualified name, parent. *)
Definition indexed_rows (tree : Node.t) (content : string)
  : list (nat * string * option nat) :=
  map (fun r => (EntityRow.id r, EntityRow.qualified_name r, EntityRow.parent_id r))
      (DB.entities (tables (snd (index_file Examples.zero_encoder 0 1 content
                                   (parse_cpp_file tree content)
                                   Examples.one_file_store)))).

(** [m] keeps [I]: from a state where [I] holds, [m] ends, normally or by
    raising, in a state where [I] holds. *)
Definition keeps {A} (I : State -> Prop) (m : M A) : Prop :=
  forall s, I s -> I (snd (m s)).

(** The graph of the state is closed. *)
Definition closed (s : State) : Prop := edges_closed (tables s).

(** The edges that indexing may add: with [R0] the relationships table at
    the start, every row is a row of [R0] or an [inherits] edge, and no
    entity is cached under the empty name. *)
Definition only_inherits_added (R0 : list RelationshipRow.t) (s : State) : Prop :=
  (forall row, In row (DB.relationships (tables s)) ->
               In row R0 \/ RelationshipRow.relationship_type row = "inherits")
  /\ entity_cache s !! "" = None.

(** The unchanged part of the state along the fallback. *)
Definition same_graph (s s' : State) : Prop :=
  DB.files (tables s') = DB.files (tables s)
  /\ DB.entities (tables s') = DB.entities (tables s)
  /\ DB.relationships (tables s') = DB.relationships (tables s)
  /\ entity_cache s' = entity_cache s.

Definition chunk_lines_of (s : State) (file_id : nat) : list (nat * nat) :=
  map (fun c => (ChunkRow.start_line c, ChunkRow.end_line c))
      (chunks_of_file (tables s) file_id).

Definition readable (env : Env) (file_path : string) : bool :=
  match read_text env file_path with
  | Some _ => true
  | None => false
  end.

Definition task_path (t : Task) : string := fst (fst t).

Definition batches_of (file_paths : list string) : list (list string) :=
  map (fun i => lslice file_paths i (i + batch_size))
      (range0 (List.length file_paths) batch_size).

(* ===================================================================== *)
(** * Notions used to state further properties                             *)
(* ===================================================================== *)

(** The lines of the file that an entity spans. *)
Definition lines_of_entity (lines : list string) (e : Entity.t) : list string :=
  lslice lines (Entity.start_line e - 1) (Entity.end_line e).

(** [c] is the chunk of entity [e]: the whole range of the entity, or, for
    an entity of more than 100 lines, its first 100 lines, marked as
    truncated with the true last line kept in the metadata. *)
Definition is_entity_chunk (lines : list string) (e : Entity.t) (c : CodeChunk.t) : Prop :=
  CodeChunk.entity_name c = Some (Entity.qualified_name e)
  /\ CodeChunk.start_line c = Entity.start_line e
  /\ CodeChunk.chunk_type c <> "comment_block"
  /\ ((List.length (lines_of_entity lines e) <= 100
       /\ CodeChunk.content c = join nl (lines_of_entity lines e)
       /\ CodeChunk.end_line c = Entity.end_line e
       /\ CodeChunk.metadata c = [])
      \/ (100 < List.length (lines_of_entity lines e)
          /\ (exists kept, CodeChunk.content c = join nl kept
                           /\ List.length kept = 100
                           /\ kept `prefix_of` lines_of_entity lines e)
          /\ CodeChunk.end_line c = Entity.start_line e + 100
          /\ CodeChunk.metadata c
             = [("truncated", MBool true); ("original_end", MInt (Entity.end_line e))])).

(** A line of a comment, as the scan above an entity takes it: stripped
    of white space it begins with [//], [/*] or [*]. *)
Definition is_comment_line (raw : string) : bool :=
  startswith "//" (strip raw) || startswith "/*" (strip raw) || startswith "*" (strip raw).

Definition is_blank_line (raw : string) : bool := String.eqb (strip raw) "".

(** [comment_lines] is the comment block above the line [start_line].
    Take the lines directly above that line, at most 18 of them, and of
    these the longest run at their end, next to the entity, that holds only
    comment lines and blank lines: [comment_lines] are the comment lines of
    that run, in the order of the file. *)
Definition comment_block_above (lines : list string) (start_line : nat)
    (comment_lines : list string) : Prop :=
  exists skipped run,
    lslice lines (start_line - 19) (start_line - 1) = skipped ++ run
    /\ Forall (fun raw => is_comment_line raw = true \/ is_blank_line raw = true) run
    /\ (forall raw, last skipped = Some raw ->
                    is_comment_line raw = false /\ is_blank_line raw = false)
    /\ comment_lines = filter (fun raw => is_comment_line raw = true) run.

(** [c] is the comment chunk of [e]: the comment block above the entity,
    which has more than two lines, then a snippet of at most 200 characters
    of the code of the entity. *)
Definition is_comment_chunk (lines : list string) (e : Entity.t) (c : CodeChunk.t) : Prop :=
  CodeChunk.entity_name c = Some (Entity.qualified_name e)
  /\ CodeChunk.chunk_type c = "comment_block"
  /\ CodeChunk.end_line c = Entity.start_line e
  /\ CodeChunk.metadata c = [("comment_for", MStr (Entity.qualified_name e))]
  /\ exists comment_lines,
       comment_block_above lines (Entity.start_line e) comment_lines
       /\ 2 < List.length comment_lines
       /\ CodeChunk.start_line c = Entity.start_line e - List.length comment_lines
       /\ CodeChunk.content c
          = join nl comment_lines +:+ nl +:+ nl
            +:+ slice (join nl (lines_of_entity lines e)) 0 200.

(** [cs] are the chunks of [e]: its chunk, followed by its comment chunk
    when the comment block above it has more than two lines. *)
Definition are_chunks_of (lines : list string) (e : Entity.t) (cs : list CodeChunk.t) : Prop :=
  exists main rest comment_lines,
    cs = main :: rest
    /\ is_entity_chunk lines e main
    /\ comment_block_above lines (Entity.start_line e) comment_lines
    /\ ((List.length comment_lines <= 2 /\ rest = [])
        \/ (2 < List.length comment_lines
            /\ exists c, rest = [c] /\ is_comment_chunk lines e c)).

(** An entity whose start lies so far past the end of the content that the
    scan for comments above it reads a line that is not there. *)
Definition starts_past_end (lines : list string) (e : Entity.t) : Prop :=
  1 < Entity.start_line e /\ List.length lines + 2 <= Entity.start_line e.

(* ===================================================================== *)
(** * Notions about the store, and the other functions of server.py       *)
(* ===================================================================== *)

(** The row of an entity holds what the parse found. *)
Definition stored_as (entity : Entity.t) (row : EntityRow.t) : Prop :=
  EntityRow.type row = Entity.type entity
  /\ EntityRow.qualified_name row = Entity.qualified_name entity
  /\ EntityRow.simple_name row = Entity.simple_name entity
  /\ EntityRow.signature row = Entity.signature entity
  /\ EntityRow.start_line row = Entity.start_line entity
  /\ EntityRow.end_line row = Entity.end_line entity
  /\ EntityRow.complexity_score row = Entity.complexity_score entity
  /\ EntityRow.is_public row = Entity.is_public entity
  /\ EntityRow.metadata row = Entity.metadata entity.

(** The vector of a chunk row is what the encoder answers for its content,
    and has the width of the schema. *)
Definition encoded_by (embedding_model : Encoder) (row : ChunkRow.t) : Prop :=
  embedding_model (ChunkRow.content row) = Some (ChunkRow.embedding row)
  /\ List.length (ChunkRow.embedding row) = vector_width.

(** Every entity row has an id that the sequence has handed out. *)
Definition ids_handed_out (s : State) : Prop :=
  Forall (fun e => EntityRow.id e < DB.entities_id_seq (seqs s)) (DB.entities (tables s)).

(** An entity row with its parent link blanked: what the updates of the
    parent links leave as it is. *)
Definition without_parent (e : EntityRow.t) : EntityRow.t :=
  EntityRow.mk (EntityRow.id e) (EntityRow.file_id e) (EntityRow.type e)
    (EntityRow.qualified_name e) (EntityRow.simple_name e) (EntityRow.signature e)
    (EntityRow.start_line e) (EntityRow.end_line e) (EntityRow.complexity_score e)
    (EntityRow.is_public e) None (EntityRow.metadata e).

Module MoreExamples.

(** An embedding model that raises on every text. *)
Definition failing_encoder : Encoder := fun _ => None.

(** One readable file, [a.cpp], with the content of the example of the
    specification; its two hashes agree. *)
Definition one_file_env (embedding_model : Encoder) : Env :=
  mkEnv (fun path => if String.eqb path "a.cpp" then Some Examples.nested_source else None)
        (fun text => text)
        (fun path => if String.eqb path "a.cpp" then Examples.nested_source else "")
        (fun content => parse_cpp_file (Examples.nested_tree "identifier") content)
        embedding_model 0.

(** One readable file, [b.cpp], with the small file of two structs and two
    functions, of which one calls the other. *)
Definition edges_env : Env :=
  mkEnv (fun path => if String.eqb path "b.cpp" then Some Examples.edges_source else None)
        (fun text => text)
        (fun path => if String.eqb path "b.cpp" then Examples.edges_source else "")
        (fun content => parse_cpp_file Examples.edges_tree content)
        Examples.zero_encoder 0.

(** The store after [b.cpp] has been indexed by a batch: four entities,
    and the edge from [Derived] to [Base]. *)
Definition edges_store : State :=
  snd (batch_index_files edges_env ["b.cpp"] Examples.one_file_store).

(** Two readable files and an embedding model that raises on short
    texts: [b.cpp] parses, and [d.cpp], with the content whose parse runs
    into the recursion limit, does not. *)
Definition faulty_env : Env :=
  mkEnv (fun path => if String.eqb path "b.cpp" then Some Examples.edges_source
                     else if String.eqb path "d.cpp" then Some Examples.long_content
                     else None)
        (fun text => text)
        (fun path => if String.eqb path "b.cpp" then Examples.edges_source
                     else if String.eqb path "d.cpp" then Examples.long_content
                     else "")
        (fun content => if String.eqb content Examples.long_content then None
                        else parse_cpp_file Examples.edges_tree content)
        Examples.flaky_encoder 0.

(** A file of six lines: three comment lines and a blank line above the
    function [g], then the function [f], which calls [g]. *)
Definition commented_source : string :=
  "// g does nothing." +:+ nl +:+ "// It is called" +:+ nl +:+ nl +:+ "// by f." +:+ nl
  +:+ "void g() {}" +:+ nl +:+ "void f() { g(); }" +:+ nl.

Definition commented_tree : Node.t :=
  Node.mk "translation_unit" None 0 75 0 6
    [Examples.on_row 0 "comment" None 0 18 [];
     Examples.on_row 1 "comment" None 19 34 [];
     Examples.on_row 3 "comment" None 36 44 [];
     Examples.on_row 4 "function_definition" None 45 56
       [Examples.on_row 4 "primitive_type" (Some "type") 45 49 [];
        Examples.on_row 4 "function_declarator" (Some "declarator") 50 53
          [Examples.on_row 4 "identifier" (Some "declarator") 50 51 [];
           Examples.on_row 4 "parameter_list" (Some "parameters") 51 53
             [Examples.on_row 4 "(" None 51 52 []; Examples.on_row 4 ")" None 52 53 []]];
        Examples.on_row 4 "compound_statement" (Some "body") 54 56
          [Examples.on_row 4 "{" None 54 55 []; Examples.on_row 4 "}" None 55 56 []]];
     Examples.on_row 5 "function_definition" None 57 74
       [Examples.on_row 5 "primitive_type" (Some "type") 57 61 [];
        Examples.on_row 5 "function_declarator" (Some "declarator") 62 65
          [Examples.on_row 5 "identifier" (Some "declarator") 62 63 [];
           Examples.on_row 5 "parameter_list" (Some "parameters") 63 65
             [Examples.on_row 5 "(" None 63 64 []; Examples.on_row 5 ")" None 64 65 []]];
        Examples.on_row 5 "compound_statement" (Some "body") 66 74
          [Examples.on_row 5 "{" None 66 67 [];
           Examples.on_row 5 "expression_statement" None 68 72
             [Examples.on_row 5 "call_expression" None 68 71
                [Examples.on_row 5 "identifier" (Some "function") 68 69 [];
                 Examples.on_row 5 "argument_list" (Some "arguments") 69 71
                   [Examples.on_row 5 "(" None 69 70 []; Examples.on_row 5 ")" None 70 71 []]];
              Examples.on_row 5 ";" None 71 72 []];
           Examples.on_row 5 "}" None 73 74 []]]].

(** One readable file, [c.cpp], with that content; its two hashes agree. *)
Definition commented_env : Env :=
  mkEnv (fun path => if String.eqb path "c.cpp" then Some commented_source else None)
        (fun text => text)
        (fun path => if String.eqb path "c.cpp" then commented_source else "")
        (fun content => parse_cpp_file commented_tree content)
        Examples.zero_encoder 0.

(** The store after [c.cpp] has been indexed by a batch. *)
Definition commented_store : State :=
  snd (batch_index_files commented_env ["c.cpp"] Examples.one_file_store).



(** Two files and five classes.  [ns::Basement], stored first, and [Base]
    both match the symbol [Base]; three classes derive from
    [ns::Basement]. *)
Definition class_row (id file_id : nat) (qualified_name simple_name : string) : EntityRow.t :=
  EntityRow.mk id file_id "class" qualified_name simple_name
    (Some ("class " +:+ simple_name)) 1 1 0 true None [].

Definition derived_store : DB.Tables :=
  DB.mkTables
    [FileRow.mk 1 "a.cpp" "h" "indexed" (Some 0);
     FileRow.mk 2 "b.cpp" "h" "indexed" (Some 0)]
    [class_row 1 1 "ns::Basement" "Basement"; class_row 2 1 "Base" "Base";
     class_row 3 1 "X" "X"; class_row 4 2 "Y" "Y"; class_row 5 1 "Z" "Z"]
    [RelationshipRow.mk 1 3 1 "inherits" "class X : Basement" 9;
     RelationshipRow.mk 2 4 1 "inherits" "class Y : Basement" 3;
     RelationshipRow.mk 3 5 1 "inherits" "class Z : Basement" 5]
    [ChunkRow.mk 1 (Some 1) 1 "declaration" "class Basement {};" 1 1 [] [];
     ChunkRow.mk 2 (Some 2) 1 "declaration" "class Base {};" 2 2 [] []].

(** The same rows, with the entities stored in the other order. *)
Definition derived_store_swapped : DB.Tables :=
  DB.mkTables (DB.files derived_store) (rev (DB.entities derived_store))
    (DB.relationships derived_store) (DB.code_chunks derived_store).

End MoreExamples.

(** server.py: [index_files] hands its list to [batch_index_files]. *)
Definition index_files (env : Env) (file_paths : list string) (s : State)
  : list (string * Outcome unit) * State :=
  batch_index_files env file_paths s.

(** The loop of [initial_indexing] over the batches. *)
Fixpoint index_batches (env : Env) (batches : list (list string)) (s : State)
  : list (string * Outcome unit) * State :=
  match batches with
  | [] => ([], s)
  | batch :: rest =>
      let '(results, s1) := index_files env batch s in
      let '(more, s2) := index_batches env rest s1 in
      (results ++ more, s2)
  end.

(** server.py: [initial_indexing].  [all_files] are the files that the walk
    over the monitored directories meets, in its order; they are indexed in
    batches of 50, with no look at the rows they may have.  The progress
    that the function writes to [indexing_status] is left out. *)
Definition initial_indexing (env : Env) (all_files : list string) (s : State)
  : list (string * Outcome unit) * State :=
  let batch_size := 50 in
  index_batches env
    (map (fun i => lslice all_files i (i + batch_size))
         (range0 (List.length all_files) batch_size))
    s.

(** The row of [path] holds the hash [h]. *)
Definition holds_hash (path h : string) (s : State) : Prop :=
  exists row, lookup_file (tables s) path = Some row /\ FileRow.content_hash row = h.

(* ===================================================================== *)
(** * server.py: [delete_directory_data] and [trace_dependencies]          *)
(* ===================================================================== *)

(** [path LIKE $1 || '%'] *)
Definition under_path (path : string) (f : FileRow.t) : bool :=
  sql_like (path +:+ "%") (FileRow.path f).

(** [delete_directory_data]: the count of the first query, and the tables
    after [DELETE FROM files WHERE path LIKE $1 || '%'] with the cascades of
    the schema: to the entities and chunks of a deleted file, to the child
    entities of a deleted entity, and to the relationships and chunks of a
    deleted entity.  The answer with status 500, given when the database
    raises, is left out. *)
Definition delete_directory_data (path : string) (t : DB.Tables) : nat * DB.Tables :=
  let count := List.length (filter (fun f => under_path path f = true) (DB.files t)) in
  let dead_files :=
    map FileRow.id (filter (fun f => under_path path f = true) (DB.files t)) in
  let ents := DB.entities t in
  let dead :=
    cascade_closure (List.length ents) ents
      (map EntityRow.id (filter (fun e => mem (EntityRow.file_id e) dead_files = true) ents)) in
  (count,
   DB.mkTables
     (filter (fun f => under_path path f = false) (DB.files t))
     (filter (fun e => mem (EntityRow.id e) dead = false) ents)
     (filter (fun r => (mem (RelationshipRow.from_entity_id r) dead
                        || mem (RelationshipRow.to_entity_id r) dead) = false)
             (DB.relationships t))
     (filter (fun c => (mem (ChunkRow.file_id c) dead_files
                        || opt_mem (ChunkRow.entity_id c) dead) = false)
             (DB.code_chunks t))).

(** A row of the two lists of [trace_dependencies]. *)
Module Dependency.
Record t : Type := mk {
  name : string;
  type : string;
  relationship : string;
  file : string }.
End Dependency.

#[global] Instance dependency_eq_dec : EqDecision Dependency.t.
Proof. solve_decision. Defined.

Module Trace.
Record t : Type := mk {
  target : string;
  type : string;
  incoming : list Dependency.t;
  outgoing : list Dependency.t }.
End Trace.

(** The first query of [trace_dependencies]: no join, no ORDER BY,
    LIMIT 1. *)
Definition trace_target (t : DB.Tables) (target : string) : option EntityRow.t :=
  List.find (symbol_matches target) (DB.entities t).

(** [relationships r JOIN entities e ON <endpoint> = e.id JOIN files f ON
    e.file_id = f.id]: the row that an edge gives, for the entity at
    [endpoint]. *)
Definition dependency_of (t : DB.Tables) (endpoint : nat) (r : RelationshipRow.t)
  : option Dependency.t :=
  match List.find (fun ef => EntityRow.id (fst ef) =? endpoint) (entities_with_file t) with
  | Some (e, file_path) =>
      Some (Dependency.mk (EntityRow.qualified_name e) (EntityRow.type e)
              (RelationshipRow.relationship_type r) file_path)
  | None => None
  end.

(** [SELECT DISTINCT ... WHERE r.from_entity_id = $1 AND r.relationship_type
    = ANY($2) LIMIT 50].  SQL does not fix the order of the rows, nor which
    50 rows are kept when there are more: the rows are listed here in the
    order of the table, and what is proved of them does not depend on it. *)
Definition outgoing_dependencies (t : DB.Tables) (entity_id : nat)
    (relationship_types : list string) : list Dependency.t :=
  take 50
    (remove_dups
       (omap (fun r => dependency_of t (RelationshipRow.to_entity_id r) r)
          (filter (fun r => RelationshipRow.from_entity_id r = entity_id
                            /\ str_in (RelationshipRow.relationship_type r) relationship_types = true)
                  (DB.relationships t)))).

Definition incoming_dependencies (t : DB.Tables) (entity_id : nat)
    (relationship_types : list string) : list Dependency.t :=
  take 50
    (remove_dups
       (omap (fun r => dependency_of t (RelationshipRow.from_entity_id r) r)
          (filter (fun r => RelationshipRow.to_entity_id r = entity_id
                            /\ str_in (RelationshipRow.relationship_type r) relationship_types = true)
                  (DB.relationships t)))).

(** [trace_dependencies]; [None] is the ["error": "Target ... not found"]
    answer.  [depth] is a parameter that the body does not read. *)
Definition trace_dependencies (t : DB.Tables) (target direction : string) (depth : nat)
    (relationship_types : list string) : option Trace.t :=
  match trace_target t target with
  | None => None
  | Some entity =>
      let outgoing :=
        if str_in direction ["outgoing"; "both"]
        then outgoing_dependencies t (EntityRow.id entity) relationship_types
        else [] in
      let incoming :=
        if str_in direction ["incoming"; "both"]
        then incoming_dependencies t (EntityRow.id entity) relationship_types
        else [] in
      Some (Trace.mk (EntityRow.qualified_name entity) (EntityRow.type entity)
              incoming outgoing)
  end.

(** ** Notions about [LIKE] patterns *)

(** The characters that [LIKE] does not take literally. *)
Definition like_special (c : ascii) : bool :=
  Ascii.eqb c "%" || Ascii.eqb c "_" || Ascii.eqb c "\".

Fixpoint like_literal (p : string) : bool :=
  match p with
  | EmptyString => true
  | String c p' => negb (like_special c) && like_literal p'
  end.

(** No [%] and no backslash: only the underscore may be a wildcard. *)
Fixpoint like_plain (p : string) : bool :=
  match p with
  | EmptyString => true
  | String c p' => negb (Ascii.eqb c "%") && negb (Ascii.eqb c "\") && like_plain p'
  end.

(** [s] begins with [p], where an underscore of [p] stands for any one
    character. *)
Fixpoint starts_like (p s : string) : bool :=
  match p, s with
  | EmptyString, _ => true
  | String _ _, EmptyString => false
  | String c p', String d s' => (Ascii.eqb c "_" || Ascii.eqb c d) && starts_like p' s'
  end.

(** [s] contains [x]. *)
Definition contains (x s : string) : Prop :=
  exists before after, s = before +:+ x +:+ after.

(** Every entity row belongs to a file row. *)
Definition entities_have_files (t : DB.Tables) : Prop :=
  Forall (fun e => exists f, In f (DB.files t) /\ FileRow.id f = EntityRow.file_id e)
         (DB.entities t).

(** Every id that a map from names holds is the id of an entity row. *)
Definition map_live (m : gmap string nat) (t : DB.Tables) : Prop :=
  forall name id, m !! name = Some id -> entity_exists t id = true.

(** The same of the cache of the indexer. *)
Definition cache_live (s : State) : Prop := map_live (entity_cache s) (tables s).

(** What the loops rely on: the row of the file, and ids in the map of the
    file and in the cache that are ids of entity rows. *)
Definition ready (file_id : nat) (entity_map : gmap string nat) (s : State) : Prop :=
  file_exists (tables s) file_id = true
  /\ map_live entity_map (tables s)
  /\ cache_live s.

(** [p] holds of the node and of every node below it. *)
Fixpoint all_nodes (p : Node.t -> bool) (n : Node.t) {struct n} : bool :=
  p n && match n with
         | Node.mk _ _ _ _ _ _ ch => forallb (all_nodes p) ch
         end.

(** The [try] around [parse_cpp_file] gives, for every content that is
    read, an exception or what [parse_file] returns for some tree, in which
    every entity has a simple name. *)
Definition parses_with_names (env : Env) : Prop :=
  forall path content,
    read_text env path = Some content ->
    try_parse env content = None
    \/ exists self tree,
         try_parse env content = parse_file self tree content
         /\ Forall (fun e => Entity.simple_name e <> "")
                   (parsed_entities (parse_file self tree content)).

(** Every stored edge is an [inherits] edge. *)
Definition only_inherits (t : DB.Tables) : Prop :=
  Forall (fun row => RelationshipRow.relationship_type row = "inherits") (DB.relationships t).

(** The parent link of an entity row is empty, or is the id of a row of the
    same file whose qualified name is the qualified name of the entity
    without its last segment. *)
Definition parent_ok (t : DB.Tables) (row : EntityRow.t) : Prop :=
  match EntityRow.parent_id row with
  | None => True
  | Some parent =>
      exists prow last,
        In prow (DB.entities t)
        /\ EntityRow.id prow = parent
        /\ EntityRow.file_id prow = EntityRow.file_id row
        /\ rsplit_scope1 (EntityRow.qualified_name row)
           = [EntityRow.qualified_name prow; last]
  end.

(** What the loop over the parents relies on and keeps: the map of the file
    names rows of the file, a row of the file is known by its id, and the
    parent links of the rows of the file are sound. *)
Definition links_sound (file_id : nat) (entity_map : gmap string nat) (t : DB.Tables) : Prop :=
  (forall name id,
     entity_map !! name = Some id ->
     exists row, In row (DB.entities t) /\ EntityRow.id row = id
                 /\ EntityRow.qualified_name row = name
                 /\ EntityRow.file_id row = file_id)
  /\ (forall r r', In r (DB.entities t) -> In r' (DB.entities t) ->
                   EntityRow.file_id r = file_id -> EntityRow.id r = EntityRow.id r' -> r = r')
  /\ Forall (fun row => EntityRow.file_id row = file_id -> parent_ok t row) (DB.entities t).

(* ===================================================================== *)
(** * Properties of the walker                                             *)
(* ===================================================================== *)


Lemma within_cases n d : within n d -> d = n \/ below n d.
Proof.
  induction 1 as [|m c Hm IH Hc]; [now left|]. right.
  destruct IH as [->|(c0 & Hc0 & Hw)].
  - exists c. split; [exact Hc | constructor].
  - exists c0. split; [exact Hc0|]. exact (within_child c0 m c Hw Hc).
Qed.

(** Induction with the hypothesis available at every proper descendant. *)
Lemma node_below_ind (P : Node.t -> Prop) :
  (forall n, (forall d, below n d -> P d) -> P n) -> forall n, P n.
Proof.
  intros step n.
  enough (H : forall d, within n d -> P d) by (apply H; constructor).
  induction n as [n IH] using node_ind'.
  intros d Hd. destruct (within_cases _ _ Hd) as [->|(c & Hc & Hw)].
  - apply step. intros d' (c & Hc & Hw).
    rewrite Forall_forall in IH. exact (IH c ltac:(now apply list_elem_of_In) d' Hw).
  - rewrite Forall_forall in IH. exact (IH c ltac:(now apply list_elem_of_In) d Hw).
Qed.

Lemma child_by_field_name_In node name c :
  child_by_field_name node name = Some c -> In c (Node.children node).
Proof.
  unfold child_by_field_name. intros H. apply find_some in H. tauto.
Qed.

Lemma extract_unfold content pty node self :
  _extract_entities content pty node self =
  if String.eqb (Node.type node) "namespace_definition" then
    match child_by_field_name node "name" with
    | Some namespace_node =>
        let self1 := with_namespace (current_namespace self
                                     ++ [_get_node_text namespace_node content]) self in
        let self2 := visit_body content node self1 in
        with_namespace (removelast (current_namespace self2)) self2
    | None => self
    end
  else if str_in (Node.type node) ["class_specifier"; "struct_specifier"] then
    match child_by_field_name node "name" with
    | Some name_node =>
        let simple_name := _get_node_text name_node content in
        let self1 := add_relationships (inherits_edges self node content simple_name) self in
        let self2 := add_entity (class_entity self1 node content simple_name) self1 in
        let self3 := with_class (Some (_build_qualified_name self simple_name)) self2 in
        let self4 := visit_body content node self3 in
        with_class (current_class self) self4
    | None => self
    end
  else if str_in (Node.type node) ["function_definition"; "function_declarator"] then
    match declarator_of node with
    | Some declarator =>
        match _get_function_name_node declarator with
        | Some name_node => add_entity (function_entity self pty node name_node content) self
        | None => self
        end
    | None => self
    end
  else if String.eqb (Node.type node) "enum_specifier" then
    match child_by_field_name node "name" with
    | Some name_node => add_entity (enum_entity self node (_get_node_text name_node content)) self
    | None => self
    end
  else visit_children content (Some (Node.type node)) (Node.children node) self.
Proof.
  assert (Hvisit : forall p l s,
    (fix visit (pty0 : option string) (l0 : list Node.t) (self0 : CppParser) {struct l0} : CppParser :=
       match l0 with
       | [] => self0
       | child :: l' => visit pty0 l' (_extract_entities content pty0 child self0)
       end) p l s = visit_children content p l s).
  { intros p l. induction l as [|c l IH]; intros s; [reflexivity|]. simpl. apply IH. }
  assert (Hbody : forall n s,
    (fix visit_body (l : list Node.t) (self0 : CppParser) {struct l} : CppParser :=
       match l with
       | [] => self0
       | c :: l' =>
           if is_field "body" c
           then (fix visit (pty0 : option string) (l0 : list Node.t) (self1 : CppParser) {struct l0} : CppParser :=
                   match l0 with
                   | [] => self1
                   | child :: l'0 => visit pty0 l'0 (_extract_entities content pty0 child self1)
                   end) (Some (Node.type c)) (Node.children c) self0
           else visit_body l' self0
       end) (Node.children n) s = visit_body content n s).
  { intros n s. unfold visit_body, child_by_field_name.
    induction (Node.children n) as [|c l IH]; [reflexivity|].
    simpl. unfold is_field. destruct (bool_decide _); [apply Hvisit | apply IH]. }
  destruct node as [ty fld sb eb sr er ch].
  pose proof (Hbody (Node.mk ty fld sb eb sr er ch)) as Hb.
  cbn [Node.children] in Hb.
  cbn [_extract_entities Node.type Node.children].
  repeat match goal with
         | |- context [if ?b then _ else _] => destruct b
         | |- context [match child_by_field_name ?n ?f with _ => _ end] =>
             destruct (child_by_field_name n f)
         end;
    rewrite ?Hb, ?Hvisit; reflexivity.
Qed.

(** A property of every entity that the three entity-making branches
    establish holds of every entity of the walk. *)
Section WalkInvariant.
Variable content : string.
Variable root : Node.t.
Variable P : Entity.t -> Prop.
Hypothesis P_class : forall self node name,
  within root node ->
  str_in (Node.type node) ["class_specifier"; "struct_specifier"] = true ->
  P (class_entity self node content name).
Hypothesis P_function : forall self pty node name_node,
  within root node -> P (function_entity self pty node name_node content).
Hypothesis P_enum : forall self node name,
  within root node -> P (enum_entity self node name).

Let inv (self : CppParser) : Prop := Forall P (entities self).

Lemma visit_children_inv pty l :
  (forall c, In c l -> forall pty self, inv self -> inv (_extract_entities content pty c self)) ->
  forall self, inv self -> inv (visit_children content pty l self).
Proof.
  unfold visit_children. induction l as [|c l IH]; intros Hl self Hs; [exact Hs|].
  simpl. apply IH.
  - intros c' Hc'. apply Hl. now right.
  - apply Hl; [now left | exact Hs].
Qed.

Lemma extract_entities_inv node :
  within root node ->
  forall pty self, inv self -> inv (_extract_entities content pty node self).
Proof.
  induction node as [node IH] using node_below_ind.
  intros Hroot pty self Hs.
  assert (Hbody : forall s, inv s -> inv (visit_body content node s)).
  { intros s Hinv. unfold visit_body.
    destruct (child_by_field_name node "body") as [body|] eqn:Hb; [|exact Hinv].
    apply child_by_field_name_In in Hb.
    apply visit_children_inv; [|exact Hinv].
    intros c Hc. apply IH.
    - exists body. split; [exact Hb|]. exact (within_child body body c (within_root body) Hc).
    - apply (within_child root body c); [|exact Hc].
      exact (within_child root node body Hroot Hb). }
  rewrite extract_unfold.
  destruct (String.eqb (Node.type node) "namespace_definition").
  { destruct (child_by_field_name node "name"); [|exact Hs].
    cbn zeta. unfold inv, with_namespace; cbn [entities].
    apply Hbody. exact Hs. }
  destruct (str_in (Node.type node) ["class_specifier"; "struct_specifier"]) eqn:Hcls.
  { destruct (child_by_field_name node "name"); [|exact Hs].
    cbn zeta. unfold inv, with_class at 1; cbn [entities].
    apply Hbody. unfold inv, with_class, add_entity, add_relationships; cbn [entities].
    apply Forall_app. split; [exact Hs|]. repeat constructor.
    now apply P_class. }
  destruct (str_in (Node.type node) ["function_definition"; "function_declarator"]).
  { destruct (declarator_of node); [|exact Hs].
    destruct (_get_function_name_node _); [|exact Hs].
    unfold inv, add_entity; cbn [entities].
    apply Forall_app. split; [exact Hs|]. repeat constructor. now apply P_function. }
  destruct (String.eqb (Node.type node) "enum_specifier").
  { destruct (child_by_field_name node "name"); [|exact Hs].
    unfold inv, add_entity; cbn [entities].
    apply Forall_app. split; [exact Hs|]. repeat constructor. now apply P_enum. }
  apply visit_children_inv; [|exact Hs].
  intros c Hc. apply IH.
  - exists c. split; [exact Hc | constructor].
  - exact (within_child root node c Hroot Hc).
Qed.

Lemma extracted_entities_Forall : Forall P (extracted_entities root content).
Proof.
  unfold extracted_entities. apply extract_entities_inv; [constructor|].
  unfold inv. cbn. constructor.
Qed.
End WalkInvariant.

Lemma parse_file_entities self tree content :
  parsed_entities (parse_file self tree content) = [] \/
  parsed_entities (parse_file self tree content) = extracted_entities tree content.
Proof.
  unfold parse_file, extracted_entities.
  destruct (_create_chunks _ _); [now right | now left].
Qed.

(** C10.  Every entity of a parse is marked public: the visibility check
    answers [True] whatever node it is given, and class, struct and enum
    entities are built with [is_public=True]. *)
Theorem every_entity_is_public (self : CppParser) (tree : Node.t) (content : string) :
  Forall (fun e => Entity.is_public e = true)
         (parsed_entities (parse_file self tree content))
  /\ Forall (fun e => Entity.is_public e = true) (extracted_entities tree content)
  /\ forall node, _is_public node = true.
Proof.
  assert (H : Forall (fun e => Entity.is_public e = true) (extracted_entities tree content)).
  { apply extracted_entities_Forall; intros; reflexivity. }
  split; [|split; [exact H | reflexivity]].
  destruct (parse_file_entities self tree content) as [-> | ->]; [constructor | exact H].
Qed.

Lemma count_control_flow_spec n :
  forall complexity, count_control_flow n complexity = complexity + control_flow_nodes n.
Proof.
  induction n as [n IH] using node_ind'.
  destruct n as [ty fld sb eb sr er ch]. cbn [Node.children] in IH.
  intros complexity. cbn [count_control_flow control_flow_nodes].
  set (k := if str_in ty control_flow_types then 1 else 0).
  replace (if str_in ty control_flow_types then complexity + 1 else complexity)
    with (complexity + k) by (unfold k; destruct (str_in ty control_flow_types); lia).
  rewrite Nat.add_assoc. generalize (complexity + k) as acc.
  induction IH as [|c l Hc _ IHl]; intros acc; cbn [fold_left map].
  - cbn. lia.
  - rewrite IHl, Hc. change (list_sum (control_flow_nodes c :: map control_flow_nodes l))
      with (control_flow_nodes c + list_sum (map control_flow_nodes l)). lia.
Qed.

Lemma calculate_complexity_spec node :
  _calculate_complexity node = 1 + control_flow_nodes node.
Proof. unfold _calculate_complexity. apply count_control_flow_spec. Qed.

(** C8, as amended.  A function entity has [complexity_score] one plus the
    number of control-flow nodes in the subtree of its node, hence at least
    one; a class, struct or enum entity is built with [complexity_score=0]. *)
Theorem complexity_score_by_kind (tree : Node.t) (content : string) :
  Forall (fun e =>
            (Entity.type e = "function"
             /\ 1 <= Entity.complexity_score e
             /\ exists node, within tree node /\ made_from e node
                  /\ Entity.complexity_score e = 1 + control_flow_nodes node)
            \/ (In (Entity.type e) ["class"; "struct"; "enum"]
                /\ Entity.complexity_score e = 0))
         (extracted_entities tree content).
Proof.
  apply extracted_entities_Forall.
  - intros self node name _ _. right. split; [|reflexivity].
    cbn [class_entity Entity.type].
    destruct (String.eqb (Node.type node) "class_specifier"); simpl; tauto.
  - intros self pty node name_node Hin. left.
    cbn [function_entity Entity.type Entity.complexity_score].
    rewrite calculate_complexity_spec. split; [reflexivity|]. split; [lia|].
    exists node. split; [exact Hin|]. split; [|reflexivity].
    unfold made_from, line_of; cbn. tauto.
  - intros self node name _. right. split; [simpl; tauto | reflexivity].
Qed.

(* ===================================================================== *)
(** * Qualified names and the context of the walk                          *)
(* ===================================================================== *)

Section ContextWalkFacts.
Context {Ctx : Type}.
Variable in_namespace : Ctx -> string -> Ctx.
Variable in_class : Ctx -> string -> Ctx.
Variable qualify : Ctx -> string -> string.

Local Abbreviation names := (names_under in_namespace in_class qualify).
Local Abbreviation names_children := (names_of_children in_namespace in_class qualify).
Local Abbreviation names_body := (names_of_body in_namespace in_class qualify).

Lemma names_under_unfold content ctx node :
  names content ctx node =
  if String.eqb (Node.type node) "namespace_definition" then
    match child_by_field_name node "name" with
    | Some name_node =>
        names_body content (in_namespace ctx (_get_node_text name_node content)) node
    | None => []
    end
  else if str_in (Node.type node) ["class_specifier"; "struct_specifier"] then
    match child_by_field_name node "name" with
    | Some name_node =>
        qualify ctx (_get_node_text name_node content)
        :: names_body content (in_class ctx (_get_node_text name_node content)) node
    | None => []
    end
  else if str_in (Node.type node) ["function_definition"; "function_declarator"] then
    match declarator_of node with
    | Some declarator =>
        match _get_function_name_node declarator with
        | Some name_node => [qualify ctx (_get_node_text name_node content)]
        | None => []
        end
    | None => []
    end
  else if String.eqb (Node.type node) "enum_specifier" then
    match child_by_field_name node "name" with
    | Some name_node => [qualify ctx (_get_node_text name_node content)]
    | None => []
    end
  else names_children content ctx (Node.children node).
Proof.
  assert (Hvisit : forall c l,
    (fix visit (ctx0 : Ctx) (l0 : list Node.t) {struct l0} : list string :=
       match l0 with
       | [] => []
       | child :: l' => names content ctx0 child ++ visit ctx0 l'
       end) c l = names_children content c l).
  { intros c l. unfold names_of_children.
    induction l as [|x l IH]; [reflexivity|]. cbn [map concat]. now rewrite <- IH. }
  assert (Hbody : forall n c,
    (fix visit_body (ctx0 : Ctx) (l : list Node.t) {struct l} : list string :=
       match l with
       | [] => []
       | c0 :: l' =>
           if is_field "body" c0
           then (fix visit (ctx1 : Ctx) (l0 : list Node.t) {struct l0} : list string :=
                   match l0 with
                   | [] => []
                   | child :: l'0 => names content ctx1 child ++ visit ctx1 l'0
                   end) ctx0 (Node.children c0)
           else visit_body ctx0 l'
       end) c (Node.children n) = names_body content c n).
  { intros n c. unfold names_of_body, child_by_field_name.
    induction (Node.children n) as [|x l IH]; [reflexivity|].
    simpl. unfold is_field. destruct (bool_decide _); [apply Hvisit | apply IH]. }
  destruct node as [ty fld sb eb sr er ch].
  pose proof (Hbody (Node.mk ty fld sb eb sr er ch)) as Hb.
  cbn [Node.children] in Hb.
  cbn [names_under Node.type Node.children].
  repeat match goal with
         | |- context [if ?b then _ else _] => destruct b
         | |- context [match child_by_field_name ?n ?f with _ => _ end] =>
             destruct (child_by_field_name n f)
         end;
    rewrite ?Hb, ?Hvisit; reflexivity.
Qed.
End ContextWalkFacts.


Local Abbreviation scope_names :=
  (names_under (fun sc name => (fst sc ++ [name], snd sc))
               (fun sc name => (fst sc, Some (scope_qualify sc name)))
               scope_qualify).
Local Abbreviation scope_names_children :=
  (names_of_children (fun sc name => (fst sc ++ [name], snd sc))
                     (fun sc name => (fst sc, Some (scope_qualify sc name)))
                     scope_qualify).
Local Abbreviation scope_names_body :=
  (names_of_body (fun sc name => (fst sc ++ [name], snd sc))
                 (fun sc name => (fst sc, Some (scope_qualify sc name)))
                 scope_qualify).

Lemma build_qualified_name_scope self simple_name :
  _build_qualified_name self simple_name = scope_qualify (scope_of self) simple_name.
Proof.
  unfold _build_qualified_name, scope_qualify, scope_of. cbn [fst snd].
  f_equal.
  destruct (current_namespace self); destruct (current_class self) as [cls|];
    try destruct (truthy_str (Some cls));
    cbn [app]; rewrite ?app_nil_r, <- ?app_assoc; reflexivity.
Qed.


Lemma visit_children_effect content pty l :
  (forall c, In c l -> forall pty self,
     walk_effect content self (_extract_entities content pty c self)
                 (scope_names content (scope_of self) c)) ->
  forall self,
    walk_effect content self (visit_children content pty l self)
                (scope_names_children content (scope_of self) l).
Proof.
  unfold visit_children, names_of_children.
  induction l as [|c l IH]; intros Hl self.
  - split; [reflexivity|]. cbn. now rewrite app_nil_r.
  - cbn [fold_left map concat].
    destruct (Hl c (or_introl eq_refl) pty self) as [Hsc Hn].
    destruct (IH (fun c' Hc' => Hl c' (or_intror Hc'))
                 (_extract_entities content pty c self)) as [Hsc' Hn'].
    split; [congruence|]. rewrite Hn', Hn, Hsc. now rewrite app_assoc.
Qed.

Lemma extract_entities_effect content node :
  forall pty self,
    walk_effect content self (_extract_entities content pty node self)
                (scope_names content (scope_of self) node).
Proof.
  induction node as [node IH] using node_below_ind. intros pty self.
  assert (Hbody : forall s,
    walk_effect content s (visit_body content node s)
                (scope_names_body content (scope_of s) node)).
  { intros s. unfold visit_body, names_of_body.
    destruct (child_by_field_name node "body") as [body|] eqn:Hb.
    - apply child_by_field_name_In in Hb. apply visit_children_effect.
      intros c Hc. apply IH. exists body. split; [exact Hb|].
      exact (within_child body body c (within_root body) Hc).
    - split; [reflexivity | now rewrite app_nil_r]. }
  rewrite extract_unfold, names_under_unfold.
  destruct (String.eqb (Node.type node) "namespace_definition").
  { destruct (child_by_field_name node "name") as [name_node|];
      [|split; [reflexivity | now rewrite app_nil_r]].
    cbn zeta.
    set (self1 := with_namespace _ self).
    destruct (Hbody self1) as [Hsc Hn].
    set (self2 := visit_body content node self1) in *.
    pose proof (f_equal fst Hsc) as Hns. pose proof (f_equal snd Hsc) as Hcls.
    cbn in Hns, Hcls.
    split.
    - unfold scope_of. cbn [with_namespace current_namespace current_class].
      rewrite Hns, removelast_last, Hcls. reflexivity.
    - cbn [with_namespace entities]. exact Hn. }
  destruct (str_in (Node.type node) ["class_specifier"; "struct_specifier"]).
  { destruct (child_by_field_name node "name") as [name_node|];
      [|split; [reflexivity | now rewrite app_nil_r]].
    cbn zeta. set (simple_name := _get_node_text name_node content).
    set (self2 := add_entity _ _).
    set (self3 := with_class _ self2).
    destruct (Hbody self3) as [Hsc Hn].
    set (self4 := visit_body content node self3) in *.
    pose proof (f_equal fst Hsc) as Hns. cbn in Hns.
    split.
    - unfold scope_of. cbn [with_class current_namespace current_class].
      rewrite Hns. reflexivity.
    - cbn [with_class entities]. rewrite Hn.
      unfold self3, self2, scope_of, add_entity, add_relationships, class_entity.
      cbn [with_class entities current_namespace current_class].
      rewrite map_app. cbn [map Entity.qualified_name].
      rewrite !build_qualified_name_scope.
      unfold scope_of; cbn [current_namespace current_class].
      rewrite <- app_assoc. reflexivity. }
  destruct (str_in (Node.type node) ["function_definition"; "function_declarator"]).
  { destruct (declarator_of node); [|split; [reflexivity | now rewrite app_nil_r]].
    destruct (_get_function_name_node _);
      [|split; [reflexivity | now rewrite app_nil_r]].
    split; [reflexivity|]. unfold add_entity, function_entity; cbn [entities].
    rewrite map_app. cbn [map Entity.qualified_name].
    now rewrite build_qualified_name_scope. }
  destruct (String.eqb (Node.type node) "enum_specifier").
  { destruct (child_by_field_name node "name");
      [|split; [reflexivity | now rewrite app_nil_r]].
    split; [reflexivity|]. unfold add_entity, enum_entity; cbn [entities].
    rewrite map_app. cbn [map Entity.qualified_name].
    now rewrite build_qualified_name_scope. }
  apply visit_children_effect. intros c Hc. apply IH.
  exists c. split; [exact Hc | constructor].
Qed.

(** How the walker names an entity: the names of the enclosing namespaces,
    then the last ["::"] segment of the qualified name of the innermost
    enclosing class or struct only, then the simple name, joined with
    ["::"].  The walker leaves its context fields as it found them, and a
    parse does not depend on the parser object it starts from, so parsing
    the same content again gives the same names. *)
Lemma qualified_names_follow_scope (tree : Node.t) (content : string) :
  map Entity.qualified_name (extracted_entities tree content) = scoped_names tree content
  /\ (forall pty self,
        scope_of (_extract_entities content pty tree self) = scope_of self)
  /\ (forall self1 self2,
        parse_file self1 tree content = parse_file self2 tree content).
Proof.
  split; [|split].
  - unfold extracted_entities, scoped_names.
    destruct (extract_entities_effect content tree None (mkParser [] None [] [])) as [_ H].
    exact H.
  - intros pty self. apply (extract_entities_effect content tree pty self).
  - intros self1 self2. reflexivity.
Qed.

(** C2, at the failing input [class A { class B { class C {}; }; };].  The
    lexical nesting path of the innermost class is [A::B::C]; the walker
    names it [B::C], since [_build_qualified_name] keeps only the last
    segment of the name of the enclosing class.  The name is not what the
    indexer needs either: it cuts the last segment off and looks [B] up in
    the map of the file, which holds the class under [A::B], so the row of
    [B::C] gets no parent, while the row of [A::B] gets the row of [A]. *)
Theorem qualified_name_is_not_the_nesting_path :
  map Entity.qualified_name
      (extracted_entities Examples.classes_tree Examples.classes_source)
  = ["A"; "A::B"; "B::C"]
  /\ lexical_names Examples.classes_tree Examples.classes_source
     = ["A"; "A::B"; "A::B::C"]
  /\ map Entity.qualified_name
         (extracted_entities Examples.classes_tree Examples.classes_source)
     <> lexical_names Examples.classes_tree Examples.classes_source
  /\ indexed_rows Examples.classes_tree Examples.classes_source
     = [(1, "A", None); (2, "A::B", Some 1); (3, "B::C", None)].
Proof.
  assert (H1 : map Entity.qualified_name
                 (extracted_entities Examples.classes_tree Examples.classes_source)
               = ["A"; "A::B"; "B::C"]) by (vm_compute; reflexivity).
  assert (H2 : lexical_names Examples.classes_tree Examples.classes_source
               = ["A"; "A::B"; "A::B::C"]) by (vm_compute; reflexivity).
  split; [exact H1|]. split; [exact H2|]. split.
  - rewrite H1, H2. discriminate.
  - vm_compute. reflexivity.
Qed.

(** C8, the claim as stated, fails: the class entity of the example has
    [complexity_score] zero. *)
Lemma class_entity_has_complexity_zero :
  ~ Forall (fun e => 1 <= Entity.complexity_score e)
           (extracted_entities (Examples.nested_tree "field_identifier")
                               Examples.nested_source).
Proof.
  intros H. apply Forall_inv in H. vm_compute in H. lia.
Qed.

(* ===================================================================== *)
(** * The example of the specification                                     *)
(* ===================================================================== *)

(** The kinds of entity that a parse can hold. *)
Lemma entity_kinds (tree : Node.t) (content : string) :
  Forall (fun e => In (Entity.type e) ["class"; "struct"; "function"; "enum"])
         (extracted_entities tree content).
Proof.
  apply extracted_entities_Forall.
  - intros self node name _ _. cbn [class_entity Entity.type].
    destruct (String.eqb (Node.type node) "class_specifier"); simpl; tauto.
  - intros. simpl. tauto.
  - intros. simpl. tauto.
Qed.

(** C7, at the failing input: the example of the specification, with the
    tree that the C++ grammar gives it.  The claim names three entities, [A],
    [A::B] and [A::B::c].  The parse has one, the class [A::B]: the branch of
    a namespace adds the name to the scope and makes no entity, in this and
    in every parse; and the name of the method is held by a
    [field_identifier] node without children, among which
    [_get_function_name_node] looks for it in vain.  After indexing, the
    store holds the row of [A::B], without a parent, and no row [A::B::c]
    whose parent could be resolved. *)
Theorem nested_example_entities :
  names_of_parse (Examples.nested_tree "field_identifier") Examples.nested_source
  = ["A::B"]
  /\ names_of_parse (Examples.nested_tree "field_identifier") Examples.nested_source
     <> ["A"; "A::B"; "A::B::c"]
  /\ map Entity.type
         (extracted_entities (Examples.nested_tree "field_identifier")
                             Examples.nested_source)
     = ["class"]
  /\ option_map _get_function_name_node
       (declarator_of (Examples.method_c "field_identifier")) = Some None
  /\ indexed_rows (Examples.nested_tree "field_identifier") Examples.nested_source
     = [(1, "A::B", None)]
  /\ (forall tree content,
        Forall (fun e => Entity.type e <> "namespace") (extracted_entities tree content)).
Proof.
  split; [vm_compute; reflexivity|]. split; [vm_compute; discriminate|].
  split; [vm_compute; reflexivity|]. split; [vm_compute; reflexivity|].
  split; [vm_compute; reflexivity|].
  intros tree content. eapply Forall_impl; [apply entity_kinds|].
  intros e He Hns. cbn beta in He. rewrite Hns in He. simpl in He.
  repeat (destruct He as [He|He]; [discriminate He|]). exact He.
Qed.

(* ===================================================================== *)
(** * Relationship resolution                                              *)
(* ===================================================================== *)

Lemma edges_at_unassigned node content :
  Forall (fun r => Relationship.from_entity r = ""
                   /\ (Relationship.relationship_type r = "calls"
                       \/ Relationship.relationship_type r = "includes"))
         (edges_at node content).
Proof.
  unfold edges_at.
  destruct (String.eqb (Node.type node) "preproc_include").
  { destruct (truthy_str _); [|constructor].
    constructor; [|constructor]. split; [reflexivity | now right]. }
  destruct (String.eqb (Node.type node) "call_expression"); [|constructor].
  destruct (child_by_field_name node "function"); [|constructor].
  constructor; [|constructor]. split; [reflexivity | now left].
Qed.

(** The second pass only adds edges whose "from" endpoint is the empty
    string. *)
Lemma extract_relationships_unassigned content (P : Relationship.t -> Prop) node :
  (forall r, Relationship.from_entity r = ""
             /\ (Relationship.relationship_type r = "calls"
                 \/ Relationship.relationship_type r = "includes") -> P r) ->
  forall rels, Forall P rels -> Forall P (_extract_relationships content node rels).
Proof.
  intros HP. induction node as [node IH] using node_ind'. intros rels Hrels.
  destruct node as [ty fld sb eb sr er ch]. cbn [_extract_relationships].
  cbn [Node.children] in IH.
  assert (H0 : Forall P (rels ++ edges_at (Node.mk ty fld sb eb sr er ch) content)).
  { apply Forall_app. split; [exact Hrels|].
    eapply Forall_impl; [apply edges_at_unassigned | exact HP]. }
  revert H0. generalize (rels ++ edges_at (Node.mk ty fld sb eb sr er ch) content).
  induction IH as [|c l Hc _ IHl]; intros acc Hacc; cbn [fold_left]; [exact Hacc|].
  apply IHl. apply Hc. exact Hacc.
Qed.

(** The first pass only adds [inherits] edges. *)
Lemma extract_entities_inherits content node :
  forall pty self,
    Forall (fun r => Relationship.relationship_type r = "inherits") (relationships self) ->
    Forall (fun r => Relationship.relationship_type r = "inherits")
           (relationships (_extract_entities content pty node self)).
Proof.
  induction node as [node IH] using node_below_ind. intros pty self Hs.
  assert (Hvisit : forall p l,
    (forall c, In c l -> below node c) ->
    forall s, Forall (fun r => Relationship.relationship_type r = "inherits") (relationships s) ->
    Forall (fun r => Relationship.relationship_type r = "inherits")
           (relationships (visit_children content p l s))).
  { intros p l. unfold visit_children.
    induction l as [|c l IHl]; intros Hl s Hinv; cbn [fold_left]; [exact Hinv|].
    apply IHl; [intros c' Hc'; apply Hl; now right|].
    apply IH; [apply Hl; now left | exact Hinv]. }
  assert (Hbody : forall s,
    Forall (fun r => Relationship.relationship_type r = "inherits") (relationships s) ->
    Forall (fun r => Relationship.relationship_type r = "inherits")
           (relationships (visit_body content node s))).
  { intros s Hinv. unfold visit_body.
    destruct (child_by_field_name node "body") as [body|] eqn:Hb; [|exact Hinv].
    apply child_by_field_name_In in Hb. apply Hvisit; [|exact Hinv].
    intros c Hc. exists body. split; [exact Hb|].
    exact (within_child body body c (within_root body) Hc). }
  rewrite extract_unfold.
  destruct (String.eqb (Node.type node) "namespace_definition").
  { destruct (child_by_field_name node "name"); [|exact Hs].
    cbn zeta. cbn [with_namespace relationships]. apply Hbody. exact Hs. }
  destruct (str_in (Node.type node) ["class_specifier"; "struct_specifier"]).
  { destruct (child_by_field_name node "name"); [|exact Hs].
    cbn zeta. cbn [with_class relationships]. apply Hbody.
    cbn [with_class add_entity add_relationships relationships].
    apply Forall_app. split; [exact Hs|].
    unfold inherits_edges. destruct (child_by_field_name node "base_clause"); [|constructor].
    apply Forall_forall. intros r Hr. apply list_elem_of_In, in_map_iff in Hr.
    destruct Hr as (b & <- & _). reflexivity. }
  destruct (str_in (Node.type node) ["function_definition"; "function_declarator"]).
  { destruct (declarator_of node); [|exact Hs].
    destruct (_get_function_name_node _); exact Hs. }
  destruct (String.eqb (Node.type node) "enum_specifier").
  { destruct (child_by_field_name node "name"); exact Hs. }
  apply Hvisit; [|exact Hs].
  intros c Hc. exists c. split; [exact Hc | constructor].
Qed.

(** Every edge of a parse is an [inherits] edge or has no "from" endpoint:
    the parser leaves the caller of a call and the includer of an include
    unassigned. *)
Lemma parsed_edges_shape self tree content :
  Forall (fun r => Relationship.relationship_type r = "inherits"
                   \/ (Relationship.from_entity r = ""
                       /\ (Relationship.relationship_type r = "calls"
                           \/ Relationship.relationship_type r = "includes")))
         (parsed_relationships (parse_file self tree content)).
Proof.
  unfold parse_file. destruct (_create_chunks _ _); [|constructor].
  cbn [parsed_relationships].
  apply extract_relationships_unassigned; [intros r Hr; now right|].
  eapply Forall_impl.
  - apply extract_entities_inherits. constructor.
  - intros r Hr. now left.
Qed.

Lemma entity_exists_same_entities t t' id :
  DB.entities t' = DB.entities t -> entity_exists t' id = entity_exists t id.
Proof. unfold entity_exists. now intros ->. Qed.

(** What [_insert_relationship] does to the state, in terms of the two
    resolutions. *)
Lemma insert_relationship_cases rel entity_map file_id s :
  let from_id := resolve_from entity_map (entity_cache s) (Relationship.from_entity rel) in
  let to_id := resolve_to (tables s) entity_map (entity_cache s) (Relationship.to_entity rel) in
  let s' := snd (_insert_relationship rel entity_map file_id s) in
  (s' = s
   /\ (Relationship.relationship_type rel = "includes"
       \/ truthy_id from_id && truthy_id to_id = false))
  \/ (exists f t,
        Relationship.relationship_type rel <> "includes"
        /\ from_id = Some f /\ to_id = Some t /\ f <> 0 /\ t <> 0
        /\ DB.files (tables s') = DB.files (tables s)
        /\ DB.entities (tables s') = DB.entities (tables s)
        /\ DB.code_chunks (tables s') = DB.code_chunks (tables s)
        /\ entity_cache s' = entity_cache s
        /\ ((entity_exists (tables s) f = true /\ entity_exists (tables s) t = true
             /\ DB.relationships (tables s')
                = DB.relationships (tables s)
                  ++ [edge_row (DB.relationships_id_seq (seqs s)) f t rel])
            \/ ((entity_exists (tables s) f = false \/ entity_exists (tables s) t = false)
                /\ fst (_insert_relationship rel entity_map file_id s)
                   = Raise ForeignKeyViolation
                /\ DB.relationships (tables s') = DB.relationships (tables s)))).
Proof.
  cbn zeta. unfold _insert_relationship, bind, get.
  change (lookup_name entity_map (entity_cache s) (Relationship.from_entity rel))
    with (resolve_from entity_map (entity_cache s) (Relationship.from_entity rel)).
  destruct (String.eqb (Relationship.relationship_type rel) "includes") eqn:Hinc.
  { left. apply String.eqb_eq in Hinc. split; [reflexivity | now left]. }
  apply String.eqb_neq in Hinc.
  set (from_id := resolve_from entity_map (entity_cache s) (Relationship.from_entity rel)).
  assert (Hto : forall (k : option nat -> M unit),
    (match
        match lookup_name entity_map (entity_cache s) (Relationship.to_entity rel) with
        | Some id => ret (Some id)
        | None => select_id_by_simple_name (last_scope_segment (Relationship.to_entity rel))
        end s
      with
      | (Ok a, s'0) => k a s'0
      | (Raise e, s'0) => (Raise e, s'0)
      end)
    = k (resolve_to (tables s) entity_map (entity_cache s) (Relationship.to_entity rel)) s).
  { intros k. unfold lookup_name, resolve_to, select_id_by_simple_name, bind, get, ret.
    destruct (entity_map !! Relationship.to_entity rel); [reflexivity|].
    destruct (entity_cache s !! Relationship.to_entity rel); reflexivity. }
  rewrite Hto. clear Hto.
  set (to_id := resolve_to _ _ _ _).
  destruct (truthy_id from_id && truthy_id to_id) eqn:Htr.
  2:{ left. split; [reflexivity | now right]. }
  right. apply andb_true_iff in Htr. destruct Htr as [Hf Ht].
  destruct from_id as [f|] eqn:Ef; [|discriminate]. destruct to_id as [t|] eqn:Et; [|discriminate].
  cbn in Hf, Ht. apply negb_true_iff, Nat.eqb_neq in Hf, Ht.
  exists f, t. split; [exact Hinc|]. do 4 (split; [first [reflexivity | assumption]|]).
  unfold insert_relationship_row, bind, get, next_relationship_id, set_tables, raise.
  cbn [default tables seqs entity_cache fst snd].
  unfold id.
  destruct (entity_exists (tables s) f) eqn:Hef; destruct (entity_exists (tables s) t) eqn:Het;
    cbn [andb fst snd tables seqs entity_cache DB.files DB.entities DB.code_chunks DB.relationships];
    repeat (split; [reflexivity|]);
    first [ left; repeat split; reflexivity
          | right; split; [tauto | split; reflexivity] ].
Qed.

(* ===================================================================== *)
(** * Invariants of indexing steps                                         *)
(* ===================================================================== *)


Section Keeps.
Variable I : State -> Prop.

Lemma keeps_ret {A} (a : A) : keeps I (ret a).
Proof. intros s Hs. exact Hs. Qed.

Lemma keeps_raise {A} e : keeps I (@raise A e).
Proof. intros s Hs. exact Hs. Qed.

Lemma keeps_get : keeps I get.
Proof. intros s Hs. exact Hs. Qed.

Lemma keeps_bind {A B} (m : M A) (k : A -> M B) :
  keeps I m -> (forall a, keeps I (k a)) -> keeps I (bind m k).
Proof.
  intros Hm Hk s Hs. unfold bind. specialize (Hm s Hs).
  destruct (m s) as [[a|e] s1]; cbn [snd] in *; [apply Hk; exact Hm | exact Hm].
Qed.

Lemma keeps_for_each {A} (l : list A) (body : A -> M unit) :
  (forall x, keeps I (body x)) -> keeps I (for_each l body).
Proof.
  intros Hb. induction l as [|x l IH]; cbn [for_each]; [apply keeps_ret|].
  apply keeps_bind; [apply Hb | intros _; exact IH].
Qed.

(** The continuation may use that the first step ended normally. *)
Lemma keeps_bind_ok {A B} (m : M A) (k : A -> M B) :
  keeps I m ->
  (forall s a, I s -> fst (m s) = Ok a -> keeps I (k a)) ->
  keeps I (bind m k).
Proof.
  intros Hm Hk s Hs. unfold bind. specialize (Hm s Hs). specialize (Hk s).
  destruct (m s) as [[a|e] s1]; cbn [fst snd] in *; [|exact Hm].
  apply (Hk a Hs eq_refl). exact Hm.
Qed.

(** An invariant that holds of the old tables next to the new sequences
    and cache survives a rollback. *)
Hypothesis I_rollback : forall s s',
  I s -> I s' -> I (mkState (tables s) (seqs s') (entity_cache s')).

Lemma keeps_transaction {A} (block : M A) : keeps I block -> keeps I (transaction block).
Proof.
  intros Hb s Hs. unfold transaction. specialize (Hb s Hs).
  destruct (block s) as [[a|e] s1]; cbn [snd] in *; [exact Hb|].
  apply I_rollback; assumption.
Qed.

Lemma keeps_encode {A} em text (k : list Z -> M A) :
  (forall v, keeps I (k v)) -> keeps I (bind (encode em text) k).
Proof.
  intros Hk. apply keeps_bind; [|exact Hk].
  unfold encode. destruct (em text); [apply keeps_ret | apply keeps_raise].
Qed.
End Keeps.


Lemma closed_rollback s s' :
  closed s -> closed s' -> closed (mkState (tables s) (seqs s') (entity_cache s')).
Proof. intros H _. exact H. Qed.

Lemma mem_true_iff x l : mem x l = true <-> In x l.
Proof.
  unfold mem. rewrite existsb_exists. split.
  - intros (y & Hy & Heq). apply Nat.eqb_eq in Heq. now subst.
  - intros H. exists x. split; [exact H | apply Nat.eqb_refl].
Qed.

(** Rows that keep every entity id keep the graph closed. *)
Lemma edges_closed_mono t t' :
  (forall id, entity_exists t id = true -> entity_exists t' id = true) ->
  DB.relationships t' = DB.relationships t ->
  edges_closed t -> edges_closed t'.
Proof.
  intros Hent Hrel. unfold edges_closed. rewrite Hrel.
  intros H. eapply Forall_impl; [exact H|].
  intros r [H1 H2]. split; now apply Hent.
Qed.

Lemma keeps_closed_delete file_id : keeps closed (delete_entities_of_file file_id).
Proof.
  intros s Hs. unfold delete_entities_of_file, closed, edges_closed in *.
  cbn [snd tables DB.relationships DB.entities].
  set (dead := cascade_closure _ _ _).
  apply Forall_forall. intros r Hr.
  apply list_elem_of_filter in Hr. destruct Hr as [Hlive Hin]. rewrite Forall_forall in Hs. destruct (Hs r Hin) as [Hf Ht].
  apply orb_false_iff in Hlive. destruct Hlive as [Lf Lt].
  assert (Hkeep : forall id, entity_exists (tables s) id = true -> mem id dead = false ->
            mem id (map EntityRow.id
                      (filter (fun e => mem (EntityRow.id e) dead = false)
                              (DB.entities (tables s)))) = true).
  { intros id Hid Hd. unfold entity_exists in Hid.
    apply mem_true_iff, in_map_iff in Hid. destruct Hid as (e & <- & He).
    apply mem_true_iff, in_map_iff. exists e. split; [reflexivity|].
    apply list_elem_of_In, list_elem_of_filter. split; [exact Hd | now apply list_elem_of_In]. }
  unfold entity_exists. cbn [DB.entities]. split; now apply Hkeep.
Qed.

Lemma keeps_closed_same {A} (m : M A) :
  (forall s, DB.entities (tables (snd (m s))) = DB.entities (tables s)
             /\ DB.relationships (tables (snd (m s))) = DB.relationships (tables s)) ->
  keeps closed m.
Proof.
  intros H s Hs. destruct (H s) as [He Hr]. unfold closed in *.
  apply (edges_closed_mono (tables s)); [|exact Hr|exact Hs].
  intros id. now rewrite (entity_exists_same_entities _ _ id He).
Qed.

Lemma entity_exists_app t t' extra id :
  DB.entities t' = DB.entities t ++ extra ->
  entity_exists t id = true -> entity_exists t' id = true.
Proof.
  unfold entity_exists. intros -> H. apply mem_true_iff. apply mem_true_iff in H.
  rewrite map_app. apply in_or_app. now left.
Qed.

Lemma set_parent_id parent id e : EntityRow.id (set_parent parent id e) = EntityRow.id e.
Proof. unfold set_parent. destruct (EntityRow.id e =? id); reflexivity. Qed.

Lemma keeps_closed_insert_entity file_id entity : keeps closed (_insert_entity file_id entity).
Proof.
  intros s Hs. unfold _insert_entity, insert_entity_row, bind, next_entity_id, get.
  cbn [tables seqs entity_cache].
  destruct (file_exists (tables s) file_id).
  - unfold closed in *. cbn.
    apply (edges_closed_mono (tables s)); [|reflexivity|exact Hs].
    intros id. eapply entity_exists_app. reflexivity.
  - cbn. exact Hs.
Qed.

Lemma keeps_closed_cache_put name id : keeps closed (cache_put name id).
Proof. apply keeps_closed_same. intros s. split; reflexivity. Qed.

Lemma keeps_closed_update_parent parent id : keeps closed (update_parent parent id).
Proof.
  intros s Hs. unfold update_parent, bind, get, set_tables, raise.
  destruct (entity_exists (tables s) id && negb (entity_exists (tables s) parent));
    cbn [snd tables]; [exact Hs|].
  unfold closed in *. cbn [tables].
  apply (edges_closed_mono (tables s)); [|reflexivity|exact Hs].
  intros i. unfold entity_exists. cbn [DB.entities].
  rewrite map_map. erewrite map_ext; [intros H; exact H|].
  intros e. cbn beta. symmetry. apply set_parent_id.
Qed.

Lemma keeps_closed_insert_relationship_row f t rel :
  keeps closed (insert_relationship_row f t rel).
Proof.
  intros s Hs. unfold insert_relationship_row, bind, get, next_relationship_id, set_tables, raise.
  cbn [tables seqs entity_cache].
  destruct (entity_exists (tables s) f) eqn:Hf; cbn [andb]; [|exact Hs].
  destruct (entity_exists (tables s) t) eqn:Ht; cbn [snd]; [|exact Hs].
  unfold closed, edges_closed in *. cbn [tables DB.relationships].
  apply Forall_app. split.
  - eapply Forall_impl; [exact Hs|]. intros r Hr. exact Hr.
  - constructor; [|constructor]. cbn. split; assumption.
Qed.

Lemma keeps_closed_insert_relationship rel entity_map file_id :
  keeps closed (_insert_relationship rel entity_map file_id).
Proof.
  unfold _insert_relationship.
  apply keeps_bind; [apply keeps_get|]. intros s0.
  destruct (String.eqb _ "includes"); [apply keeps_ret|].
  apply keeps_bind.
  - destruct (lookup_name _ _ _); [apply keeps_ret|].
    apply keeps_closed_same. intros s. split; reflexivity.
  - intros to_id. destruct (_ && _); [apply keeps_closed_insert_relationship_row | apply keeps_ret].
Qed.

Lemma keeps_closed_insert_chunk_row eid file_id ty content a b v md :
  keeps closed (insert_chunk_row eid file_id ty content a b v md).
Proof.
  apply keeps_closed_same. intros s.
  unfold insert_chunk_row, bind, get, next_chunk_id, set_tables, raise.
  cbn [tables seqs entity_cache].
  destruct (negb _); [split; reflexivity|].
  destruct (_ && _); split; reflexivity.
Qed.

Lemma keeps_closed_insert_chunk em chunk entity_map file_id :
  keeps closed (_insert_chunk em chunk entity_map file_id).
Proof.
  unfold _insert_chunk. apply keeps_encode. intros v. apply keeps_closed_insert_chunk_row.
Qed.

Lemma keeps_closed_insert_entities file_id ents :
  forall entity_map, keeps closed (insert_entities file_id ents entity_map).
Proof.
  induction ents as [|e ents IH]; intros entity_map; cbn [insert_entities];
    [apply keeps_ret|].
  apply keeps_bind; [apply keeps_closed_insert_entity|]. intros id.
  apply keeps_bind; [apply keeps_closed_cache_put|]. intros _. apply IH.
Qed.

Lemma keeps_closed_resolve_parent entity_map entity :
  keeps closed (resolve_parent entity_map entity).
Proof.
  unfold resolve_parent. destruct (contains_scope _); [|apply keeps_ret].
  destruct (rsplit_scope1 _) as [|p [|q [|]]]; try apply keeps_ret.
  destruct (entity_map !! p); [|apply keeps_ret].
  destruct (entity_map !! _); [apply keeps_closed_update_parent | apply keeps_ret].
Qed.

Lemma keeps_closed_simple_file_indexing em file_id content :
  keeps closed (_simple_file_indexing em file_id content).
Proof.
  unfold _simple_file_indexing. apply keeps_for_each. intros i.
  unfold index_window. destruct (_ <? 50); [apply keeps_ret|].
  apply keeps_encode. intros v. apply keeps_closed_insert_chunk_row.
Qed.

(** Indexing a file, on either path and whatever it raises, leaves no edge
    that references an entity that is not in the store. *)
Lemma index_file_keeps_closed em now file_id content parsed :
  keeps closed (index_file em now file_id content parsed).
Proof.
  unfold index_file. destruct parsed as [[[ents rels] chunks]|];
    [|apply keeps_closed_simple_file_indexing].
  apply keeps_transaction; [exact closed_rollback|].
  apply keeps_bind; [apply keeps_closed_delete|]. intros _.
  apply keeps_bind; [apply keeps_closed_insert_entities|]. intros entity_map.
  apply keeps_bind; [apply keeps_for_each; intros e; apply keeps_closed_resolve_parent|].
  intros _.
  apply keeps_bind;
    [apply keeps_for_each; intros r; apply keeps_closed_insert_relationship|].
  intros _.
  apply keeps_bind; [apply keeps_for_each; intros c; apply keeps_closed_insert_chunk|].
  intros _. apply keeps_closed_same. intros s. split; reflexivity.
Qed.



Lemma only_inherits_rollback R0 s s' :
  only_inherits_added R0 s -> only_inherits_added R0 s' ->
  only_inherits_added R0 (mkState (tables s) (seqs s') (entity_cache s')).
Proof. intros [H _] [_ H']. split; assumption. Qed.

Lemma keeps_added_same R0 {A} (m : M A) :
  (forall s, DB.relationships (tables (snd (m s))) = DB.relationships (tables s)
             /\ entity_cache (snd (m s)) = entity_cache s) ->
  keeps (only_inherits_added R0) m.
Proof.
  intros H s [Hrows Hcache]. destruct (H s) as [Hr Hc].
  split; [rewrite Hr; exact Hrows | rewrite Hc; exact Hcache].
Qed.

Lemma keeps_added_delete R0 file_id :
  keeps (only_inherits_added R0) (delete_entities_of_file file_id).
Proof.
  intros s [Hrows Hcache]. split; [|exact Hcache].
  intros row Hrow. cbn in Hrow. apply Hrows.
  apply list_elem_of_In in Hrow. apply list_elem_of_filter in Hrow.
  apply list_elem_of_In. tauto.
Qed.

Lemma keeps_added_insert_entity R0 file_id entity :
  keeps (only_inherits_added R0) (_insert_entity file_id entity).
Proof.
  apply keeps_added_same. intros s.
  unfold _insert_entity, insert_entity_row, bind, next_entity_id, get.
  cbn [tables seqs entity_cache]. destruct (file_exists (tables s) file_id); split; reflexivity.
Qed.

Lemma keeps_added_cache_put R0 name id :
  name <> "" -> keeps (only_inherits_added R0) (cache_put name id).
Proof.
  intros Hne s [Hrows Hcache]. split; [exact Hrows|].
  cbn. rewrite lookup_insert_ne by exact Hne. exact Hcache.
Qed.

(** The map of the file holds no entity under the empty name when no
    entity of the file has the empty name. *)
Lemma insert_entities_map file_id ents :
  Forall (fun e => Entity.qualified_name e <> "") ents ->
  forall entity_map s em,
    entity_map !! "" = None ->
    fst (insert_entities file_id ents entity_map s) = Ok em ->
    em !! "" = None.
Proof.
  induction 1 as [|e ents He _ IH]; intros entity_map s em Hmap Hok.
  - cbn in Hok. now injection Hok as <-.
  - cbn [insert_entities] in Hok. unfold bind at 1 in Hok.
    destruct (_insert_entity file_id e s) as [[id|err] s1]; [|discriminate Hok].
    unfold bind at 1 in Hok. cbn [cache_put] in Hok.
    eapply IH; [|exact Hok]. rewrite lookup_insert_ne by exact He. exact Hmap.
Qed.

Lemma keeps_added_insert_entities R0 file_id ents :
  Forall (fun e => Entity.qualified_name e <> "") ents ->
  forall entity_map, keeps (only_inherits_added R0) (insert_entities file_id ents entity_map).
Proof.
  induction 1 as [|e ents He _ IH]; intros entity_map; cbn [insert_entities];
    [apply keeps_ret|].
  apply keeps_bind; [apply keeps_added_insert_entity|]. intros id.
  apply keeps_bind; [now apply keeps_added_cache_put|]. intros _. apply IH.
Qed.

Lemma keeps_added_resolve_parent R0 entity_map entity :
  keeps (only_inherits_added R0) (resolve_parent entity_map entity).
Proof.
  apply keeps_added_same. intros s. unfold resolve_parent.
  destruct (contains_scope _); [|split; reflexivity].
  destruct (rsplit_scope1 _) as [|p [|q [|]]]; try (split; reflexivity).
  destruct (entity_map !! p); [|split; reflexivity].
  destruct (entity_map !! _); [|split; reflexivity].
  unfold update_parent, bind, get, set_tables, raise.
  destruct (_ && _); split; reflexivity.
Qed.

(** An edge of the shape that the parser produces adds a row only when it
    is an [inherits] edge. *)
Lemma keeps_added_insert_relationship R0 rel entity_map file_id :
  entity_map !! "" = None ->
  Relationship.relationship_type rel = "inherits" \/ Relationship.from_entity rel = "" ->
  keeps (only_inherits_added R0) (_insert_relationship rel entity_map file_id).
Proof.
  intros Hmap Hshape s [Hrows Hcache].
  pose proof (insert_relationship_cases rel entity_map file_id s) as Hc. cbn zeta in Hc.
  destruct Hc as [[-> _]|(f & t & _ & Ef & _ & _ & _ & _ & _ & _ & Hcache' & Hrow)];
    [split; assumption|].
  split; [|rewrite Hcache'; exact Hcache].
  destruct Hrow as [(_ & _ & Hrel)|(_ & _ & Hrel)]; rewrite Hrel; [|exact Hrows].
  intros row Hrow. apply in_app_or in Hrow. destruct Hrow as [Hold|[<-|[]]]; [now apply Hrows|].
  right. cbn. destruct Hshape as [Hinh|Hfrom]; [exact Hinh|].
  exfalso. unfold resolve_from in Ef. rewrite Hfrom, Hmap, Hcache in Ef. discriminate.
Qed.

Lemma keeps_added_insert_chunk R0 em chunk entity_map file_id :
  keeps (only_inherits_added R0) (_insert_chunk em chunk entity_map file_id).
Proof.
  unfold _insert_chunk. apply keeps_encode. intros v.
  apply keeps_added_same. intros s.
  unfold insert_chunk_row, bind, get, next_chunk_id, set_tables, raise.
  cbn [tables seqs entity_cache].
  destruct (negb _); [split; reflexivity|]. destruct (_ && _); split; reflexivity.
Qed.


(* ===================================================================== *)
(** * The fallback of a failed parse                                       *)
(* ===================================================================== *)

Lemma multiples_beyond step n fuel :
  forall j, n <= step * j ->
            filter (fun i => i < n) (map (fun k => step * k) (seq j fuel)) = [].
Proof.
  induction fuel as [|fuel IH]; intros j Hj; [reflexivity|].
  cbn [seq map]. rewrite filter_cons_False by lia. apply IH. nia.
Qed.

(** [range(start, n, step)] from a multiple of the step is the multiples of
    the step below [n]. *)
Lemma range_up_multiples step n fuel :
  forall j, range_up fuel (step * j) n step
            = filter (fun i => i < n) (map (fun k => step * k) (seq j fuel)).
Proof.
  induction fuel as [|fuel IH]; intros j; [reflexivity|].
  cbn [range_up seq map].
  destruct (step * j <? n) eqn:Hlt.
  - apply Nat.ltb_lt in Hlt. rewrite filter_cons_True by exact Hlt.
    f_equal. replace (step * j + step) with (step * S j) by lia. apply IH.
  - apply Nat.ltb_ge in Hlt. rewrite filter_cons_False by lia.
    symmetry. apply multiples_beyond. nia.
Qed.

Lemma range0_multiples step n :
  range0 n step = filter (fun i => i < n) (map (fun k => step * k) (seq 0 n)).
Proof.
  unfold range0. replace 0 with (step * 0) at 1 by lia. apply range_up_multiples.
Qed.

Lemma lslice_length {A} (l : list A) i :
  i < List.length l ->
  i + List.length (lslice l i (i + 100)) = Nat.min (i + 100) (List.length l).
Proof.
  intros Hi. unfold lslice. rewrite length_take, length_drop. lia.
Qed.


(** One round of the fallback loop: the window is skipped, or stored as
    one chunk, or the round raises and stores nothing. *)
Lemma index_window_step em file_id lines i s :
  (exists k, i = 80 * k) -> i < List.length lines ->
  let r := index_window em file_id lines i s in
  same_graph s (snd r)
  /\ ((window_kept lines i = false /\ fst r = Ok tt
       /\ DB.code_chunks (tables (snd r)) = DB.code_chunks (tables s))
      \/ (window_kept lines i = true /\ fst r = Ok tt
          /\ exists c, DB.code_chunks (tables (snd r)) = DB.code_chunks (tables s) ++ [c]
                       /\ is_window_chunk file_id lines c
                       /\ ChunkRow.start_line c = S i)
      \/ (window_kept lines i = true /\ (exists e, fst r = Raise e)
          /\ (em (window_text lines i) = None
              \/ (exists v, em (window_text lines i) = Some v
                            /\ List.length v <> vector_width)
              \/ file_exists (tables s) file_id = false)
          /\ DB.code_chunks (tables (snd r)) = DB.code_chunks (tables s))).
Proof.
  intros [k Hk] Hi. cbn zeta. unfold index_window, fallback_window.
  change (join nl (lslice lines i (i + 100))) with (window_text lines i).
  unfold window_kept.
  destruct (String.length (strip (window_text lines i)) <? 50) eqn:Hshort.
  { apply Nat.ltb_lt in Hshort.
    split; [repeat split|]. left. split; [apply Nat.leb_gt; exact Hshort|]. split; reflexivity. }
  apply Nat.ltb_ge in Hshort.
  assert (Hkept : (50 <=? String.length (strip (window_text lines i))) = true)
    by (apply Nat.leb_le; exact Hshort).
  rewrite Hkept.
  unfold bind, encode. destruct (em (window_text lines i)) as [v|] eqn:Hem.
  2:{ split; [repeat split|]. right. right. split; [reflexivity|].
      split; [eexists; reflexivity|]. split; [now left | reflexivity]. }
  unfold ret, insert_chunk_row, bind, next_chunk_id, get, set_tables, raise.
  cbn [tables seqs entity_cache].
  destruct (List.length v =? vector_width) eqn:Hw; cbn [negb].
  2:{ apply Nat.eqb_neq in Hw. split; [repeat split|]. right. right.
      split; [reflexivity|]. split; [eexists; reflexivity|].
      split; [right; left; eauto | reflexivity]. }
  cbn [andb]. destruct (file_exists (tables s) file_id) eqn:Hfile.
  2:{ split; [repeat split|]. right. right.
      split; [reflexivity|]. split; [eexists; reflexivity|].
      split; [right; right; reflexivity | reflexivity]. }
  split; [repeat split|]. right. left.
  split; [reflexivity|]. split; [reflexivity|].
  eexists. split; [reflexivity|]. split; [|cbn; lia].
  exists k. subst i. cbn [ChunkRow.content ChunkRow.start_line ChunkRow.end_line
                          ChunkRow.entity_id ChunkRow.file_id ChunkRow.chunk_type
                          ChunkRow.metadata].
  split; [exact Hi|]. split; [exact Hshort|]. split; [reflexivity|].
  split; [lia|]. split; [apply lslice_length; exact Hi|]. repeat split.
Qed.

Lemma same_graph_trans s1 s2 s3 : same_graph s1 s2 -> same_graph s2 s3 -> same_graph s1 s3.
Proof.
  unfold same_graph. intros (A1 & A2 & A3 & A4) (B1 & B2 & B3 & B4).
  repeat split; congruence.
Qed.

(** The loop of the fallback over a list of window starts. *)
Lemma fallback_loop em file_id lines (l : list nat) :
  (forall i, In i l -> (exists k, i = 80 * k) /\ i < List.length lines) ->
  forall s,
    let r := for_each l (index_window em file_id lines) s in
    same_graph s (snd r)
    /\ exists new,
         DB.code_chunks (tables (snd r)) = DB.code_chunks (tables s) ++ new
         /\ Forall (is_window_chunk file_id lines) new
         /\ (fst r = Ok tt ->
             map ChunkRow.start_line new
             = map S (filter (fun i => window_kept lines i = true) l))
         /\ ((forall text, exists v, em text = Some v /\ List.length v = vector_width) ->
             file_exists (tables s) file_id = true -> fst r = Ok tt).
Proof.
  induction l as [|i l IH]; intros Hl s; cbn zeta.
  { cbn [for_each]. split; [repeat split|]. exists []. rewrite app_nil_r.
    repeat split; constructor. }
  destruct (Hl i (or_introl eq_refl)) as [Hmul Hlt].
  pose proof (index_window_step em file_id lines i s Hmul Hlt) as Hstep. cbn zeta in Hstep.
  cbn [for_each].
  assert (Hbind : (index_window em file_id lines i ;;;
                   for_each l (index_window em file_id lines)) s
                  = match index_window em file_id lines i s with
                    | (Ok _, s') => for_each l (index_window em file_id lines) s'
                    | (Raise e, s') => (Raise e, s')
                    end) by reflexivity.
  rewrite Hbind. clear Hbind.
  destruct (index_window em file_id lines i s) as [[[]|e] s1] eqn:Hrun;
    cbn [fst snd] in *.
  - destruct Hstep as [Hsame Hcase].
    specialize (IH (fun j Hj => Hl j (or_intror Hj)) s1). cbn zeta in IH.
    destruct IH as [Hsame' (new & Hnew & Hall & Hok & Htotal)].
    split; [exact (same_graph_trans _ _ _ Hsame Hsame')|].
    assert (Hfile : file_exists (tables s1) file_id = file_exists (tables s) file_id).
    { unfold file_exists. destruct Hsame as [-> _]. reflexivity. }
    destruct Hcase as [(Hk & _ & Hc)|[(Hk & _ & c & Hc & Hwin & Hstart)|(_ & [e He] & _)]];
      [| |discriminate He].
    + exists new. rewrite Hnew, Hc. split; [reflexivity|]. split; [exact Hall|].
      split.
      * intros Hr. rewrite filter_cons_False by congruence. now apply Hok.
      * intros Hem Hf. apply Htotal; [exact Hem | congruence].
    + exists (c :: new). rewrite Hnew, Hc, <- app_assoc. split; [reflexivity|].
      split; [constructor; assumption|]. split.
      * intros Hr. rewrite filter_cons_True by exact Hk. cbn [map].
        rewrite Hstart. f_equal. now apply Hok.
      * intros Hem Hf. apply Htotal; [exact Hem | congruence].
  - destruct Hstep as [Hsame Hcase]. split; [exact Hsame|].
    destruct Hcase as [(_ & He & _)|[(_ & He & _)|(_ & _ & Hwhy & Hc)]]; try discriminate He.
    exists []. rewrite app_nil_r. split; [exact Hc|]. split; [constructor|].
    split; [discriminate|].
    intros Hem Hf. exfalso.
    destruct Hwhy as [Hnone|[(v & Hv & Hlen)|Hnf]].
    + destruct (Hem (window_text lines i)) as (v & Hv & _). congruence.
    + destruct (Hem (window_text lines i)) as (v' & Hv' & Hlen'). congruence.
    + congruence.
Qed.

(** A pass of the fallback over a file: what it leaves and what it adds. *)
Lemma simple_file_indexing_effect em file_id content s :
  let r := _simple_file_indexing em file_id content s in
  let lines := splitlines content in
  same_graph s (snd r)
  /\ exists new,
       DB.code_chunks (tables (snd r)) = DB.code_chunks (tables s) ++ new
       /\ Forall (is_window_chunk file_id lines) new
       /\ (fst r = Ok tt -> map ChunkRow.start_line new = map S (kept_windows lines))
       /\ ((forall text, exists v, em text = Some v /\ List.length v = vector_width) ->
           file_exists (tables s) file_id = true -> fst r = Ok tt).
Proof.
  cbn zeta. unfold _simple_file_indexing.
  set (lines := splitlines content).
  assert (Hl : forall i, In i (range0 (List.length lines) (chunk_size - overlap)) ->
                         (exists k, i = 80 * k) /\ i < List.length lines).
  { intros i Hi. change (chunk_size - overlap) with 80 in Hi.
    rewrite range0_multiples in Hi.
    apply list_elem_of_In, list_elem_of_filter in Hi. destruct Hi as [Hlt Hin].
    apply list_elem_of_In, in_map_iff in Hin. destruct Hin as (k & <- & _).
    split; [now exists k | exact Hlt]. }
  destruct (fallback_loop em file_id lines _ Hl s)
    as [Hsame (new & Hnew & Hall & Hok & Htotal)].
  split; [exact Hsame|].
  exists new. split; [exact Hnew|]. split; [exact Hall|]. split; [|exact Htotal].
  intros Hr. rewrite (Hok Hr). f_equal.
  change (chunk_size - overlap) with 80. rewrite range0_multiples. unfold kept_windows.
  rewrite list_filter_filter. apply list_filter_iff. intros i. tauto.
Qed.

(** C4.  When the parse of a file fails, indexing the file writes no
    entity and no relationship, and every chunk it adds is the chunk of a
    window: windows of 100 lines that start every 80 lines, so that each
    overlaps the next by 20, kept only when the trimmed text has at least 50
    characters.  When nothing raises, the chunks are those of all kept
    windows, in order.  The failed parse is not an error of the indexing:
    with an encoder that answers with vectors of the right width and a file
    row in place, [index_file] ends normally. *)
Theorem parse_failure_stores_only_windows
    (em : Encoder) (now file_id : nat) (content : string) (s : State) :
  let r := index_file em now file_id content None s in
  let lines := splitlines content in
  DB.entities (tables (snd r)) = DB.entities (tables s)
  /\ DB.relationships (tables (snd r)) = DB.relationships (tables s)
  /\ exists new,
       DB.code_chunks (tables (snd r)) = DB.code_chunks (tables s) ++ new
       /\ Forall (is_window_chunk file_id lines) new
       /\ (fst r = Ok tt -> map ChunkRow.start_line new = map S (kept_windows lines))
       /\ ((forall text, exists v, em text = Some v /\ List.length v = vector_width) ->
           file_exists (tables s) file_id = true -> fst r = Ok tt).
Proof.
  cbn zeta.
  change (index_file em now file_id content None s)
    with (_simple_file_indexing em file_id content s).
  destruct (simple_file_indexing_effect em file_id content s)
    as [(_ & Hent & Hrel & _) Hnew].
  split; [exact Hent|]. split; [exact Hrel|]. exact Hnew.
Qed.

(* ===================================================================== *)
(** * Dropped edges                                                        *)
(* ===================================================================== *)

Lemma join_last_nonempty parts x : x <> "" -> join "::" (parts ++ [x]) <> "".
Proof.
  intros Hx. unfold join. induction parts as [|a parts IH]; cbn [app String.concat].
  - exact Hx.
  - destruct (parts ++ [x]) as [|b rest] eqn:Hl.
    + destruct parts; discriminate Hl.
    + intros Heq. destruct a; discriminate Heq.
Qed.

(** The qualified name of an entity ends in its simple name, so an entity
    that has a simple name has a qualified name. *)
Lemma qualified_name_nonempty tree content :
  Forall (fun e => Entity.simple_name e <> "" -> Entity.qualified_name e <> "")
         (extracted_entities tree content).
Proof.
  apply extracted_entities_Forall.
  - intros self node name _ _ Hs. cbn in *. apply join_last_nonempty. exact Hs.
  - intros self pty node name_node _ Hs. cbn in *. apply join_last_nonempty. exact Hs.
  - intros self node name _ Hs. cbn in *. apply join_last_nonempty. exact Hs.
Qed.


(** The small file of the examples: its parse has one [inherits] edge and
    one call edge; indexing stores the first, between the rows of [D] and
    [B], and drops the second, though an entity [g] is there. *)
Example small_file_edges :
  let parsed := parse_cpp_file Examples.edges_tree Examples.edges_source in
  let r := index_file Examples.zero_encoder 0 1 Examples.edges_source parsed
             Examples.one_file_store in
  map (fun rel => (Relationship.from_entity rel, Relationship.to_entity rel,
                   Relationship.relationship_type rel))
      (parsed_relationships parsed)
  = [("D", "B", "inherits"); ("", "g", "calls")]
  /\ map (fun e => (EntityRow.id e, EntityRow.qualified_name e)) (DB.entities (tables (snd r)))
     = [(1, "B"); (2, "D"); (3, "g"); (4, "f")]
  /\ map (fun row => (RelationshipRow.from_entity_id row, RelationshipRow.to_entity_id row,
                      RelationshipRow.relationship_type row))
         (DB.relationships (tables (snd r)))
     = [(2, 1, "inherits")].
Proof. cbn zeta. repeat split; vm_compute; reflexivity. Qed.



(* ===================================================================== *)
(** * Replacing the rows of a file                                         *)
(* ===================================================================== *)

(** On the path of a successful parse the replacement is all or nothing:
    when [index_file] raises, the tables are those from before the call. *)
Lemma index_file_rolls_back em now file_id content p s e :
  fst (index_file em now file_id content (Some p) s) = Raise e ->
  tables (snd (index_file em now file_id content (Some p) s)) = tables s.
Proof.
  unfold index_file. destruct p as [[ents rels] chunks]. unfold transaction.
  destruct (bind _ _ s) as [[a|e'] s1]; cbn [fst snd tables]; [discriminate | reflexivity].
Qed.


(** C3, at the failing input.  The file of [indexed_store] has two
    entities and two chunks from its last indexing.  Its new content does
    not parse and the encoder raises on the second window.  [index_file]
    raises, yet the store is not as before: the chunk of the first window
    has been added; and the rows of the last indexing were not deleted. *)
Theorem fallback_is_not_atomic :
  let s := Examples.indexed_store in
  let r := index_file Examples.flaky_encoder 0 1 Examples.long_content None s in
  fst r = Raise EmbeddingError
  /\ tables (snd r) <> tables s
  /\ chunk_lines_of s 1 = [(1, 1); (1, 1)]
  /\ chunk_lines_of (snd r) 1 = [(1, 1); (1, 1); (1, 90)]
  /\ entities_of_file (tables (snd r)) 1 = entities_of_file (tables s) 1
  /\ List.length (entities_of_file (tables s) 1) = 2.
Proof.
  cbn zeta.
  assert (Hafter : chunk_lines_of
                     (snd (index_file Examples.flaky_encoder 0 1 Examples.long_content None
                             Examples.indexed_store)) 1
                   = [(1, 1); (1, 1); (1, 90)]) by (vm_compute; reflexivity).
  assert (Hbefore : chunk_lines_of Examples.indexed_store 1 = [(1, 1); (1, 1)])
    by (vm_compute; reflexivity).
  split; [vm_compute; reflexivity|]. split.
  { intros Heq. unfold chunk_lines_of in Hafter. rewrite Heq in Hafter.
    fold (chunk_lines_of Examples.indexed_store 1) in Hafter.
    rewrite Hbefore in Hafter. discriminate Hafter. }
  split; [exact Hbefore|]. split; [exact Hafter|].
  split; vm_compute; reflexivity.
Qed.

(** C5, at the failing inputs.  Indexing the same content twice on the
    path of a failed parse does not leave the chunks of the first pass: the
    second pass stores every kept window again, so the file holds as many
    chunks more as there are kept windows. *)
Theorem fallback_reindex_duplicates
    (em : Encoder) (now file_id : nat) (content : string) (s : State)
    (Hem : forall text, exists v, em text = Some v /\ List.length v = vector_width)
    (Hfile : file_exists (tables s) file_id = true) :
  let s1 := snd (index_file em now file_id content None s) in
  let s2 := snd (index_file em now file_id content None s1) in
  List.length (DB.code_chunks (tables s1))
  = List.length (DB.code_chunks (tables s)) + List.length (kept_windows (splitlines content))
  /\ List.length (DB.code_chunks (tables s2))
     = List.length (DB.code_chunks (tables s1))
       + List.length (kept_windows (splitlines content)).
Proof.
  cbn zeta.
  change (index_file em now file_id content None)
    with (_simple_file_indexing em file_id content).
  pose proof (simple_file_indexing_effect em file_id content s) as H1.
  cbn zeta in H1. destruct H1 as ((Hfiles & _) & new1 & Hc1 & _ & Hs1 & Hok1).
  set (r1 := _simple_file_indexing em file_id content s) in *.
  pose proof (simple_file_indexing_effect em file_id content (snd r1)) as H2.
  cbn zeta in H2. destruct H2 as (_ & new2 & Hc2 & _ & Hs2 & Hok2).
  assert (Hfile1 : file_exists (tables (snd r1)) file_id = true).
  { unfold file_exists. rewrite Hfiles. exact Hfile. }
  specialize (Hs1 (Hok1 Hem Hfile)). specialize (Hs2 (Hok2 Hem Hfile1)).
  apply (f_equal (@List.length nat)) in Hs1, Hs2. rewrite !length_map in Hs1, Hs2.
  rewrite Hc2, Hc1, !length_app. lia.
Qed.

(** With the content of 90 lines and an encoder that always answers, the
    file has two chunks after the first fallback indexing and four after the
    second. *)
Lemma fallback_reindex_duplicates_witness :
  let s := Examples.one_file_store in
  let s1 := snd (index_file Examples.zero_encoder 0 1 Examples.long_content None s) in
  let s2 := snd (index_file Examples.zero_encoder 0 1 Examples.long_content None s1) in
  List.length (DB.code_chunks (tables s1)) = 0 + 2
  /\ List.length (DB.code_chunks (tables s2)) = List.length (DB.code_chunks (tables s1)) + 2.
Proof.
  cbn zeta.
  assert (Hk : List.length (kept_windows (splitlines Examples.long_content)) = 2)
    by (vm_compute; reflexivity).
  rewrite <- Hk.
  apply (fallback_reindex_duplicates Examples.zero_encoder 0 1 Examples.long_content
           Examples.one_file_store).
  - intros text. exists (repeat 0%Z vector_width). split; [reflexivity|].
    apply repeat_length.
  - reflexivity.
Defined.

(* ===================================================================== *)
(** * Change detection                                                     *)
(* ===================================================================== *)


Lemma prepare_tasks_paths env batch :
  forall s, map task_path (fst (prepare_tasks env batch s))
            = filter (fun p => readable env p = true) batch.
Proof.
  induction batch as [|p batch IH]; intros s; [reflexivity|].
  cbn [prepare_tasks]. unfold readable at 1.
  destruct (read_text env p) as [content|] eqn:Hr.
  - rewrite filter_cons_True by (unfold readable; now rewrite Hr).
    unfold upsert_file. destruct (lookup_file (tables s) p);
      match goal with
      | |- context [prepare_tasks env batch ?st] =>
          specialize (IH st); destruct (prepare_tasks env batch st) as [tasks s2]
      end; cbn [fst map task_path] in *; now rewrite IH.
  - rewrite filter_cons_False by (unfold readable; rewrite Hr; discriminate).
    apply IH.
Qed.

Lemma gather_paths env tasks :
  forall s, map fst (fst (gather env tasks s)) = map task_path tasks.
Proof.
  induction tasks as [|[[p fid] content] tasks IH]; intros s; [reflexivity|].
  cbn [gather].
  destruct (index_file _ _ _ _ _ s) as [result s1].
  specialize (IH s1). destruct (gather env tasks s1) as [results s2].
  cbn [fst map task_path] in *. now rewrite IH.
Qed.

Lemma run_batches_paths env batches :
  forall s, map fst (fst (run_batches env batches s))
            = concat (map (filter (fun p => readable env p = true)) batches).
Proof.
  induction batches as [|batch batches IH]; intros s; [reflexivity|].
  cbn [run_batches].
  pose proof (prepare_tasks_paths env batch s) as Hp.
  destruct (prepare_tasks env batch s) as [tasks s1]. cbn [fst] in Hp.
  pose proof (gather_paths env tasks s1) as Hg.
  destruct (gather env tasks s1) as [results s2]. cbn [fst] in Hg.
  specialize (IH s2). destruct (run_batches env batches s2) as [more s3].
  cbn [fst map concat] in *. rewrite map_app, Hg, Hp, IH. reflexivity.
Qed.

(** The batches hold the files of the list and no others. *)
Lemma in_batches_of file_paths p :
  In p (concat (batches_of file_paths)) <-> In p file_paths.
Proof.
  unfold batches_of. rewrite range0_multiples. change batch_size with 10.
  rewrite in_concat. split.
  - intros (b & Hb & Hp). apply in_map_iff in Hb. destruct Hb as (i & <- & _).
    unfold lslice in Hp. apply list_elem_of_In in Hp.
    apply list_elem_of_In. eapply subseteq_drop. eapply subseteq_take. exact Hp.
  - intros Hp. apply list_elem_of_In, list_elem_of_lookup in Hp. destruct Hp as [j Hj].
    pose proof (lookup_lt_Some _ _ _ Hj) as Hlt.
    exists (lslice file_paths (10 * (j / 10)) (10 * (j / 10) + 10)). split.
    + apply in_map_iff. exists (10 * (j / 10)). split; [reflexivity|].
      apply list_elem_of_In, list_elem_of_filter.
      pose proof (Nat.div_mod_eq j 10) as Hdm.
      split; [lia|]. apply list_elem_of_In, in_map_iff. exists (j / 10).
      split; [reflexivity|]. apply in_seq.
      pose proof (Nat.Div0.div_le_upper_bound j 10 j). lia.
    + apply list_elem_of_In, list_elem_of_lookup. exists (j - 10 * (j / 10)).
      unfold lslice.
      pose proof (Nat.div_mod_eq j 10) as Hdm.
      pose proof (Nat.mod_upper_bound j 10 ltac:(lia)) as Hmod.
      rewrite lookup_take_lt by lia. rewrite lookup_drop.
      replace (10 * (j / 10) + (j - 10 * (j / 10))) with j by lia. exact Hj.
Qed.

Lemma batch_index_files_paths env file_paths s p :
  In p (map fst (fst (batch_index_files env file_paths s)))
  <-> In p file_paths /\ readable env p = true.
Proof.
  unfold batch_index_files. rewrite run_batches_paths.
  fold (batches_of file_paths).
  rewrite in_concat. split.
  - intros (b & Hb & Hp). apply in_map_iff in Hb. destruct Hb as (batch & <- & Hbatch).
    apply list_elem_of_In, list_elem_of_filter in Hp. destruct Hp as [Hr Hp].
    split; [|exact Hr]. apply in_batches_of, in_concat.
    exists batch. split; [exact Hbatch | now apply list_elem_of_In].
  - intros [Hp Hr]. apply in_batches_of, in_concat in Hp. destruct Hp as (batch & Hbatch & Hp).
    exists (filter (fun p => readable env p = true) batch).
    split; [now apply in_map|].
    apply list_elem_of_In, list_elem_of_filter. split; [exact Hr | now apply list_elem_of_In].
Qed.

(** C6, the claim as stated, fails.  In [commented_store] the row of
    [c.cpp] holds the hash that the file has now, and a cycle of change
    detection skips the file.  [initial_indexing], which looks at no row,
    indexes it all the same: the file is parsed and extracted again, and
    its two entities, stored under the ids 1 and 2, are replaced by rows
    with the ids 3 and 4. *)
Lemma initial_indexing_indexes_an_unchanged_file :
  let env := MoreExamples.commented_env in
  let s := MoreExamples.commented_store in
  holds_hash "c.cpp" (file_hash env "c.cpp") s
  /\ is_changed env (tables s) "c.cpp" = false
  /\ fst (check_for_changes env ["c.cpp"] s) = []
  /\ fst (initial_indexing env ["c.cpp"] s) = [("c.cpp", Ok tt)]
  /\ map EntityRow.id (DB.entities (tables s)) = [1; 2]
  /\ map EntityRow.id (DB.entities (tables (snd (initial_indexing env ["c.cpp"] s))))
     = [3; 4].
Proof.
  cbn zeta. split.
  - eexists. split; vm_compute; reflexivity.
  - repeat split; vm_compute; reflexivity.
Qed.

(** C6, as amended.  In a cycle of change detection a file is indexed
    exactly when the walk meets it, it has no row or its row holds another
    hash than [calculate_file_hash] gives for the file now, and it can be
    read.  So such a cycle indexes a file only if it is new or its hash
    differs, and it skips a file whose stored hash equals that hash. *)
Theorem unchanged_files_are_skipped (env : Env) (candidates : list string) (s : State) :
  let indexed := map fst (fst (check_for_changes env candidates s)) in
  (forall p, In p indexed <->
             In p candidates /\ readable env p = true
             /\ (lookup_file (tables s) p = None
                 \/ exists row, lookup_file (tables s) p = Some row
                                /\ FileRow.content_hash row <> file_hash env p))
  /\ (forall p row, lookup_file (tables s) p = Some row ->
                    FileRow.content_hash row = file_hash env p ->
                    ~ In p indexed).
Proof.
  cbn zeta.
  assert (Hchanged : forall p,
    is_changed env (tables s) p = true <->
    (lookup_file (tables s) p = None
     \/ exists row, lookup_file (tables s) p = Some row
                    /\ FileRow.content_hash row <> file_hash env p)).
  { intros p. unfold is_changed. destruct (lookup_file (tables s) p) as [row|].
    - rewrite negb_true_iff, String.eqb_neq. split.
      + intros H. right. exists row. split; [reflexivity | exact H].
      + intros [H|(row' & [= <-] & H)]; [discriminate | exact H].
    - split; [now left | reflexivity]. }
  assert (Hiff : forall p,
    In p (map fst (fst (check_for_changes env candidates s))) <->
    In p candidates /\ readable env p = true /\ is_changed env (tables s) p = true).
  { intros p. unfold check_for_changes.
    destruct (filter _ candidates) as [|c changed] eqn:Hf.
    - cbn [fst map]. split; [intros []|]. intros (Hp & _ & Hc).
      assert (Hin : p ∈ filter (fun p => is_changed env (tables s) p = true) candidates)
        by (apply list_elem_of_filter; split; [exact Hc | now apply list_elem_of_In]).
      rewrite Hf in Hin. inversion Hin.
    - rewrite batch_index_files_paths, <- Hf.
      rewrite <- list_elem_of_In, list_elem_of_filter, list_elem_of_In. tauto. }
  split.
  - intros p. rewrite Hiff, Hchanged. reflexivity.
  - intros p row Hrow Hhash Hin. apply Hiff in Hin. destruct Hin as (_ & _ & Hc).
    apply Hchanged in Hc. destruct Hc as [Hnone|(row' & Hrow' & Hne)]; congruence.
Qed.

(* ===================================================================== *)
(** * Symbol lookup                                                        *)
(* ===================================================================== *)

#[global] Instance usage_le_trans : Transitive usage_le.
Proof.
  intros u v w [Huv Luv] [Hvw Lvw]. split.
  - etransitivity; eassumption.
  - intros Heq.
    assert (Hv : Usage.file u = Usage.file v).
    { apply (anti_symm String.le); [exact Huv|]. rewrite Heq. exact Hvw. }
    specialize (Luv Hv). rewrite Hv in Heq. specialize (Lvw Heq). lia.
Qed.

#[global] Instance usage_le_total : Total usage_le.
Proof.
  intros u v. unfold usage_le.
  destruct (decide (Usage.file u = Usage.file v)) as [Heq|Hne].
  - rewrite Heq. destruct (Nat.le_ge_cases (Usage.line u) (Usage.line v)).
    + left. split; [reflexivity | auto].
    + right. split; [reflexivity | auto].
  - destruct (total String.le (Usage.file u) (Usage.file v)).
    + left. split; [assumption | intros; contradiction].
    + right. split; [assumption | intros Heq; symmetry in Heq; contradiction].
Qed.

Lemma StronglySorted_take {A} (R : relation A) n l :
  StronglySorted R l -> StronglySorted R (take n l).
Proof.
  intros H. revert n. induction H as [|x l Hl IH Hx]; intros [|n]; cbn; try constructor.
  - apply IH.
  - now apply Forall_take.
Qed.

(** The usages of a lookup: at most [max_usages] of the edges that arrive
    at the entity, ordered by file path and then by line number. *)
Lemma incoming_usages_sorted t entity_id max_usages :
  StronglySorted usage_le (incoming_usages t entity_id max_usages)
  /\ List.length (incoming_usages t entity_id max_usages) <= max_usages
  /\ forall u, In u (incoming_usages t entity_id max_usages) ->
       exists r, In r (DB.relationships t)
                 /\ RelationshipRow.to_entity_id r = entity_id
                 /\ usage_of t r = Some u.
Proof.
  unfold incoming_usages. split; [|split].
  - apply StronglySorted_take. apply StronglySorted_merge_sort; apply _.
  - rewrite length_take. lia.
  - intros u Hu. apply list_elem_of_In in Hu. apply subseteq_take in Hu.
    rewrite merge_sort_Permutation in Hu.
    apply list_elem_of_omap in Hu. destruct Hu as (r & Hr & Hu).
    apply list_elem_of_filter in Hr. destruct Hr as [Hto Hr].
    exists r. split; [now apply list_elem_of_In | split; assumption].
Qed.

#[global] Instance chunk_le_trans : Transitive chunk_le.
Proof. intros a b c. unfold chunk_le. lia. Qed.

#[global] Instance chunk_le_total : Total chunk_le.
Proof. intros a b. unfold chunk_le. lia. Qed.

(** The stored code of an entity: the content of the chunk of the entity
    that starts first. *)
Lemma entity_code_first_chunk t entity_id :
  match entity_code t entity_id with
  | Some code =>
      exists c, In c (DB.code_chunks t)
                /\ ChunkRow.entity_id c = Some entity_id
                /\ ChunkRow.content c = code
                /\ forall c', In c' (DB.code_chunks t) ->
                              ChunkRow.entity_id c' = Some entity_id ->
                              ChunkRow.start_line c <= ChunkRow.start_line c'
  | None => forall c, In c (DB.code_chunks t) -> ChunkRow.entity_id c <> Some entity_id
  end.
Proof.
  unfold entity_code.
  set (own := filter (fun c => ChunkRow.entity_id c = Some entity_id) (DB.code_chunks t)).
  pose proof (merge_sort_Permutation chunk_le own) as Hperm.
  pose proof (StronglySorted_merge_sort chunk_le own) as Hsorted.
  assert (Hown : forall c, c ∈ own <-> In c (DB.code_chunks t)
                                      /\ ChunkRow.entity_id c = Some entity_id).
  { intros c. unfold own. rewrite list_elem_of_filter, list_elem_of_In. tauto. }
  destruct (merge_sort chunk_le own) as [|c sorted]; cbn [head option_map].
  - intros c Hc Hid. apply Permutation_nil in Hperm.
    assert (Hin : c ∈ own) by (apply Hown; split; assumption).
    rewrite Hperm in Hin. inversion Hin.
  - assert (Hc : c ∈ own) by (rewrite <- Hperm; left).
    apply Hown in Hc. destruct Hc as [Hc Hid].
    exists c. split; [exact Hc|]. split; [exact Hid|]. split; [reflexivity|].
    intros c' Hc' Hid'.
    assert (Hin : c' ∈ c :: sorted) by (rewrite Hperm; apply Hown; split; assumption).
    apply StronglySorted_inv in Hsorted. destruct Hsorted as [_ Hall].
    apply elem_of_cons in Hin. destruct Hin as [->|Hin]; [unfold chunk_le; lia|].
    rewrite Forall_forall in Hall. exact (Hall c' Hin).
Qed.

(** What the lookup does for every store.  The candidates are the entities
    whose qualified name contains the symbol (as LIKE reads it) or whose
    simple name is the symbol.  Without a candidate the lookup answers
    "not found".  Otherwise the primary result is the candidate that the
    store holds first; the answer carries its stored code, the chunk of the
    entity that starts first, and, when usages are asked for, the first
    [max_usages] of all the edges that arrive at the entity, once these are
    ordered by file path and then by line number. *)
Lemma find_symbol_answer
    (t : DB.Tables) (symbol : string) (include_usages : bool) (max_usages : nat) :
  let matching :=
    filter (fun ef => symbol_matches symbol (fst ef) = true) (entities_with_file t) in
  (matching = [] /\ find_symbol t symbol include_usages max_usages = None)
  \/ exists entity file_path rest r,
       matching = (entity, file_path) :: rest
       /\ find_symbol t symbol include_usages max_usages = Some r
       /\ SymbolResult.symbol r = EntityRow.qualified_name entity
       /\ SymbolResult.file r = file_path
       /\ match SymbolResult.code r with
          | Some code =>
              exists c, In c (DB.code_chunks t)
                        /\ ChunkRow.entity_id c = Some (EntityRow.id entity)
                        /\ ChunkRow.content c = code
                        /\ forall c', In c' (DB.code_chunks t) ->
                                      ChunkRow.entity_id c' = Some (EntityRow.id entity) ->
                                      ChunkRow.start_line c <= ChunkRow.start_line c'
          | None => forall c, In c (DB.code_chunks t) ->
                              ChunkRow.entity_id c <> Some (EntityRow.id entity)
          end
       /\ match SymbolResult.usages r with
          | Some usages =>
              include_usages = true
              /\ exists arriving,
                   arriving ≡ₚ omap (usage_of t)
                                 (filter (fun row => RelationshipRow.to_entity_id row
                                                     = EntityRow.id entity)
                                         (DB.relationships t))
                   /\ StronglySorted usage_le arriving
                   /\ usages = take max_usages arriving
          | None => include_usages = false
          end.
Proof.
  cbn zeta. unfold find_symbol, symbol_candidates.
  destruct (filter _ (entities_with_file t)) as [|[entity file_path] rest]; [now left|].
  right. cbn [take].
  eexists entity, file_path, rest, _. split; [reflexivity|]. split; [reflexivity|].
  cbn [SymbolResult.symbol SymbolResult.file SymbolResult.code SymbolResult.usages].
  do 2 (split; [reflexivity|]).
  split; [apply entity_code_first_chunk|].
  destruct include_usages; [|reflexivity].
  split; [reflexivity|]. unfold incoming_usages.
  eexists. split; [apply (merge_sort_Permutation usage_le)|].
  split; [apply StronglySorted_merge_sort; apply _ | reflexivity].
Qed.

(** C9, at the failing input: the store [derived_store] and the symbol
    [Base] with two usages asked for.  Both [ns::Basement] and [Base] match
    the symbol, and ranking by containment in the qualified name and then
    by equality of the simple name puts [Base] on top.  The lookup answers
    with [ns::Basement], the row that the store holds first, with its code
    and with two of the three edges that arrive at it, ordered by file path
    and then by line number; [Base] is listed among the other matches.
    With the same rows stored in the other order the answer is [Base].
    With room for ten usages all three edges are listed, in that order. *)
Theorem find_symbol_ignores_ranking :
  find_symbol MoreExamples.derived_store "Base" true 2
  = Some (SymbolResult.mk "ns::Basement" "class" (Some "class Basement") "a.cpp" (1, 1) 0
            (Some "class Basement {};")
            (Some [Usage.mk "Z" "class" "a.cpp" 5 "inherits" "class Z : Basement";
                   Usage.mk "X" "class" "a.cpp" 9 "inherits" "class X : Basement"])
            [("Base", "a.cpp")])
  /\ option_map (fun ef => EntityRow.qualified_name (fst ef))
                (top_ranked MoreExamples.derived_store "Base") = Some "Base"
  /\ option_map SymbolResult.symbol
                (find_symbol MoreExamples.derived_store_swapped "Base" true 2) = Some "Base"
  /\ option_map SymbolResult.usages (find_symbol MoreExamples.derived_store "Base" true 10)
     = Some (Some [Usage.mk "Z" "class" "a.cpp" 5 "inherits" "class Z : Basement";
                   Usage.mk "X" "class" "a.cpp" 9 "inherits" "class X : Basement";
                   Usage.mk "Y" "class" "b.cpp" 3 "inherits" "class Y : Basement"])
  /\ option_map SymbolResult.usages (find_symbol MoreExamples.derived_store "Base" false 10)
     = Some None.
Proof. repeat split; vm_compute; reflexivity. Qed.

(* ===================================================================== *)
(** * Further properties of the parser                                     *)
(* ===================================================================== *)

Lemma chunk_type_of_not_comment e : chunk_type_of e <> "comment_block".
Proof.
  unfold chunk_type_of.
  destruct (_ && _); [discriminate|].
  destruct (String.eqb _ _); [discriminate|].
  destruct (str_in _ _); discriminate.
Qed.

Lemma entity_chunk_is_entity_chunk lines e :
  is_entity_chunk lines e (entity_chunk e (lines_of_entity lines e)).
Proof.
  unfold is_entity_chunk, entity_chunk.
  destruct (100 <? List.length (lines_of_entity lines e)) eqn:Hlong.
  - apply Nat.ltb_lt in Hlong. cbn. split; [reflexivity|]. split; [reflexivity|].
    split; [apply chunk_type_of_not_comment|].
    right. split; [exact Hlong|]. split; [|split; reflexivity].
    exists (take 100 (lines_of_entity lines e)). split; [reflexivity|].
    split; [rewrite length_take; lia | apply prefix_take].
  - apply Nat.ltb_ge in Hlong. cbn. split; [reflexivity|]. split; [reflexivity|].
    split; [apply chunk_type_of_not_comment|].
    left. repeat split. exact Hlong.
Qed.

Lemma range_down_step start stop :
  (stop < start)%Z -> range_down start stop = start :: range_down (start - 1) stop.
Proof.
  intros Hlt. unfold range_down.
  replace (Z.to_nat (start - stop)) with (S (Z.to_nat (start - 1 - stop))) by lia.
  cbn [seq map]. f_equal; [lia|].
  rewrite <- seq_shift, map_map. apply map_ext. intros k. lia.
Qed.

(** The scan over the lines [a], ..., [a + length window - 1], which hold
    [window]: it ends normally, and it adds to what it holds the comment
    lines of the longest run of comment lines and blank lines at the end
    of [window]. *)
Lemma scan_comments_window lines a window :
  (forall j, j < List.length window -> lines !! (a + j) = window !! j) ->
  forall acc,
    exists skipped run,
      window = skipped ++ run
      /\ Forall (fun raw => is_comment_line raw = true \/ is_blank_line raw = true) run
      /\ (forall raw, last skipped = Some raw ->
                      is_comment_line raw = false /\ is_blank_line raw = false)
      /\ scan_comments lines
           (range_down (Z.of_nat (a + List.length window) - 1) (Z.of_nat a - 1)) acc
         = Some (filter (fun raw => is_comment_line raw = true) run ++ acc).
Proof.
  induction window as [|raw window IH] using rev_ind; intros Hlines acc.
  - exists [], []. cbn [List.length]. unfold range_down.
    replace (Z.to_nat _) with 0 by lia.
    repeat split; [constructor | discriminate | discriminate].
  - rewrite length_app in *. cbn [List.length] in *.
    rewrite range_down_step by lia. cbn [scan_comments].
    replace (Z.to_nat (Z.of_nat (a + (List.length window + 1)) - 1))
      with (a + List.length window) by lia.
    rewrite (Hlines (List.length window)) by lia.
    rewrite lookup_app_r, Nat.sub_diag by lia. cbn [lookup list_lookup].
    replace (Z.of_nat (a + (List.length window + 1)) - 1 - 1)%Z
      with (Z.of_nat (a + List.length window) - 1)%Z by lia.
    assert (Hwindow : forall j, j < List.length window -> lines !! (a + j) = window !! j).
    { intros j Hj. rewrite (Hlines j) by lia. apply lookup_app_l. exact Hj. }
    fold (is_comment_line raw).
    destruct (is_comment_line raw) eqn:Hcomment.
    + destruct (IH Hwindow (raw :: acc)) as (skipped & run & -> & Hrun & Hlast & ->).
      exists skipped, (run ++ [raw]). rewrite app_assoc. split; [reflexivity|].
      split; [apply Forall_app; split; [exact Hrun | constructor; [now left | constructor]]|].
      split; [exact Hlast|].
      rewrite filter_app, filter_cons_True, filter_nil by exact Hcomment.
      rewrite <- app_assoc. reflexivity.
    + fold (is_blank_line raw). destruct (is_blank_line raw) eqn:Hblank.
      * destruct (IH Hwindow acc) as (skipped & run & -> & Hrun & Hlast & ->).
        exists skipped, (run ++ [raw]). rewrite app_assoc. split; [reflexivity|].
        split; [apply Forall_app; split; [exact Hrun | constructor; [now right | constructor]]|].
        split; [exact Hlast|].
        rewrite filter_app, filter_cons_False, filter_nil, app_nil_r
          by (rewrite Hcomment; discriminate).
        reflexivity.
      * exists (window ++ [raw]), []. rewrite app_nil_r. split; [reflexivity|].
        split; [constructor|]. split; [|reflexivity].
        intros raw'. rewrite last_snoc. intros [= <-]. split; assumption.
Qed.

(** The comment block above a line is determined by the lines. *)
Lemma comment_block_above_unique lines start_line comment_lines comment_lines' :
  comment_block_above lines start_line comment_lines ->
  comment_block_above lines start_line comment_lines' ->
  comment_lines = comment_lines'.
Proof.
  assert (Hside : forall (skipped run skipped' run' : list string),
             skipped ++ run = skipped' ++ run' ->
             Forall (fun raw => is_comment_line raw = true \/ is_blank_line raw = true) run' ->
             (forall raw, last skipped = Some raw ->
                          is_comment_line raw = false /\ is_blank_line raw = false) ->
             forall extra, skipped = skipped' ++ extra -> extra = []).
  { intros skipped run skipped' run' Heq Hrun' Hlast extra ->.
    destruct extra as [|raw extra _] using rev_ind; [reflexivity|]. exfalso.
    rewrite <- !app_assoc in Heq. apply app_inv_head in Heq. subst run'.
    rewrite !Forall_app, Forall_cons in Hrun'. destruct Hrun' as [_ [[Hraw _] _]].
    destruct (Hlast raw) as [Hc Hb]; [rewrite app_assoc; apply last_snoc|].
    rewrite Hc, Hb in Hraw. destruct Hraw as [Hraw|Hraw]; discriminate Hraw. }
  intros (skipped & run & Heq & Hrun & Hlast & ->) (skipped' & run' & Heq' & Hrun' & Hlast' & ->).
  rewrite Heq in Heq'. f_equal.
  destruct (app_eq_app _ _ _ _ Heq') as [extra [[Hs Hr]|[Hs Hr]]].
  - rewrite (Hside _ _ _ _ Heq' Hrun' Hlast extra Hs) in Hr. symmetry. exact Hr.
  - rewrite (Hside _ _ _ _ (eq_sym Heq') Hrun Hlast' extra Hs) in Hr. exact Hr.
Qed.

(** The chunks of one entity: none when it starts past the end of the
    content, else its chunk, followed by its comment chunk when the comment
    block above it has more than two lines. *)
Lemma chunks_of_entity_cases lines e :
  (starts_past_end lines e /\ chunks_of_entity lines e = None)
  \/ (~ starts_past_end lines e
      /\ exists cs, chunks_of_entity lines e = Some cs /\ are_chunks_of lines e cs).
Proof.
  unfold chunks_of_entity, starts_past_end, are_chunks_of.
  fold (lines_of_entity lines e).
  destruct (1 <? Entity.start_line e) eqn:Hstart.
  2:{ apply Nat.ltb_ge in Hstart. right. split; [lia|].
      eexists. split; [reflexivity|]. eexists _, [], [].
      split; [reflexivity|]. split; [apply entity_chunk_is_entity_chunk|].
      split; [|left; split; [cbn; lia | reflexivity]].
      exists [], []. unfold lslice.
      replace (Entity.start_line e - 1 - (Entity.start_line e - 19)) with 0 by lia.
      repeat split; [constructor | discriminate | discriminate]. }
  apply Nat.ltb_lt in Hstart.
  set (first := (Z.of_nat (Entity.start_line e) - 2)%Z).
  set (stop := Z.max (-1) (Z.of_nat (Entity.start_line e) - 20)).
  destruct (Nat.le_gt_cases (List.length lines + 2) (Entity.start_line e)) as [Hpast|Hin].
  - left. split; [lia|].
    rewrite (range_down_step first stop) by (unfold first, stop; lia).
    cbn [scan_comments].
    rewrite (lookup_ge_None_2 lines (Z.to_nat first)) by (unfold first; lia).
    reflexivity.
  - right. split; [lia|].
    set (a := Entity.start_line e - 19).
    set (window := lslice lines a (Entity.start_line e - 1)).
    assert (Hlen : List.length window = Entity.start_line e - 1 - a).
    { unfold window, lslice. rewrite length_take, length_drop. lia. }
    destruct (scan_comments_window lines a window) with (acc := @nil string)
      as (skipped & run & Hwindow & Hrun & Hlast & Hscan).
    { intros j Hj. unfold window, lslice. rewrite lookup_take_lt by lia.
      rewrite lookup_drop. reflexivity. }
    replace (Z.of_nat (a + List.length window) - 1)%Z with first in Hscan
      by (unfold first, a in *; lia).
    replace (Z.of_nat a - 1)%Z with stop in Hscan by (unfold stop, a; lia).
    rewrite Hscan, app_nil_r.
    set (comment_lines := filter (fun raw => is_comment_line raw = true) run).
    assert (Hblock : comment_block_above lines (Entity.start_line e) comment_lines).
    { exists skipped, run. repeat split; try assumption; apply Hlast; assumption. }
    destruct (2 <? List.length comment_lines) eqn:Hmany.
    + apply Nat.ltb_lt in Hmany. eexists. split; [reflexivity|].
      eexists _, [_], comment_lines. split; [reflexivity|].
      split; [apply entity_chunk_is_entity_chunk|]. split; [exact Hblock|].
      right. split; [exact Hmany|]. eexists. split; [reflexivity|].
      unfold is_comment_chunk, comment_chunk. cbn. repeat split.
      exists comment_lines. repeat split; assumption.
    + apply Nat.ltb_ge in Hmany. eexists. split; [reflexivity|].
      eexists _, [], comment_lines. split; [reflexivity|].
      split; [apply entity_chunk_is_entity_chunk|]. split; [exact Hblock|].
      left. split; [exact Hmany | reflexivity].
Qed.

Lemma create_chunks_from_cases lines ents :
  forall acc,
    (Exists (starts_past_end lines) ents /\ _create_chunks_from lines ents acc = None)
    \/ (Forall (fun e => ~ starts_past_end lines e) ents
        /\ exists css,
             _create_chunks_from lines ents acc = Some (acc ++ concat css)
             /\ Forall2 (are_chunks_of lines) ents css).
Proof.
  induction ents as [|e ents IH]; intros acc; cbn [_create_chunks_from].
  - right. split; [constructor|]. exists []. cbn. rewrite app_nil_r. split; [reflexivity|constructor].
  - destruct (chunks_of_entity_cases lines e) as [[Hpast ->]|(Hok & cs & -> & Hcs)].
    + left. split; [now left | reflexivity].
    + destruct (IH (acc ++ cs)) as [[Hex ->]|(Hall & css & -> & Hcss)].
      * left. split; [now right | reflexivity].
      * right. split; [now constructor|]. exists (cs :: css).
        cbn [concat]. rewrite <- app_assoc. split; [reflexivity|].
        constructor; [exact Hcs | exact Hcss].
Qed.

Lemma chunk_groups_cover lines ents css :
  Forall2 (are_chunks_of lines) ents css ->
  map CodeChunk.entity_name
      (filter (fun c => CodeChunk.chunk_type c <> "comment_block") (concat css))
  = map (fun e => Some (Entity.qualified_name e)) ents
  /\ Forall (fun e => exists c, In c (concat css) /\ is_entity_chunk lines e c) ents
  /\ Forall (fun e => exists comment_lines,
                        comment_block_above lines (Entity.start_line e) comment_lines
                        /\ (2 < List.length comment_lines
                            <-> exists c, In c (concat css) /\ is_comment_chunk lines e c))
            ents
  /\ Forall (fun c => exists e, In e ents
                                /\ (is_entity_chunk lines e c \/ is_comment_chunk lines e c))
            (concat css).
Proof.
  induction 1
    as [|e cs ents css (main & rest & comment_lines & -> & Hmain & Hblock & Hrest) _
          (IH1 & IH2 & IH3 & IH4)];
    [repeat split; constructor|].
  cbn [concat]. split; [|split; [|split]].
  - rewrite <- app_comm_cons, filter_cons_True by apply Hmain.
    rewrite filter_app. cbn [map]. rewrite map_app, IH1. f_equal; [apply Hmain|].
    destruct Hrest as [[_ ->]|(_ & c & -> & Hc)]; [reflexivity|].
    rewrite filter_cons_False; [reflexivity|].
    intros Hne. apply Hne. apply Hc.
  - constructor.
    + exists main. split; [now left | exact Hmain].
    + eapply Forall_impl; [exact IH2|]. intros e' (c & Hc & He').
      exists c. split; [|exact He']. apply in_or_app. now right.
  - constructor.
    + exists comment_lines. split; [exact Hblock|]. split.
      * intros Hmany. destruct Hrest as [[Hfew _]|(_ & c & -> & Hc)]; [lia|].
        exists c. split; [right; left; reflexivity | exact Hc].
      * intros (c & _ & _ & _ & _ & _ & comment_lines' & Hblock' & Hmany & _).
        rewrite (comment_block_above_unique _ _ _ _ Hblock Hblock'). exact Hmany.
    + eapply Forall_impl; [exact IH3|]. intros e' (comment_lines' & Hblock' & Hiff).
      exists comment_lines'. split; [exact Hblock'|]. split.
      * intros Hmany. apply Hiff in Hmany. destruct Hmany as (c & Hc & He').
        exists c. split; [|exact He']. apply in_or_app. now right.
      * intros (c & _ & _ & _ & _ & _ & comment_lines'' & Hblock'' & Hmany & _).
        rewrite (comment_block_above_unique _ _ _ _ Hblock' Hblock''). exact Hmany.
  - apply Forall_app. split.
    + constructor; [exists e; split; [now left | now left]|].
      destruct Hrest as [[_ ->]|(_ & c & -> & Hc)]; [constructor|].
      constructor; [|constructor]. exists e. split; [now left | now right].
    + eapply Forall_impl; [exact IH4|]. intros c (e' & He' & Hc).
      exists e'. split; [now right | exact Hc].
Qed.

(** X1.  The chunks that a parse returns follow its entities: leaving out
    the comment chunks, there is one chunk per entity, in the order of the
    entities.  The chunk of an entity holds the lines of the entity, or, for
    an entity of more than 100 lines, its first 100 lines, with
    [end_line = start_line + 100] and the metadata [truncated] and
    [original_end].  An entity has a comment chunk exactly when the comment
    block above it has more than two lines: the comment lines of the run of
    comment lines and blank lines that ends at the line before the entity,
    of which at most 18 lines are read.  The comment chunk holds these
    lines and then the first 200 characters of the code of the entity.
    There is no other chunk. *)
Theorem parsed_chunks_follow_entities self tree content ents rels chunks :
  parse_file self tree content = Some (ents, rels, chunks) ->
  let lines := splitlines content in
  map CodeChunk.entity_name
      (filter (fun c => CodeChunk.chunk_type c <> "comment_block") chunks)
  = map (fun e => Some (Entity.qualified_name e)) ents
  /\ Forall (fun e => exists c, In c chunks /\ is_entity_chunk lines e c) ents
  /\ Forall (fun e => exists comment_lines,
                        comment_block_above lines (Entity.start_line e) comment_lines
                        /\ (2 < List.length comment_lines
                            <-> exists c, In c chunks /\ is_comment_chunk lines e c))
            ents
  /\ Forall (fun c => exists e, In e ents
                                /\ (is_entity_chunk lines e c \/ is_comment_chunk lines e c))
            chunks.
Proof.
  intros Hparse. cbn zeta. unfold parse_file, _create_chunks in Hparse.
  set (found := entities _) in Hparse.
  destruct (create_chunks_from_cases (splitlines content) found [])
    as [[_ Hnone]|(_ & css & Hsome & Hcss)]; rewrite ?Hnone, ?Hsome in Hparse;
    [discriminate|].
  injection Hparse as <- _ <-. cbn [app]. apply chunk_groups_cover. exact Hcss.
Qed.

(** The parse of the file of six lines, with three comment lines and a
    blank line above [g]: the chunk of [g], its comment chunk, and the
    chunk of [f]. *)
Lemma parsed_chunks_follow_entities_witness :
  exists ents rels chunks,
    parse_file (mkParser [] None [] []) MoreExamples.commented_tree
               MoreExamples.commented_source
    = Some (ents, rels, chunks)
    /\ map Entity.qualified_name ents = ["g"; "f"]
    /\ map (fun c => (CodeChunk.entity_name c, CodeChunk.chunk_type c,
                      CodeChunk.start_line c, CodeChunk.end_line c)) chunks
       = [(Some "g", "implementation", 5, 5); (Some "g", "comment_block", 2, 5);
          (Some "f", "implementation", 6, 6)]
    /\ map CodeChunk.entity_name
           (filter (fun c => CodeChunk.chunk_type c <> "comment_block") chunks)
       = map (fun e => Some (Entity.qualified_name e)) ents.
Proof.
  destruct (parse_file (mkParser [] None [] []) MoreExamples.commented_tree
              MoreExamples.commented_source)
    as [[[ents rels] chunks]|] eqn:Hparse; [|vm_compute in Hparse; discriminate].
  exists ents, rels, chunks. split; [reflexivity|]. split; [|split].
  - vm_compute in Hparse. injection Hparse as <- _ _. reflexivity.
  - vm_compute in Hparse. injection Hparse as _ _ <-. reflexivity.
  - apply (parsed_chunks_follow_entities (mkParser [] None [] [])
             MoreExamples.commented_tree MoreExamples.commented_source
             ents rels chunks Hparse).
Defined.

(** X2.  [_create_chunks] raises, with the [IndexError] of [lines[i]],
    exactly when one of the entities it is given starts two lines or more
    past the last line of the content: the scan for comments above the
    entity then begins at a line that does not exist.  Nothing else in it
    can raise. *)
Theorem chunking_raises_iff_an_entity_starts_past_the_end ents content :
  _create_chunks ents content = None
  <-> Exists (starts_past_end (splitlines content)) ents.
Proof.
  unfold _create_chunks.
  destruct (create_chunks_from_cases (splitlines content) ents [])
    as [[Hex ->]|(Hall & css & -> & _)].
  - split; [intros _; exact Hex | reflexivity].
  - split; [discriminate|]. intros Hex. exfalso.
    apply Exists_exists in Hex. destruct Hex as (e & He & Hpast).
    rewrite Forall_forall in Hall. exact (Hall e He Hpast).
Qed.

(** X3.  A function whose name is held by a [field_identifier] or
    [qualified_identifier] node without children yields no entity: the name
    is looked for among the children of that node. *)
Theorem function_named_by_a_leaf_is_skipped
    content pty (node declarator name_node : Node.t) self :
  Node.type node = "function_definition" ->
  child_by_field_name node "declarator" = Some declarator ->
  Node.type declarator = "function_declarator" ->
  child_by_field_name declarator "declarator" = Some name_node ->
  str_in (Node.type name_node) ["qualified_identifier"; "field_identifier"] = true ->
  Node.children name_node = [] ->
  _extract_entities content pty node self = self.
Proof.
  intros Hty Hdecl Hdty Hname Hkind Hleaf.
  rewrite extract_unfold, Hty. cbn [String.eqb Ascii.eqb Bool.eqb str_in existsb orb].
  unfold declarator_of. rewrite Hty. cbn [String.eqb Ascii.eqb Bool.eqb]. rewrite Hdecl.
  unfold _get_function_name_node. rewrite Hdty. cbn [String.eqb Ascii.eqb Bool.eqb].
  rewrite Hname.
  destruct (String.eqb (Node.type name_node) "identifier") eqn:Hid.
  { apply String.eqb_eq in Hid. rewrite Hid in Hkind. discriminate Hkind. }
  rewrite Hkind, Hleaf. reflexivity.
Qed.

(** The method [c] of the example of the specification, with its name held
    as the C++ grammar holds the name of a method inside a class body. *)
Lemma function_named_by_a_leaf_is_skipped_witness :
  _extract_entities Examples.nested_source (Some "field_declaration_list")
    (Examples.method_c "field_identifier") (mkParser ["A"] (Some "A::B") [] [])
  = mkParser ["A"] (Some "A::B") [] [].
Proof.
  apply (function_named_by_a_leaf_is_skipped Examples.nested_source
           (Some "field_declaration_list") (Examples.method_c "field_identifier")
           (Examples.inner "function_declarator" (Some "declarator") 29 32
              [Examples.leaf "field_identifier" (Some "declarator") 29 30;
               Examples.inner "parameter_list" (Some "parameters") 30 32
                 [Examples.leaf "(" None 30 31; Examples.leaf ")" None 31 32]])
           (Examples.leaf "field_identifier" (Some "declarator") 29 30));
    reflexivity.
Defined.

Lemma substring_length_le n m s : String.length (String.substring n m s) <= m.
Proof.
  revert n m. induction s as [|c s IH]; intros [|n] [|m]; cbn; try lia.
  - specialize (IH 0 m). lia.
  - apply (IH n 0).
  - apply (IH n (S m)).
Qed.

Lemma extract_relationships_Forall content (P : Relationship.t -> Prop) :
  (forall node, Forall P (edges_at node content)) ->
  forall node rels, Forall P rels -> Forall P (_extract_relationships content node rels).
Proof.
  intros HP node. induction node as [node IH] using node_ind'. intros rels Hrels.
  destruct node as [ty fld sb eb sr er ch]. cbn [_extract_relationships].
  cbn [Node.children] in IH.
  assert (H0 : Forall P (rels ++ edges_at (Node.mk ty fld sb eb sr er ch) content)).
  { apply Forall_app. split; [exact Hrels | apply HP]. }
  revert H0. generalize (rels ++ edges_at (Node.mk ty fld sb eb sr er ch) content).
  induction IH as [|c l Hc _ IHl]; intros acc Hacc; cbn [fold_left]; [exact Hacc|].
  apply IHl. apply Hc. exact Hacc.
Qed.

(** X4.  The context kept with a call edge is at most 200 characters long,
    however long the call expression is; and whatever a parse returns as an
    edge is an [inherits], a [calls] or an [includes] edge. *)
Theorem call_context_is_at_most_200_characters self tree content :
  Forall (fun r =>
            (Relationship.relationship_type r = "calls"
             -> String.length (Relationship.context r) <= 200)
            /\ In (Relationship.relationship_type r) ["inherits"; "calls"; "includes"])
         (parsed_relationships (parse_file self tree content)).
Proof.
  unfold parse_file. destruct (_create_chunks _ _); [|constructor].
  cbn [parsed_relationships].
  apply extract_relationships_Forall.
  - intros node. unfold edges_at.
    destruct (String.eqb (Node.type node) "preproc_include").
    { destruct (truthy_str _); [|constructor].
      constructor; [|constructor]. cbn. split; [discriminate | tauto]. }
    destruct (String.eqb (Node.type node) "call_expression"); [|constructor].
    destruct (child_by_field_name node "function"); [|constructor].
    constructor; [|constructor]. cbn [Relationship.relationship_type Relationship.context].
    split; [intros _; apply substring_length_le | cbn; tauto].
  - eapply Forall_impl.
    + apply extract_entities_inherits. constructor.
    + intros r Hr. rewrite Hr. split; [discriminate | cbn; tauto].
Qed.

(* ===================================================================== *)
(** * Further properties of the indexer                                    *)
(* ===================================================================== *)

Lemma bind_ok_inv {A B} (m : M A) (k : A -> M B) s b s' :
  bind m k s = (Ok b, s') ->
  exists a s1, m s = (Ok a, s1) /\ k a s1 = (Ok b, s').
Proof.
  unfold bind. destruct (m s) as [[a|e] s1]; [eauto | discriminate].
Qed.

(** A step that never changes [proj] of the state keeps every value of it. *)
Lemma keeps_proj {X A} (proj : State -> X) (m : M A) :
  (forall s, proj (snd (m s)) = proj s) ->
  forall x, keeps (fun s => proj s = x) m.
Proof. intros H x s Hs. now rewrite H. Qed.

Lemma proj_of_keeps {X A} (proj : State -> X) (m : M A) :
  (forall x, keeps (fun s => proj s = x) m) ->
  forall s, proj (snd (m s)) = proj s.
Proof. intros H s. exact (H (proj s) s eq_refl). Qed.

Ltac unfold_steps :=
  unfold _insert_entity, insert_entity_row, update_parent, select_id_by_simple_name,
    insert_relationship_row, insert_chunk_row, update_file_indexed, cache_put,
    delete_entities_of_file, next_entity_id, next_relationship_id, next_chunk_id,
    set_tables, encode, bind, get, ret, raise.

Ltac same_step :=
  intros; unfold_steps;
  repeat (cbn [fst snd tables seqs entity_cache DB.files DB.entities DB.relationships
                 DB.code_chunks]; case_match);
  reflexivity.

Lemma simple_file_indexing_files em file_id content s :
  DB.files (tables (snd (_simple_file_indexing em file_id content s))) = DB.files (tables s).
Proof.
  revert s. apply (proj_of_keeps (fun s => DB.files (tables s))). intros x.
  unfold _simple_file_indexing. apply keeps_for_each. intros i.
  unfold index_window. destruct (_ <? 50); [apply keeps_ret|].
  apply keeps_encode. intros v. apply keeps_proj. same_step.
Qed.

Lemma keeps_select_id I simple_name : keeps I (select_id_by_simple_name simple_name).
Proof. intros s Hs. exact Hs. Qed.

(** An invariant of the statements that write to the store is an invariant
    of the steps of [index_file] that are made of them. *)
Section StepInvariant.
Variable I : State -> Prop.
Variable em : Encoder.
Variable file_id : nat.
Hypothesis I_insert_entity_row : forall entity, keeps I (insert_entity_row file_id entity).
Hypothesis I_cache_put : forall name id, keeps I (cache_put name id).
Hypothesis I_update_parent : forall parent id, keeps I (update_parent parent id).
Hypothesis I_insert_relationship_row :
  forall f t rel, keeps I (insert_relationship_row f t rel).
Hypothesis I_insert_chunk_row :
  forall eid ty content a b v md,
    em content = Some v -> keeps I (insert_chunk_row eid file_id ty content a b v md).

Lemma keeps_insert_entities ents :
  forall entity_map, keeps I (insert_entities file_id ents entity_map).
Proof.
  induction ents as [|e ents IH]; intros entity_map; cbn [insert_entities];
    [apply keeps_ret|].
  apply keeps_bind; [apply I_insert_entity_row|]. intros id.
  apply keeps_bind; [apply I_cache_put|]. intros _. apply IH.
Qed.

Lemma keeps_resolve_parent entity_map entity : keeps I (resolve_parent entity_map entity).
Proof.
  unfold resolve_parent. destruct (contains_scope _); [|apply keeps_ret].
  destruct (rsplit_scope1 _) as [|p [|q [|]]]; try apply keeps_ret.
  destruct (entity_map !! p); [|apply keeps_ret].
  destruct (entity_map !! _); [apply I_update_parent | apply keeps_ret].
Qed.

Lemma keeps_insert_relationship rel entity_map :
  keeps I (_insert_relationship rel entity_map file_id).
Proof.
  unfold _insert_relationship.
  apply keeps_bind; [apply keeps_get|]. intros s0.
  destruct (String.eqb _ "includes"); [apply keeps_ret|].
  apply keeps_bind.
  - destruct (lookup_name _ _ _); [apply keeps_ret | apply keeps_select_id].
  - intros to_id. destruct (_ && _); [apply I_insert_relationship_row | apply keeps_ret].
Qed.

Lemma keeps_encode_then {A} text (k : list Z -> M A) :
  (forall v, em text = Some v -> keeps I (k v)) -> keeps I (bind (encode em text) k).
Proof.
  intros Hk. unfold encode. destruct (em text) as [v|].
  - apply keeps_bind_ok; [apply keeps_ret|].
    intros s a _ Ha. injection Ha as <-. now apply Hk.
  - apply keeps_bind_ok; [apply keeps_raise|]. intros s a _ Ha. discriminate Ha.
Qed.

Lemma keeps_insert_chunk chunk entity_map :
  keeps I (_insert_chunk em chunk entity_map file_id).
Proof.
  unfold _insert_chunk. apply keeps_encode_then. intros v Hv.
  now apply I_insert_chunk_row.
Qed.

Lemma keeps_simple_file_indexing content :
  keeps I (_simple_file_indexing em file_id content).
Proof.
  unfold _simple_file_indexing. apply keeps_for_each. intros i.
  unfold index_window. destruct (_ <? 50); [apply keeps_ret|].
  apply keeps_encode_then. intros v Hv. now apply I_insert_chunk_row.
Qed.

Hypothesis I_delete : keeps I (delete_entities_of_file file_id).
Hypothesis I_update_file : forall now, keeps I (update_file_indexed now file_id).
Hypothesis I_rollback : forall s s',
  I s -> I s' -> I (mkState (tables s) (seqs s') (entity_cache s')).

Lemma keeps_index_file now content parsed :
  keeps I (index_file em now file_id content parsed).
Proof.
  unfold index_file. destruct parsed as [[[ents rels] chunks]|];
    [|apply keeps_simple_file_indexing].
  apply keeps_transaction; [exact I_rollback|].
  apply keeps_bind; [apply I_delete|]. intros _.
  apply keeps_bind; [apply keeps_insert_entities|]. intros entity_map.
  apply keeps_bind; [apply keeps_for_each; intros e; apply keeps_resolve_parent|].
  intros _.
  apply keeps_bind; [apply keeps_for_each; intros r; apply keeps_insert_relationship|].
  intros _.
  apply keeps_bind; [apply keeps_for_each; intros c; apply keeps_insert_chunk|].
  intros _. apply I_update_file.
Qed.
End StepInvariant.

(** The stages of a transaction of [index_file] that ends normally. *)
Lemma index_file_ok_stages em now file_id content ents rels chunks s :
  fst (index_file em now file_id content (Some (ents, rels, chunks)) s) = Ok tt ->
  exists s1 entity_map s2 s3 s4 s5,
    delete_entities_of_file file_id s = (Ok tt, s1)
    /\ insert_entities file_id ents ∅ s1 = (Ok entity_map, s2)
    /\ for_each ents (resolve_parent entity_map) s2 = (Ok tt, s3)
    /\ for_each rels (fun rel => _insert_relationship rel entity_map file_id) s3 = (Ok tt, s4)
    /\ for_each chunks (fun chunk => _insert_chunk em chunk entity_map file_id) s4
       = (Ok tt, s5)
    /\ update_file_indexed now file_id s5
       = (Ok tt, snd (index_file em now file_id content (Some (ents, rels, chunks)) s)).
Proof.
  unfold index_file, transaction.
  destruct (bind _ _ s) as [[[]|e] s'] eqn:Hblock; cbn [fst snd]; [|discriminate].
  intros _.
  apply bind_ok_inv in Hblock. destruct Hblock as ([] & s1 & H1 & Hblock).
  apply bind_ok_inv in Hblock. destruct Hblock as (entity_map & s2 & H2 & Hblock).
  apply bind_ok_inv in Hblock. destruct Hblock as ([] & s3 & H3 & Hblock).
  apply bind_ok_inv in Hblock. destruct Hblock as ([] & s4 & H4 & Hblock).
  apply bind_ok_inv in Hblock. destruct Hblock as ([] & s5 & H5 & Hblock).
  exists s1, entity_map, s2, s3, s4, s5. auto 10.
Qed.

(** What no statement before the update of the file row changes is, at
    that update, as it was before the call. *)
Lemma index_file_ok_proj {X} (proj : State -> X) em now file_id content ents rels chunks s :
  (forall s, proj (snd (delete_entities_of_file file_id s)) = proj s) ->
  (forall entity s, proj (snd (insert_entity_row file_id entity s)) = proj s) ->
  (forall name id s, proj (snd (cache_put name id s)) = proj s) ->
  (forall parent id s, proj (snd (update_parent parent id s)) = proj s) ->
  (forall f t rel s, proj (snd (insert_relationship_row f t rel s)) = proj s) ->
  (forall eid ty content a b v md s,
     proj (snd (insert_chunk_row eid file_id ty content a b v md s)) = proj s) ->
  fst (index_file em now file_id content (Some (ents, rels, chunks)) s) = Ok tt ->
  exists s5,
    proj s5 = proj s
    /\ update_file_indexed now file_id s5
       = (Ok tt, snd (index_file em now file_id content (Some (ents, rels, chunks)) s)).
Proof.
  intros Hdel Hent Hput Hpar Hrel Hchunk Hok.
  destruct (index_file_ok_stages _ _ _ _ _ _ _ _ Hok)
    as (s1 & entity_map & s2 & s3 & s4 & s5 & H1 & H2 & H3 & H4 & H5 & H6).
  exists s5. split; [|exact H6].
  assert (K : forall x A (m : M A) s a s',
             keeps (fun s => proj s = x) m -> m s = (a, s') -> proj s = x -> proj s' = x).
  { intros x A m s0 a s' Hk Hm Hx. specialize (Hk s0 Hx). now rewrite Hm in Hk. }
  assert (P1 : proj s1 = proj s).
  { eapply K; [|exact H1|reflexivity]. apply keeps_proj, Hdel. }
  assert (P2 : proj s2 = proj s).
  { eapply K; [|exact H2|exact P1].
    apply keeps_insert_entities; intros; apply keeps_proj; auto. }
  assert (P3 : proj s3 = proj s).
  { eapply K; [|exact H3|exact P2].
    apply keeps_for_each. intros e. apply keeps_resolve_parent.
    intros; apply keeps_proj; auto. }
  assert (P4 : proj s4 = proj s).
  { eapply K; [|exact H4|exact P3].
    apply keeps_for_each. intros r. apply keeps_insert_relationship.
    intros; apply keeps_proj; auto. }
  eapply K; [|exact H5|exact P4].
  apply keeps_for_each. intros c. apply keeps_insert_chunk.
  intros; apply keeps_proj; auto.
Qed.

(** ** The table of files *)

(** What [index_file] does to the table of files. *)
Lemma index_file_files em now file_id content parsed s :
  let r := index_file em now file_id content parsed s in
  DB.files (tables (snd r))
  = match parsed, fst r with
    | Some _, Ok _ => map (mark_indexed now file_id) (DB.files (tables s))
    | _, _ => DB.files (tables s)
    end.
Proof.
  cbn zeta. unfold Parsed in parsed.
  destruct parsed as [[[ents rels] chunks]|]; [|apply simple_file_indexing_files].
  destruct (fst (index_file em now file_id content (Some (ents, rels, chunks)) s))
    as [[]|e] eqn:Hout.
  - destruct (index_file_ok_proj (fun s => DB.files (tables s)) em now file_id content
                ents rels chunks s) as (s5 & Hfiles & Hlast);
      [same_step | same_step | same_step | same_step | same_step | same_step | exact Hout |].
    apply (f_equal snd) in Hlast. cbn [snd] in Hlast. rewrite <- Hlast.
    cbn. now rewrite Hfiles.
  - exact (f_equal DB.files
             (index_file_rolls_back em now file_id content (ents, rels, chunks) s e Hout)).
Qed.

(** X5.  [index_file] writes to the table of files only as the last step
    of a transaction that ends normally: the row of the file then has the
    status [indexed] and the time of the call.  When the transaction raises,
    and on the fallback path whether it raises or not, the table of files is
    left as it was, so that a file indexed by the fallback is never marked
    as indexed. *)
Theorem file_is_marked_indexed_only_by_a_parsed_success
    em now file_id content parsed s :
  let r := index_file em now file_id content parsed s in
  DB.files (tables (snd r))
  = match parsed, fst r with
    | Some _, Ok _ => map (mark_indexed now file_id) (DB.files (tables s))
    | _, _ => DB.files (tables s)
    end.
Proof.
  cbn zeta. unfold Parsed in parsed.
  destruct parsed as [[[ents rels] chunks]|]; [|apply simple_file_indexing_files].
  destruct (fst (index_file em now file_id content (Some (ents, rels, chunks)) s))
    as [[]|e] eqn:Hout.
  - destruct (index_file_ok_proj (fun s => DB.files (tables s)) em now file_id content
                ents rels chunks s) as (s5 & Hfiles & Hlast);
      [same_step | same_step | same_step | same_step | same_step | same_step | exact Hout |].
    apply (f_equal snd) in Hlast. cbn [snd] in Hlast. rewrite <- Hlast.
    cbn. now rewrite Hfiles.
  - exact (f_equal DB.files
             (index_file_rolls_back em now file_id content (ents, rels, chunks) s e Hout)).
Qed.


(** ** The table of chunks *)

Lemma chunks_same_or_appended eid file_id ty content a b v md s :
  let s' := snd (insert_chunk_row eid file_id ty content a b v md s) in
  DB.code_chunks (tables s') = DB.code_chunks (tables s)
  \/ (List.length v = vector_width
      /\ DB.code_chunks (tables s')
         = DB.code_chunks (tables s)
           ++ [ChunkRow.mk (DB.code_chunks_id_seq (seqs s)) eid file_id ty content a b v md]).
Proof.
  unfold insert_chunk_row, bind, get, next_chunk_id, set_tables, raise.
  cbn [tables seqs entity_cache snd].
  destruct (List.length v =? vector_width) eqn:Hw; cbn [negb]; [|now left].
  apply Nat.eqb_eq in Hw.
  destruct (_ && _); cbn [snd tables DB.code_chunks]; [right; split; [exact Hw|reflexivity] | now left].
Qed.

(** An invariant that only reads the table of chunks. *)
Section ChunkInvariant.
Variable P : list ChunkRow.t -> Prop.
Variable em : Encoder.
Variable file_id : nat.
Hypothesis P_filter : forall (keep : ChunkRow.t -> Prop) `{forall c, Decision (keep c)} l,
  (forall c, ChunkRow.entity_id c = None -> keep c) -> P l -> P (filter keep l).
Hypothesis P_append : forall l id eid ty content a b v md,
  em content = Some v -> List.length v = vector_width ->
  P l -> P (l ++ [ChunkRow.mk id eid file_id ty content a b v md]).

Lemma keeps_chunks_index_file now content parsed :
  keeps (fun s => P (DB.code_chunks (tables s))) (index_file em now file_id content parsed).
Proof.
  assert (Hsame : forall A (m : M A),
            (forall s, DB.code_chunks (tables (snd (m s))) = DB.code_chunks (tables s)) ->
            keeps (fun s => P (DB.code_chunks (tables s))) m).
  { intros A m H s Hs. now rewrite H. }
  apply keeps_index_file.
  - intros entity. apply Hsame. same_step.
  - intros name id. apply Hsame. same_step.
  - intros parent id. apply Hsame. same_step.
  - intros f t rel. apply Hsame. same_step.
  - intros eid ty text a b v md Hv s Hs.
    destruct (chunks_same_or_appended eid file_id ty text a b v md s) as [->|[Hw ->]];
      [exact Hs|].
    now apply P_append.
  - intros s Hs. unfold delete_entities_of_file. cbn [snd tables DB.code_chunks].
    apply P_filter; [|exact Hs]. intros c ->. reflexivity.
  - intros now'. apply Hsame. same_step.
  - intros s s' Hs _. exact Hs.
Qed.
End ChunkInvariant.

(** X6.  Every chunk row that [index_file] adds, on either path and also
    when it raises later, belongs to the file being indexed and carries the
    vector that the embedding model answers for its content, of width 384;
    the other chunk rows were there before the call. *)
Theorem added_chunks_carry_the_vector_of_their_content
    em now file_id content parsed s :
  Forall (fun c => In c (DB.code_chunks (tables s))
                   \/ (encoded_by em c /\ ChunkRow.file_id c = file_id))
         (DB.code_chunks (tables (snd (index_file em now file_id content parsed s)))).
Proof.
  apply (keeps_chunks_index_file
           (Forall (fun c => In c (DB.code_chunks (tables s))
                             \/ (encoded_by em c /\ ChunkRow.file_id c = file_id)))
           em file_id).
  - intros keep Hdec l _ Hl. apply Forall_forall. intros c Hc.
    apply list_elem_of_filter in Hc. rewrite Forall_forall in Hl. now apply Hl.
  - intros l id eid ty text a b v md Hv Hw Hl. apply Forall_app. split; [exact Hl|].
    constructor; [|constructor]. right. unfold encoded_by. cbn. auto.
  - apply Forall_forall. intros c Hc. left. now apply list_elem_of_In.
Qed.

(** X7.  [index_file] never deletes a chunk that is attached to no
    entity.  The chunks that the fallback stored for a file are such
    chunks: they stay in the store when the file is indexed again, also
    from a parse that succeeds. *)
Theorem chunks_without_entity_are_never_deleted em now file_id content parsed s :
  Forall (fun c => ChunkRow.entity_id c = None
                   -> In c (DB.code_chunks (tables (snd (index_file em now file_id content
                                                           parsed s)))))
         (DB.code_chunks (tables s)).
Proof.
  apply (keeps_chunks_index_file
           (fun l => Forall (fun c => ChunkRow.entity_id c = None -> In c l)
                            (DB.code_chunks (tables s)))
           em file_id).
  - intros keep Hdec l Hkeep Hl. eapply Forall_impl; [exact Hl|].
    intros c Hc Hnone. apply list_elem_of_In, list_elem_of_filter.
    split; [now apply Hkeep | apply list_elem_of_In; now apply Hc].
  - intros l id eid ty text a b v md _ _ Hl. eapply Forall_impl; [exact Hl|].
    intros c Hc Hnone. apply in_or_app. left. now apply Hc.
  - apply Forall_forall. intros c Hc _. now apply list_elem_of_In.
Qed.

(** ** The table of entities *)

Lemma cascade_closure_incl fuel ents :
  forall dead x, In x dead -> In x (cascade_closure fuel ents dead).
Proof.
  induction fuel as [|fuel IH]; intros dead x Hx; cbn [cascade_closure]; [exact Hx|].
  destruct (map _ _) as [|m more]; [exact Hx|].
  apply IH. apply in_or_app. now left.
Qed.

(** After the delete no entity of the file is left. *)
Lemma delete_leaves_no_entity_of_file file_id s :
  Forall (fun e => EntityRow.file_id e <> file_id)
         (DB.entities (tables (snd (delete_entities_of_file file_id s)))).
Proof.
  unfold delete_entities_of_file. cbn [snd tables DB.entities].
  apply Forall_forall. intros e He. apply list_elem_of_filter in He.
  destruct He as [Hlive He]. intros Hfile.
  assert (Hdead : mem (EntityRow.id e)
                    (cascade_closure (List.length (DB.entities (tables s)))
                       (DB.entities (tables s))
                       (map EntityRow.id
                          (filter (fun e => EntityRow.file_id e = file_id)
                                  (DB.entities (tables s))))) = true).
  { apply mem_true_iff, cascade_closure_incl, in_map_iff. exists e. split; [reflexivity|].
    apply list_elem_of_In, list_elem_of_filter. split; assumption. }
  rewrite Hdead in Hlive. discriminate Hlive.
Qed.

(** The rows that the first loop appends when it ends normally. *)
Lemma insert_entities_rows file_id ents :
  forall entity_map s entity_map' s',
    insert_entities file_id ents entity_map s = (Ok entity_map', s') ->
    exists rows,
      DB.entities (tables s') = DB.entities (tables s) ++ rows
      /\ Forall2 (fun e r => stored_as e r /\ EntityRow.file_id r = file_id) ents rows.
Proof.
  induction ents as [|e ents IH]; intros entity_map s entity_map' s' Hrun;
    cbn [insert_entities] in Hrun.
  - injection Hrun as _ <-. exists []. rewrite app_nil_r. split; [reflexivity|constructor].
  - apply bind_ok_inv in Hrun. destruct Hrun as (id & s1 & Hrow & Hrun).
    apply bind_ok_inv in Hrun. destruct Hrun as ([] & s2 & Hput & Hrun).
    apply IH in Hrun. destruct Hrun as (rows & Hrows & Hall).
    unfold cache_put in Hput. injection Hput as <-.
    unfold _insert_entity, insert_entity_row, bind, next_entity_id, get, set_tables, raise
      in Hrow.
    cbn [tables seqs entity_cache] in Hrow.
    destruct (file_exists (tables s) file_id); [|discriminate].
    cbn in Hrow. injection Hrow as <- <-.
    cbn [tables DB.entities] in Hrows. rewrite <- app_assoc in Hrows.
    eexists. split; [exact Hrows|].
    constructor; [|exact Hall]. unfold stored_as. cbn. auto 12.
Qed.

Lemma without_parent_set_parent parent id e :
  without_parent (set_parent parent id e) = without_parent e.
Proof. unfold set_parent. destruct (EntityRow.id e =? id); reflexivity. Qed.

(** From the end of the first loop to the end of a transaction that ends
    normally, what the statements of the later loops leave alone stays. *)
Lemma index_file_ok_after_entities {X} (proj : State -> X)
    em now file_id content ents rels chunks s :
  (forall parent id s, proj (snd (update_parent parent id s)) = proj s) ->
  (forall f t rel s, proj (snd (insert_relationship_row f t rel s)) = proj s) ->
  (forall eid ty content a b v md s,
     proj (snd (insert_chunk_row eid file_id ty content a b v md s)) = proj s) ->
  (forall s, proj (snd (update_file_indexed now file_id s)) = proj s) ->
  fst (index_file em now file_id content (Some (ents, rels, chunks)) s) = Ok tt ->
  exists entity_map s2,
    insert_entities file_id ents ∅ (snd (delete_entities_of_file file_id s))
    = (Ok entity_map, s2)
    /\ proj (snd (index_file em now file_id content (Some (ents, rels, chunks)) s)) = proj s2.
Proof.
  intros Hpar Hrel Hchunk Hfile Hok.
  destruct (index_file_ok_stages _ _ _ _ _ _ _ _ Hok)
    as (s1 & entity_map & s2 & s3 & s4 & s5 & H1 & H2 & H3 & H4 & H5 & H6).
  exists entity_map, s2. rewrite H1. split; [exact H2|].
  assert (K : forall x A (m : M A) s a s',
             keeps (fun s => proj s = x) m -> m s = (a, s') -> proj s = x -> proj s' = x).
  { intros x A m s0 a s' Hk Hm Hx. specialize (Hk s0 Hx). now rewrite Hm in Hk. }
  assert (P3 : proj s3 = proj s2).
  { eapply K; [|exact H3|reflexivity].
    apply keeps_for_each. intros e. apply keeps_resolve_parent.
    intros; apply keeps_proj; auto. }
  assert (P4 : proj s4 = proj s2).
  { eapply K; [|exact H4|exact P3].
    apply keeps_for_each. intros r. apply keeps_insert_relationship.
    intros; apply keeps_proj; auto. }
  assert (P5 : proj s5 = proj s2).
  { eapply K; [|exact H5|exact P4].
    apply keeps_for_each. intros c. apply (keeps_insert_chunk _ em file_id).
    intros; apply keeps_proj; auto. }
  eapply K; [|exact H6|exact P5]. apply keeps_proj, Hfile.
Qed.

Lemma cons_eq_inv {A} (x y : A) l l' : x :: l = y :: l' -> x = y /\ l = l'.
Proof. intros H. injection H. auto. Qed.

Lemma filter_file_without_parent file_id l l' :
  map without_parent l' = map without_parent l ->
  map without_parent (filter (fun e => EntityRow.file_id e = file_id) l')
  = map without_parent (filter (fun e => EntityRow.file_id e = file_id) l).
Proof.
  revert l'. induction l as [|e l IH]; intros [|e' l'] Hmap; try discriminate; [reflexivity|].
  cbn [map] in Hmap. apply cons_eq_inv in Hmap. destruct Hmap as [He Hl].
  assert (Hf : EntityRow.file_id e' = EntityRow.file_id e)
    by exact (f_equal EntityRow.file_id He).
  destruct (decide (EntityRow.file_id e = file_id)) as [Hin|Hout].
  - rewrite !filter_cons_True by congruence. cbn [map]. rewrite He. f_equal. now apply IH.
  - rewrite !filter_cons_False by congruence. now apply IH.
Qed.

Lemma stored_as_without_parent ents :
  forall rows rows',
    map without_parent rows' = map without_parent rows ->
    Forall2 stored_as ents rows -> Forall2 stored_as ents rows'.
Proof.
  induction ents as [|e ents IH]; intros rows rows' Hmap Hall; inversion Hall; subst.
  - destruct rows'; [constructor | discriminate].
  - destruct rows' as [|r' rows']; [discriminate|].
    cbn [map] in Hmap. apply cons_eq_inv in Hmap. destruct Hmap as [Hr Hrest].
    constructor; [|eapply IH; eassumption].
    match goal with H : stored_as e ?y |- _ => rename H into Hs; rename y into r end.
    unfold stored_as in *. unfold without_parent in Hr.
    injection Hr as _ _ -> -> -> -> -> -> -> -> ->. exact Hs.
Qed.

Lemma filter_file_none file_id (l : list EntityRow.t) :
  Forall (fun e => EntityRow.file_id e <> file_id) l ->
  filter (fun e => EntityRow.file_id e = file_id) l = [].
Proof.
  induction 1 as [|e l He _ IH]; [reflexivity|].
  now rewrite filter_cons_False.
Qed.

Lemma filter_file_all file_id (l : list EntityRow.t) :
  Forall (fun e => EntityRow.file_id e = file_id) l ->
  filter (fun e => EntityRow.file_id e = file_id) l = l.
Proof.
  induction 1 as [|e l He _ IH]; [reflexivity|].
  rewrite filter_cons_True by exact He. now rewrite IH.
Qed.

(** X8.  When [index_file] ends normally on a parsed file, the entity rows
    of the file are the entities of the parse, one row each and in their
    order: the rows that the file had before are gone. *)
Theorem parsed_index_replaces_the_entities_of_the_file
    em now file_id content ents rels chunks s :
  fst (index_file em now file_id content (Some (ents, rels, chunks)) s) = Ok tt ->
  Forall2 stored_as ents
    (entities_of_file
       (tables (snd (index_file em now file_id content (Some (ents, rels, chunks)) s)))
       file_id).
Proof.
  intros Hok.
  destruct (index_file_ok_after_entities
              (fun s => map without_parent (DB.entities (tables s)))
              em now file_id content ents rels chunks s) as (entity_map & s2 & Hins & Hsame);
    [| same_step | same_step | same_step | exact Hok |].
  { intros parent id s0. unfold update_parent, bind, get, set_tables, raise.
    destruct (_ && _); cbn [snd tables DB.entities]; [reflexivity|].
    rewrite map_map. apply map_ext. intros e. apply without_parent_set_parent. }
  destruct (insert_entities_rows _ _ _ _ _ _ Hins) as (rows & Hrows & Hall).
  unfold entities_of_file.
  apply (stored_as_without_parent ents rows).
  - rewrite (filter_file_without_parent file_id _ _ Hsame), Hrows, filter_app.
    rewrite filter_file_none by apply delete_leaves_no_entity_of_file.
    rewrite filter_file_all; [reflexivity|].
    clear -Hall. induction Hall as [|e r ents rows [_ Hr] _ IH]; constructor; assumption.
  - eapply Forall2_impl; [exact Hall|]. intros e r [Hs _]. exact Hs.
Qed.

(** The file of [indexed_store] has two entity rows; indexing it again from
    the same parse leaves the two rows of the new parse. *)
Lemma parsed_index_replaces_the_entities_of_the_file_witness :
  exists ents rels chunks,
    parse_cpp_file (Examples.nested_tree "identifier") Examples.nested_source
    = Some (ents, rels, chunks)
    /\ List.length ents = 2
    /\ Forall2 stored_as ents
         (entities_of_file
            (tables (snd (index_file Examples.zero_encoder 0 1 Examples.nested_source
                            (Some (ents, rels, chunks)) Examples.indexed_store)))
            1).
Proof.
  eexists _, _, _. split; [vm_compute; reflexivity|]. split; [reflexivity|].
  apply parsed_index_replaces_the_entities_of_the_file. vm_compute. reflexivity.
Defined.

(** ** The cache of the indexer *)

(** With the row of the file in place, the first loop ends normally, and
    the cache then holds, for the name of every entity of the parse, an id
    that the sequence handed out during the loop. *)
Lemma insert_entities_cache file_id ents :
  forall entity_map s n,
    file_exists (tables s) file_id = true ->
    n <= DB.entities_id_seq (seqs s) ->
    exists entity_map' s',
      insert_entities file_id ents entity_map s = (Ok entity_map', s')
      /\ forall name,
           In name (map Entity.qualified_name ents)
           \/ (exists id, entity_cache s !! name = Some id /\ n <= id) ->
           exists id, entity_cache s' !! name = Some id /\ n <= id.
Proof.
  induction ents as [|e ents IH]; intros entity_map s n Hfile Hn; cbn [insert_entities].
  - exists entity_map, s. split; [reflexivity|]. intros name [[]|H]. exact H.
  - unfold _insert_entity, insert_entity_row.
    unfold bind at 1 2 3 4 5. unfold next_entity_id at 1. unfold get at 1.
    cbn [tables seqs entity_cache]. rewrite Hfile.
    unfold set_tables at 1. unfold ret at 1. unfold cache_put at 1.
    cbn [tables seqs entity_cache].
    match goal with
    | |- context [insert_entities file_id ents ?m ?s1] =>
        destruct (IH m s1 n) as (entity_map' & s' & Hrun & Hcache);
          [exact Hfile | cbn; lia |]
    end.
    exists entity_map', s'. split; [exact Hrun|].
    intros name Hname. apply Hcache. cbn [entity_cache].
    destruct Hname as [[<-|Hin]|(id & Hid & Hge)].
    + right. rewrite lookup_insert_eq. eauto.
    + now left.
    + right. destruct (decide (name = Entity.qualified_name e)) as [->|Hne].
      * rewrite lookup_insert_eq. eauto.
      * rewrite lookup_insert_ne by congruence. eauto.
Qed.

Lemma transaction_cache {A} (block : M A) s :
  entity_cache (snd (transaction block s)) = entity_cache (snd (block s)).
Proof. unfold transaction. destruct (block s) as [[a|e] s']; reflexivity. Qed.

(** X9.  The cache of the indexer is not rolled back with the tables.
    When a transaction of [index_file] raises after the row of the file was
    found, the tables are as before the call, but the cache names, for
    every entity of the parse, an id that belongs to no entity row: the id
    of a row that the rollback took away. *)
Theorem rollback_leaves_ids_of_no_row_in_the_cache
    em now file_id content ents rels chunks s e :
  file_exists (tables s) file_id = true ->
  ids_handed_out s ->
  fst (index_file em now file_id content (Some (ents, rels, chunks)) s) = Raise e ->
  let s' := snd (index_file em now file_id content (Some (ents, rels, chunks)) s) in
  tables s' = tables s
  /\ Forall (fun entity =>
               exists id, entity_cache s' !! Entity.qualified_name entity = Some id
                          /\ entity_exists (tables s') id = false)
            ents.
Proof.
  intros Hfile Hids Hraise. cbn zeta.
  assert (Htables : tables (snd (index_file em now file_id content
                                   (Some (ents, rels, chunks)) s)) = tables s)
    by exact (index_file_rolls_back em now file_id content (ents, rels, chunks) s e Hraise).
  split; [exact Htables|]. rewrite Htables. clear Hraise Htables.
  assert (Hcache : forall name, In name (map Entity.qualified_name ents) ->
            exists id,
              entity_cache (snd (index_file em now file_id content
                                   (Some (ents, rels, chunks)) s)) !! name = Some id
              /\ DB.entities_id_seq (seqs s) <= id).
  { unfold index_file.
    set (rest := fun entity_map : gmap string nat =>
                   for_each ents (resolve_parent entity_map) ;;;
                   for_each rels (fun rel => _insert_relationship rel entity_map file_id) ;;;
                   for_each chunks
                     (fun chunk => _insert_chunk em chunk entity_map file_id) ;;;
                   update_file_indexed now file_id).
    assert (Hrest : forall entity_map c,
              keeps (fun s => entity_cache s = c) (rest entity_map)).
    { intros entity_map c. unfold rest.
      apply keeps_bind;
        [apply keeps_for_each; intros x; apply keeps_resolve_parent;
         intros; apply keeps_proj; same_step|].
      intros _.
      apply keeps_bind;
        [apply keeps_for_each; intros x; apply keeps_insert_relationship;
         intros; apply keeps_proj; same_step|].
      intros _.
      apply keeps_bind;
        [apply keeps_for_each; intros x; apply (keeps_insert_chunk _ em file_id);
         intros; apply keeps_proj; same_step|].
      intros _. apply keeps_proj. same_step. }
    destruct (insert_entities_cache file_id ents ∅
                (snd (delete_entities_of_file file_id s)) (DB.entities_id_seq (seqs s)))
      as (entity_map & s2 & Hins & Hnames); [exact Hfile | cbn; lia |].
    intros name Hname. destruct (Hnames name (or_introl Hname)) as (id & Hid & Hge).
    exists id. split; [|exact Hge].
    rewrite transaction_cache.
    match goal with
    | |- context [snd (?block s)] =>
        assert (Hrun : block s = rest entity_map s2)
    end.
    { unfold bind at 1 2. unfold delete_entities_of_file at 1.
      unfold delete_entities_of_file in Hins. cbn [snd] in Hins. rewrite Hins. reflexivity. }
    rewrite Hrun.
    rewrite (Hrest entity_map (entity_cache s2) s2 eq_refl). exact Hid. }
  apply Forall_forall. intros entity Hentity.
  destruct (Hcache (Entity.qualified_name entity)) as (id & Hid & Hge).
  { apply in_map. now apply list_elem_of_In. }
  exists id. split; [exact Hid|].
  destruct (entity_exists (tables s) id) eqn:Hex; [|reflexivity].
  unfold entity_exists in Hex. apply mem_true_iff, in_map_iff in Hex.
  destruct Hex as (row & <- & Hrow).
  unfold ids_handed_out in Hids. rewrite Forall_forall in Hids.
  apply list_elem_of_In in Hrow. specialize (Hids row Hrow). lia.
Qed.

(** The file of [indexed_store] is indexed again with an embedding model
    that raises: the store keeps its two entity rows, with the ids 1 and 2,
    and the cache names the ids 3 and 4. *)
Lemma rollback_leaves_ids_of_no_row_in_the_cache_witness :
  exists ents rels chunks,
    parse_cpp_file (Examples.nested_tree "identifier") Examples.nested_source
    = Some (ents, rels, chunks)
    /\ let s' := snd (index_file MoreExamples.failing_encoder 0 1 Examples.nested_source
                        (Some (ents, rels, chunks)) Examples.indexed_store) in
       tables s' = tables Examples.indexed_store
       /\ Forall (fun entity =>
                    exists id, entity_cache s' !! Entity.qualified_name entity = Some id
                               /\ entity_exists (tables s') id = false)
                 ents.
Proof.
  eexists _, _, _. split; [vm_compute; reflexivity|].
  apply (rollback_leaves_ids_of_no_row_in_the_cache MoreExamples.failing_encoder 0 1
           Examples.nested_source _ _ _ Examples.indexed_store EmbeddingError).
  - vm_compute. reflexivity.
  - unfold ids_handed_out. vm_compute. repeat constructor.
  - vm_compute. reflexivity.
Defined.


(* ===================================================================== *)
(** * Further properties of the batches                                    *)
(* ===================================================================== *)

(** The slices of a list at the multiples of a step, put end to end, are
    the list. *)
Lemma concat_slices_from {A} (l : list A) step (Hstep : 0 < step) fuel :
  forall start,
    List.length l - start <= fuel ->
    concat (map (fun i => lslice l i (i + step)) (range_up fuel start (List.length l) step))
    = drop start l.
Proof.
  induction fuel as [|fuel IH]; intros start Hfuel; cbn [range_up map concat].
  - rewrite drop_ge by lia. reflexivity.
  - destruct (start <? List.length l) eqn:Hlt.
    + apply Nat.ltb_lt in Hlt. cbn [map concat]. rewrite IH by lia.
      unfold lslice. replace (start + step - start) with step by lia.
      rewrite <- (drop_drop l step start). apply take_drop.
    + apply Nat.ltb_ge in Hlt. rewrite drop_ge by lia. reflexivity.
Qed.

Lemma concat_slices {A} (l : list A) step :
  0 < step ->
  concat (map (fun i => lslice l i (i + step)) (range0 (List.length l) step)) = l.
Proof.
  intros Hstep. unfold range0. rewrite (concat_slices_from l step Hstep) by lia.
  apply drop_0.
Qed.

Lemma concat_map_filter {A} (P : A -> Prop) `{forall x, Decision (P x)} (ls : list (list A)) :
  concat (map (filter P) ls) = filter P (concat ls).
Proof.
  induction ls as [|l ls IH]; [reflexivity|].
  cbn [map concat]. now rewrite filter_app, IH.
Qed.

Lemma batch_index_files_results env file_paths s :
  map fst (fst (batch_index_files env file_paths s))
  = filter (fun p => readable env p = true) file_paths.
Proof.
  unfold batch_index_files. rewrite run_batches_paths, concat_map_filter.
  rewrite concat_slices by (unfold batch_size; lia). reflexivity.
Qed.

(** X10.  [batch_index_files] runs the indexing of every file of its list
    that can be read, once for each time the file is listed and in the order
    of the list, whatever the outcome of the files before it: a file that
    raises does not end the batch.  A file that cannot be read is skipped. *)
Theorem batch_indexes_every_readable_file env file_paths s :
  map fst (fst (batch_index_files env file_paths s))
  = filter (fun p => readable env p = true) file_paths.
Proof.
  unfold batch_index_files. rewrite run_batches_paths, concat_map_filter.
  rewrite concat_slices by (unfold batch_size; lia). reflexivity.
Qed.

Lemma index_batches_results env batches :
  forall s, map fst (fst (index_batches env batches s))
            = filter (fun p => readable env p = true) (concat batches).
Proof.
  induction batches as [|batch batches IH]; intros s; [reflexivity|].
  cbn [index_batches]. unfold index_files.
  pose proof (batch_index_files_results env batch s) as Hb.
  destruct (batch_index_files env batch s) as [results s1]. cbn [fst] in Hb.
  specialize (IH s1). destruct (index_batches env batches s1) as [more s2].
  cbn [fst concat] in *. now rewrite map_app, filter_app, Hb, IH.
Qed.

(** X11.  [initial_indexing] indexes every readable file that the walk
    meets, in the order of the walk, also a file whose row already holds the
    hash of its content: unlike [check_for_changes] it compares no hashes. *)
Theorem initial_indexing_indexes_every_file env all_files s :
  map fst (fst (initial_indexing env all_files s))
  = filter (fun p => readable env p = true) all_files.
Proof.
  unfold initial_indexing. cbn zeta. rewrite index_batches_results.
  rewrite concat_slices by lia. reflexivity.
Qed.

(** The contents of the tasks of a batch are contents that were read. *)
Lemma prepare_tasks_read env batch :
  forall s, Forall (fun task : Task => exists path, read_text env path = Some (snd task))
                   (fst (prepare_tasks env batch s)).
Proof.
  induction batch as [|p batch IH]; intros s; [constructor|].
  cbn [prepare_tasks]. destruct (read_text env p) as [content|] eqn:Hread; [|apply IH].
  destruct (upsert_file p (text_hash env content) s) as [[file_id|e] s1]; [|apply IH].
  specialize (IH s1). destruct (prepare_tasks env batch s1) as [tasks s2].
  cbn [fst] in *. constructor; [|exact IH]. exists p. exact Hread.
Qed.

(** An invariant of the upsert of a file row and of [index_file], for the
    contents that are read, is an invariant of a run of
    [batch_index_files]. *)
Section BatchInvariant.
Variable I : State -> Prop.
Variable env : Env.
Hypothesis I_upsert : forall path content,
  read_text env path = Some content -> keeps I (upsert_file path (text_hash env content)).
Hypothesis I_index : forall file_id content,
  (exists path, read_text env path = Some content) ->
  keeps I (index_file (embedding_model env) (clock env) file_id content (try_parse env content)).

Lemma prepare_tasks_keeps batch : forall s, I s -> I (snd (prepare_tasks env batch s)).
Proof.
  induction batch as [|p batch IH]; intros s Hs; [exact Hs|].
  cbn [prepare_tasks]. destruct (read_text env p) as [content|] eqn:Hread; [|now apply IH].
  pose proof (I_upsert p content Hread s Hs) as H1.
  destruct (upsert_file p (text_hash env content) s) as [[file_id|e] s1]; cbn [snd] in H1.
  - specialize (IH s1 H1). destruct (prepare_tasks env batch s1) as [tasks s2]. exact IH.
  - now apply IH.
Qed.

Lemma gather_keeps tasks :
  Forall (fun task : Task => exists path, read_text env path = Some (snd task)) tasks ->
  forall s, I s -> I (snd (gather env tasks s)).
Proof.
  induction 1 as [|[[p file_id] content] tasks Hread _ IH]; intros s Hs; [exact Hs|].
  cbn [gather]. pose proof (I_index file_id content Hread s Hs) as H1.
  destruct (index_file _ _ _ _ _ s) as [result s1]. cbn [snd] in H1.
  specialize (IH s1 H1). destruct (gather env tasks s1) as [results s2]. exact IH.
Qed.

Lemma run_batches_keeps batches : forall s, I s -> I (snd (run_batches env batches s)).
Proof.
  induction batches as [|batch batches IH]; intros s Hs; [exact Hs|].
  cbn [run_batches]. pose proof (prepare_tasks_keeps batch s Hs) as H1.
  pose proof (prepare_tasks_read env batch s) as Hread.
  destruct (prepare_tasks env batch s) as [tasks s1]. cbn [fst snd] in H1, Hread.
  pose proof (gather_keeps tasks Hread s1 H1) as H2.
  destruct (gather env tasks s1) as [results s2]. cbn [snd] in H2.
  specialize (IH s2 H2). destruct (run_batches env batches s2) as [more s3]. exact IH.
Qed.

Hypothesis I_fresh_cache : forall s, I s -> I (mkState (tables s) (seqs s) ∅).

Lemma batch_index_files_keeps file_paths s :
  I s -> I (snd (batch_index_files env file_paths s)).
Proof.
  intros Hs. unfold batch_index_files. apply run_batches_keeps, I_fresh_cache, Hs.
Qed.
End BatchInvariant.

(** ** The hash that a batch records *)

Lemma lookup_file_path t p row : lookup_file t p = Some row -> FileRow.path row = p.
Proof.
  unfold lookup_file. intros H. apply find_some in H. destruct H as [_ H].
  now apply String.eqb_eq.
Qed.

(** An update of rows that keeps their paths commutes with the lookup. *)
Lemma find_path_map (g : FileRow.t -> FileRow.t) files p :
  (forall f, FileRow.path (g f) = FileRow.path f) ->
  List.find (fun f => String.eqb (FileRow.path f) p) (map g files)
  = option_map g (List.find (fun f => String.eqb (FileRow.path f) p) files).
Proof.
  intros Hg. induction files as [|f files IH]; [reflexivity|].
  cbn [map List.find]. rewrite Hg. destruct (String.eqb (FileRow.path f) p); [reflexivity|].
  exact IH.
Qed.

Lemma set_indexing_path h p f : FileRow.path (set_indexing h p f) = FileRow.path f.
Proof.
  unfold set_indexing. destruct (String.eqb (FileRow.path f) p) eqn:Heq; [|reflexivity].
  cbn. symmetry. now apply String.eqb_eq.
Qed.

Lemma mark_indexed_path now file_id f : FileRow.path (mark_indexed now file_id f) = FileRow.path f.
Proof. unfold mark_indexed. destruct (_ =? _); reflexivity. Qed.

Lemma mark_indexed_hash now file_id f :
  FileRow.content_hash (mark_indexed now file_id f) = FileRow.content_hash f.
Proof. unfold mark_indexed. destruct (_ =? _); reflexivity. Qed.

Lemma find_app_found {A} (f : A -> bool) l l' x :
  List.find f l = Some x -> List.find f (l ++ l') = Some x.
Proof.
  induction l as [|y l IH]; cbn; [discriminate|]. destruct (f y); [auto | exact IH].
Qed.

Lemma find_app_missing {A} (f : A -> bool) l l' :
  List.find f l = None -> List.find f (l ++ l') = List.find f l'.
Proof.
  induction l as [|y l IH]; cbn; [reflexivity|]. destruct (f y); [discriminate | exact IH].
Qed.

(** The upsert of the row of [p] with the hash [h] makes the row hold it. *)
Lemma upsert_file_sets_hash p h s : holds_hash p h (snd (upsert_file p h s)).
Proof.
  unfold holds_hash, upsert_file.
  destruct (lookup_file (tables s) p) as [row|] eqn:Hrow; cbn [snd tables].
  - pose proof (lookup_file_path _ _ _ Hrow) as Hpath.
    unfold lookup_file in *. cbn [DB.files].
    rewrite (find_path_map _ _ p (set_indexing_path h p)), Hrow.
    eexists. split; [reflexivity|].
    unfold set_indexing. rewrite Hpath, String.eqb_refl. reflexivity.
  - unfold lookup_file in *. cbn [DB.files].
    rewrite (find_app_missing _ _ _ Hrow). cbn [List.find FileRow.path].
    rewrite String.eqb_refl. eexists. split; reflexivity.
Qed.

(** The upsert of another row, or of the same row with the same hash,
    leaves the hash in place. *)
Lemma upsert_file_keeps_hash p h p' h' :
  (p' = p -> h' = h) -> keeps (holds_hash p h) (upsert_file p' h').
Proof.
  intros Hsame s (row & Hrow & Hhash). unfold holds_hash, upsert_file.
  pose proof (lookup_file_path _ _ _ Hrow) as Hpath.
  destruct (lookup_file (tables s) p') as [row'|] eqn:Hrow'; cbn [snd tables].
  - unfold lookup_file in *. cbn [DB.files].
    rewrite (find_path_map _ _ p (set_indexing_path h' p')), Hrow.
    eexists. split; [reflexivity|].
    unfold set_indexing. destruct (String.eqb (FileRow.path row) p') eqn:Heq; [|exact Hhash].
    cbn. apply Hsame. apply String.eqb_eq in Heq. congruence.
  - exists row. split; [|exact Hhash]. unfold lookup_file in *. cbn [DB.files].
    apply find_app_found. exact Hrow.
Qed.

Lemma index_file_keeps_hash em now file_id content parsed p h :
  keeps (holds_hash p h) (index_file em now file_id content parsed).
Proof.
  intros s (row & Hrow & Hhash). unfold holds_hash, lookup_file in *.
  pose proof (index_file_files em now file_id content parsed s) as Hfiles. cbn zeta in Hfiles.
  rewrite Hfiles. clear Hfiles.
  destruct parsed as [p0|]; [destruct (fst _) as [a|e]|].
  - rewrite (find_path_map _ _ p (mark_indexed_path now file_id)), Hrow.
    eexists. split; [reflexivity|]. now rewrite mark_indexed_hash.
  - exists row. split; [exact Hrow | exact Hhash].
  - exists row. split; [exact Hrow | exact Hhash].
Qed.

Lemma prepare_tasks_sets_hash env batch p content :
  In p batch -> read_text env p = Some content ->
  forall s, holds_hash p (text_hash env content) (snd (prepare_tasks env batch s)).
Proof.
  intros Hin Hread.
  assert (Hkeep : forall batch s, holds_hash p (text_hash env content) s ->
            holds_hash p (text_hash env content) (snd (prepare_tasks env batch s))).
  { intros b. induction b as [|p' b IH]; intros s Hs; [exact Hs|].
    cbn [prepare_tasks]. destruct (read_text env p') as [content'|] eqn:Hread'; [|now apply IH].
    assert (H1 : holds_hash p (text_hash env content)
                   (snd (upsert_file p' (text_hash env content') s))).
    { apply upsert_file_keeps_hash; [|exact Hs]. intros ->. congruence. }
    destruct (upsert_file p' (text_hash env content') s) as [[file_id|e] s1]; cbn [snd] in H1.
    - specialize (IH s1 H1). destruct (prepare_tasks env b s1) as [tasks s2]. exact IH.
    - now apply IH. }
  induction batch as [|p' batch IH]; intros s; [destruct Hin|].
  cbn [prepare_tasks]. destruct (String.eqb_spec p' p) as [->|Hne].
  - rewrite Hread.
    pose proof (upsert_file_sets_hash p (text_hash env content) s) as H1.
    destruct (upsert_file p (text_hash env content) s) as [[file_id|e] s1]; cbn [snd] in H1.
    + pose proof (Hkeep batch s1 H1) as H2.
      destruct (prepare_tasks env batch s1) as [tasks s2]. exact H2.
    + now apply Hkeep.
  - destruct Hin as [Heq|Hin]; [congruence|]. specialize (IH Hin).
    destruct (read_text env p') as [content'|]; [|apply IH].
    destruct (upsert_file p' (text_hash env content') s) as [[file_id|e] s1].
    + specialize (IH s1). destruct (prepare_tasks env batch s1) as [tasks s2]. exact IH.
    + apply IH.
Qed.

Lemma run_batches_sets_hash env batches p content :
  In p (concat batches) -> read_text env p = Some content ->
  forall s, holds_hash p (text_hash env content) (snd (run_batches env batches s)).
Proof.
  intros Hin Hread.
  assert (Hup : forall path content',
            read_text env path = Some content' ->
            keeps (holds_hash p (text_hash env content))
                  (upsert_file path (text_hash env content'))).
  { intros path content' Hread'. apply upsert_file_keeps_hash. intros ->. congruence. }
  induction batches as [|batch batches IH]; intros s; [destruct Hin|].
  cbn [run_batches]. cbn [concat] in Hin. apply in_app_or in Hin.
  destruct Hin as [Hin|Hin].
  - pose proof (prepare_tasks_sets_hash env batch p content Hin Hread s) as H1.
    pose proof (prepare_tasks_read env batch s) as Htasks.
    destruct (prepare_tasks env batch s) as [tasks s1]. cbn [fst snd] in H1, Htasks.
    pose proof (gather_keeps _ env (fun fid c _ => index_file_keeps_hash _ _ fid c _ _ _)
                  tasks Htasks s1 H1) as H2.
    destruct (gather env tasks s1) as [results s2]. cbn [snd] in H2.
    pose proof (run_batches_keeps _ env Hup
                  (fun fid c _ => index_file_keeps_hash _ _ fid c _ _ _) batches s2 H2) as H3.
    destruct (run_batches env batches s2) as [more s3]. exact H3.
  - destruct (prepare_tasks env batch s) as [tasks s1].
    destruct (gather env tasks s1) as [results s2].
    specialize (IH Hin s2). destruct (run_batches env batches s2) as [more s3]. exact IH.
Qed.

(** X12.  A batch records the hash of the content it read before it
    indexes the file, and no outcome of the indexing takes it back: after
    [batch_index_files], the row of every readable file of the list holds
    the hash of its content, also when the indexing of the file raised.
    When that hash is the one that change detection computes for the file,
    the next cycle of change detection does not index the file. *)
Theorem failed_file_is_recorded_and_not_retried env file_paths s p content :
  In p file_paths ->
  read_text env p = Some content ->
  let s' := snd (batch_index_files env file_paths s) in
  holds_hash p (text_hash env content) s'
  /\ (file_hash env p = text_hash env content ->
      forall candidates,
        ~ In p (map fst (fst (check_for_changes env candidates s')))).
Proof.
  intros Hin Hread. cbn zeta.
  assert (Hhash : holds_hash p (text_hash env content)
                    (snd (batch_index_files env file_paths s))).
  { unfold batch_index_files. apply run_batches_sets_hash; [|exact Hread].
    fold (batches_of file_paths). now apply in_batches_of. }
  split; [exact Hhash|].
  intros Hsame candidates Hindexed.
  set (s' := snd (batch_index_files env file_paths s)) in *.
  assert (Hchanged : is_changed env (tables s') p = true).
  { unfold check_for_changes in Hindexed.
    destruct (filter _ candidates) as [|c changed] eqn:Hf; [destruct Hindexed|].
    apply batch_index_files_paths in Hindexed. destruct Hindexed as [Hp _].
    rewrite <- Hf in Hp. apply list_elem_of_In, list_elem_of_filter in Hp. apply Hp. }
  destruct Hhash as (row & Hrow & Hh). unfold is_changed in Hchanged.
  rewrite Hrow, Hh, Hsame, String.eqb_refl in Hchanged. discriminate Hchanged.
Qed.

(** The one file of the store is indexed with an embedding model that
    raises: the outcome is an exception, the row holds the hash of the
    content, and the next cycle leaves the file alone. *)
Lemma failed_file_is_recorded_and_not_retried_witness :
  let env := MoreExamples.one_file_env MoreExamples.failing_encoder in
  let r := batch_index_files env ["a.cpp"] Examples.one_file_store in
  fst r = [("a.cpp", Raise EmbeddingError)]
  /\ holds_hash "a.cpp" Examples.nested_source (snd r)
  /\ ~ In "a.cpp" (map fst (fst (check_for_changes env ["a.cpp"] (snd r)))).
Proof.
  cbn zeta. split; [vm_compute; reflexivity|].
  destruct (failed_file_is_recorded_and_not_retried
              (MoreExamples.one_file_env MoreExamples.failing_encoder) ["a.cpp"]
              Examples.one_file_store "a.cpp" Examples.nested_source)
    as [Hhash Hskip]; [now left | reflexivity |].
  split; [exact Hhash | apply Hskip; reflexivity].
Defined.

(** ** The graph after a batch *)

Lemma keeps_closed_upsert_file path h : keeps closed (upsert_file path h).
Proof.
  apply keeps_closed_same. intros s. unfold upsert_file.
  destruct (lookup_file (tables s) path); split; reflexivity.
Qed.

(** X13.  A run of [batch_index_files] over a store in which every edge
    joins two entity rows leaves such a store, whichever files fail to
    parse and whichever raise. *)
Theorem batch_keeps_every_edge_between_entities env file_paths s :
  edges_closed (tables s) ->
  edges_closed (tables (snd (batch_index_files env file_paths s))).
Proof.
  apply (batch_index_files_keeps closed env).
  - intros path content _. apply keeps_closed_upsert_file.
  - intros file_id content _. apply index_file_keeps_closed.
  - intros s0 Hs0. exact Hs0.
Qed.

(** A batch over the store that holds the edge from [Derived] to [Base]:
    the parse of [b.cpp] succeeds and its indexing raises, the parse of
    [d.cpp] fails and its indexing raises; the edge is still there. *)
Lemma batch_keeps_every_edge_between_entities_witness :
  try_parse MoreExamples.faulty_env Examples.long_content = None
  /\ fst (batch_index_files MoreExamples.faulty_env ["b.cpp"; "d.cpp"]
            MoreExamples.edges_store)
     = [("b.cpp", Raise EmbeddingError); ("d.cpp", Raise EmbeddingError)]
  /\ map (fun r => (RelationshipRow.from_entity_id r, RelationshipRow.to_entity_id r))
         (DB.relationships (tables MoreExamples.edges_store)) = [(2, 1)]
  /\ map (fun r => (RelationshipRow.from_entity_id r, RelationshipRow.to_entity_id r))
         (DB.relationships
            (tables (snd (batch_index_files MoreExamples.faulty_env ["b.cpp"; "d.cpp"]
                            MoreExamples.edges_store)))) = [(2, 1)]
  /\ edges_closed
       (tables (snd (batch_index_files MoreExamples.faulty_env ["b.cpp"; "d.cpp"]
                       MoreExamples.edges_store))).
Proof.
  assert (Hclosed : edges_closed (tables MoreExamples.edges_store)).
  { unfold edges_closed. vm_compute. repeat constructor. }
  split; [vm_compute; reflexivity|]. split; [vm_compute; reflexivity|].
  split; [vm_compute; reflexivity|]. split; [vm_compute; reflexivity|].
  exact (batch_keeps_every_edge_between_entities MoreExamples.faulty_env
           ["b.cpp"; "d.cpp"] MoreExamples.edges_store Hclosed).
Defined.

(* ===================================================================== *)
(** * Further properties of the server functions                           *)
(* ===================================================================== *)

(** ** What the patterns of the queries match *)

Lemma append_cons c p q : String c p +:+ q = String c (p +:+ q).
Proof. reflexivity. Qed.

Lemma append_empty q : "" +:+ q = q.
Proof. reflexivity. Qed.

Lemma like_percent_unfold q s :
  sql_like (String "%" q) s
  = sql_like q s || match s with
                    | EmptyString => false
                    | String _ s' => sql_like (String "%" q) s'
                    end.
Proof. destruct s; reflexivity. Qed.

(** A [%] at the head of a pattern lets the rest match any tail. *)
Lemma like_percent_iff q s :
  sql_like (String "%" q) s = true
  <-> exists before rest, s = before +:+ rest /\ sql_like q rest = true.
Proof.
  split.
  - induction s as [|c s IH]; rewrite like_percent_unfold; intros H;
      apply orb_true_iff in H; destruct H as [H|H]; try discriminate.
    + exists "", "". split; [reflexivity | exact H].
    + exists "", (String c s). split; [reflexivity | exact H].
    + destruct (IH H) as (before & rest & -> & Hrest).
      exists (String c before), rest. split; [reflexivity | exact Hrest].
  - intros (before & rest & -> & Hrest).
    induction before as [|c before IH]; rewrite like_percent_unfold.
    + rewrite append_empty, Hrest. reflexivity.
    + rewrite append_cons, IH. apply orb_true_r.
Qed.

Lemma like_percent_all s : sql_like "%" s = true.
Proof.
  apply like_percent_iff. exists s, "". split; [|reflexivity].
  induction s as [|c s IH]; [reflexivity|]. rewrite append_cons. now rewrite <- IH.
Qed.

(** A pattern without [%] and backslash, followed by [%], matches the
    strings that begin like it. *)
Lemma like_plain_prefix p :
  like_plain p = true -> forall s, sql_like (p +:+ "%") s = starts_like p s.
Proof.
  induction p as [|c p IH]; intros Hplain s.
  - rewrite append_empty. apply like_percent_all.
  - cbn [like_plain] in Hplain. apply andb_true_iff in Hplain. destruct Hplain as [Hc Hp].
    apply andb_true_iff in Hc. destruct Hc as [Hpercent Hslash].
    apply negb_true_iff in Hpercent, Hslash.
    rewrite append_cons. cbn [sql_like starts_like]. rewrite Hpercent, Hslash.
    destruct (Ascii.eqb c "_"); destruct s as [|d s]; cbn [orb andb]; try reflexivity.
    + apply IH, Hp.
    + f_equal. apply IH, Hp.
Qed.

Lemma like_literal_plain p : like_literal p = true -> like_plain p = true.
Proof.
  induction p as [|c p IH]; [reflexivity|]. cbn [like_literal like_plain].
  unfold like_special. intros H. apply andb_true_iff in H. destruct H as [Hc Hp].
  rewrite (IH Hp). destruct (Ascii.eqb c "%"), (Ascii.eqb c "\"); try reflexivity;
    rewrite ?orb_true_r in Hc; discriminate.
Qed.

(** Without an underscore, to begin like [p] is to begin with [p]. *)
Lemma starts_like_literal p :
  like_literal p = true ->
  forall s, starts_like p s = true <-> exists rest, s = p +:+ rest.
Proof.
  induction p as [|c p IH]; intros Hlit s.
  - split; [intros _; exists s; reflexivity | reflexivity].
  - cbn [like_literal] in Hlit. apply andb_true_iff in Hlit. destruct Hlit as [Hc Hp].
    assert (Hu : Ascii.eqb c "_" = false).
    { unfold like_special in Hc. destruct (Ascii.eqb c "_"); [|reflexivity].
      rewrite orb_true_r in Hc. discriminate. }
    destruct s as [|d s]; cbn [starts_like].
    + split; [discriminate | intros [rest H]; discriminate].
    + rewrite Hu. cbn [orb]. rewrite andb_true_iff, Ascii.eqb_eq, (IH Hp s). split.
      * intros [-> [rest ->]]. exists rest. reflexivity.
      * intros [rest H]. rewrite append_cons in H. injection H as -> ->. eauto.
Qed.

(** The pattern of the symbol queries, for a symbol without wildcards:
    the name contains the symbol. *)
Lemma like_contains x s :
  like_literal x = true ->
  sql_like ("%" +:+ x +:+ "%") s = true <-> contains x s.
Proof.
  intros Hlit. rewrite append_cons, append_empty, like_percent_iff. unfold contains.
  split.
  - intros (before & rest & -> & Hrest).
    rewrite (like_plain_prefix x (like_literal_plain x Hlit)) in Hrest.
    apply (starts_like_literal x Hlit) in Hrest. destruct Hrest as [after ->]. eauto.
  - intros (before & after & ->). exists before, (x +:+ after). split; [reflexivity|].
    rewrite (like_plain_prefix x (like_literal_plain x Hlit)).
    apply (starts_like_literal x Hlit). eauto.
Qed.

(** ** [find_symbol] *)

(** X14.  For a symbol without the characters [%], [_] and backslash,
    [find_symbol] is a search for the symbol as a part of a qualified name:
    it answers "not found" exactly when no entity with a file has a
    qualified name that contains the symbol or has the symbol as its simple
    name; the comparison is by character, so the case matters.  At most 9
    other matches are listed. *)
Theorem find_symbol_searches_for_a_part_of_the_name
    (t : DB.Tables) (symbol : string) (include_usages : bool) (max_usages : nat) :
  like_literal symbol = true ->
  (find_symbol t symbol include_usages max_usages = None
   <-> Forall (fun ef => ~ contains symbol (EntityRow.qualified_name (fst ef))
                         /\ EntityRow.simple_name (fst ef) <> symbol)
              (entities_with_file t))
  /\ match find_symbol t symbol include_usages max_usages with
     | Some r =>
         (contains symbol (SymbolResult.symbol r)
          \/ exists e file_path, In (e, file_path) (entities_with_file t)
                                 /\ EntityRow.qualified_name e = SymbolResult.symbol r
                                 /\ EntityRow.simple_name e = symbol)
         /\ List.length (SymbolResult.other_matches r) <= 9
     | None => True
     end.
Proof.
  intros Hlit.
  assert (Hmatch : forall e, symbol_matches symbol e = true
                             <-> contains symbol (EntityRow.qualified_name e)
                                 \/ EntityRow.simple_name e = symbol).
  { intros e. unfold symbol_matches.
    rewrite orb_true_iff, (like_contains symbol _ Hlit), String.eqb_eq. reflexivity. }
  unfold find_symbol, symbol_candidates.
  destruct (filter _ (entities_with_file t)) as [|[entity file_path] rest] eqn:Hf.
  - cbn [take]. split; [|exact I]. split; [|reflexivity]. intros _.
    apply Forall_forall. intros ef Hef.
    assert (Hno : symbol_matches symbol (fst ef) <> true).
    { intros Hyes.
      assert (Hin : ef ∈ filter (fun ef => symbol_matches symbol (fst ef) = true)
                                (entities_with_file t))
        by (apply list_elem_of_filter; split; assumption).
      rewrite Hf in Hin. inversion Hin. }
    rewrite Hmatch in Hno. tauto.
  - assert (Hin : (entity, file_path) ∈ filter (fun ef => symbol_matches symbol (fst ef) = true)
                                               (entities_with_file t))
      by (rewrite Hf; left).
    apply list_elem_of_filter in Hin. destruct Hin as [Hyes Hin]. cbn [fst] in Hyes.
    cbn [take]. split.
    + split; [discriminate|]. intros Hall. exfalso.
      rewrite Forall_forall in Hall. specialize (Hall _ Hin). cbn [fst] in Hall.
      apply Hmatch in Hyes. tauto.
    + cbn [SymbolResult.symbol SymbolResult.other_matches]. split.
      * apply Hmatch in Hyes. destruct Hyes as [Hc|Hs]; [now left|].
        right. exists entity, file_path. apply list_elem_of_In in Hin. auto.
      * rewrite length_map, length_take. lia.
Qed.

Lemma find_symbol_searches_for_a_part_of_the_name_witness :
  exists r, find_symbol Examples.lookup_tables "foo" true 5 = Some r
            /\ contains "foo" (SymbolResult.symbol r).
Proof.
  destruct (find_symbol_searches_for_a_part_of_the_name Examples.lookup_tables "foo" true 5
              eq_refl) as [_ Hfound].
  destruct (find_symbol Examples.lookup_tables "foo" true 5) as [r|] eqn:Hr;
    [|vm_compute in Hr; discriminate].
  exists r. split; [reflexivity|].
  destruct Hfound as [[Hc|(e & file_path & _ & Hqn & _)] _]; [exact Hc|].
  exists "ns::", "bar". vm_compute in Hr. injection Hr as <-. reflexivity.
Defined.

Lemma like_percents p :
  (forall c, In c (list_ascii_of_string p) -> c = "%"%char) ->
  p <> "" -> forall s, sql_like p s = true.
Proof.
  induction p as [|c p IH]; intros Hall Hne s; [congruence|].
  assert (Hc : c = "%"%char) by (apply Hall; now left). subst c.
  destruct p as [|c' p'].
  - apply like_percent_all.
  - apply like_percent_iff. exists "", s. split; [reflexivity|].
    apply IH; [|discriminate]. intros c Hc. apply Hall. now right.
Qed.

(** X15.  The symbol is put into the pattern as it is.  For the empty
    symbol, and for a symbol of [%] characters only, every entity matches:
    the candidates are the first ten entities of the store, and
    [find_symbol] answers with the first entity of the store, or with
    "not found" when no entity has a file. *)
Theorem find_symbol_takes_wildcards_from_the_symbol
    (t : DB.Tables) (symbol : string) (include_usages : bool) (max_usages : nat) :
  (forall c, In c (list_ascii_of_string symbol) -> c = "%"%char) ->
  symbol_candidates t symbol = take 10 (entities_with_file t)
  /\ (find_symbol t symbol include_usages max_usages = None <-> entities_with_file t = [])
  /\ option_map SymbolResult.symbol (find_symbol t symbol include_usages max_usages)
     = option_map (fun ef => EntityRow.qualified_name (fst ef)) (head (entities_with_file t)).
Proof.
  intros Hall.
  assert (Hany : forall e, symbol_matches symbol e = true).
  { intros e. unfold symbol_matches. rewrite like_percents; [reflexivity| |].
    - intros c Hc. rewrite append_cons, append_empty in Hc. cbn [list_ascii_of_string] in Hc.
      destruct Hc as [<-|Hc]; [reflexivity|].
      clear -Hall Hc. induction symbol as [|d symbol IH].
      + cbn in Hc. destruct Hc as [<-|[]]. reflexivity.
      + rewrite append_cons in Hc. cbn [list_ascii_of_string] in Hc. destruct Hc as [<-|Hc].
        * apply Hall. now left.
        * apply IH; [|exact Hc]. intros c' Hc'. apply Hall. now right.
    - rewrite append_cons. discriminate. }
  assert (Hf : filter (fun ef => symbol_matches symbol (fst ef) = true) (entities_with_file t)
               = entities_with_file t).
  { induction (entities_with_file t) as [|ef l IH]; [reflexivity|].
    rewrite filter_cons_True by apply Hany. now rewrite IH. }
  unfold find_symbol, symbol_candidates. rewrite Hf.
  split; [reflexivity|].
  destruct (entities_with_file t) as [|[entity file_path] rest]; cbn [take head option_map].
  - split; [split; reflexivity | reflexivity].
  - split; [split; discriminate | reflexivity].
Qed.

Lemma find_symbol_takes_wildcards_from_the_symbol_witness :
  option_map SymbolResult.symbol (find_symbol Examples.lookup_tables "" false 0)
  = Some "ns::foobar".
Proof.
  destruct (find_symbol_takes_wildcards_from_the_symbol Examples.lookup_tables "" false 0)
    as (_ & _ & ->); [intros c []|]. reflexivity.
Defined.

(** ** [delete_directory_data] *)

Lemma prefix_starts_like p : forall s, String.prefix p s = true -> starts_like p s = true.
Proof.
  induction p as [|c p IH]; intros [|d s] H; cbn [String.prefix starts_like] in *;
    try reflexivity; try discriminate.
  destruct (ascii_dec c d) as [->|Hne]; [|discriminate].
  rewrite Ascii.eqb_refl, orb_true_r. cbn [andb]. now apply IH.
Qed.

Lemma filter_split_length {A} (f : A -> bool) (l : list A) :
  List.length (filter (fun x => f x = true) l) + List.length (filter (fun x => f x = false) l)
  = List.length l.
Proof.
  induction l as [|x l IH]; [reflexivity|].
  destruct (f x) eqn:Hx.
  - rewrite filter_cons_True by exact Hx.
    rewrite (filter_cons_False (fun x => f x = false)) by (rewrite Hx; discriminate).
    cbn [List.length]. lia.
  - rewrite filter_cons_False by (rewrite Hx; discriminate).
    rewrite (filter_cons_True (fun x => f x = false)) by exact Hx.
    cbn [List.length]. lia.
Qed.

(** X16.  [delete_directory_data] removes the file rows by a match on the
    text of the path, not by directory.  For a path without [%] and
    backslash, the rows that stay are those whose path does not begin like
    the given path, an underscore of which stands for any character; so
    every file whose path begins with the characters of the given path is
    removed, also a file of a neighbouring directory whose name only begins
    with the same characters.  The number returned is the number of file
    rows removed. *)
Theorem delete_directory_matches_the_text_of_the_path (path : string) (t : DB.Tables) :
  like_plain path = true ->
  let r := delete_directory_data path t in
  DB.files (snd r)
  = filter (fun f => starts_like path (FileRow.path f) = false) (DB.files t)
  /\ fst r + List.length (DB.files (snd r)) = List.length (DB.files t)
  /\ Forall (fun f => startswith path (FileRow.path f) = true -> ~ In f (DB.files (snd r)))
            (DB.files t).
Proof.
  intros Hplain. cbn zeta. unfold delete_directory_data. cbn [fst snd DB.files].
  assert (Hfiles : filter (fun f => under_path path f = false) (DB.files t)
                   = filter (fun f => starts_like path (FileRow.path f) = false) (DB.files t)).
  { apply list_filter_iff. intros f. unfold under_path.
    now rewrite (like_plain_prefix path Hplain). }
  split; [exact Hfiles|]. split; [apply filter_split_length|].
  apply Forall_forall. intros f _ Hstarts Hin.
  rewrite Hfiles in Hin. apply list_elem_of_In, list_elem_of_filter in Hin.
  destruct Hin as [Hnot _]. unfold startswith in Hstarts.
  apply prefix_starts_like in Hstarts. congruence.
Qed.

(** Deleting [/src/ab] from a store that holds a file of [/src/ab] and a
    file of [/src/abc] removes both rows. *)
Lemma delete_directory_matches_the_text_of_the_path_witness :
  let t := DB.mkTables [FileRow.mk 1 "/src/ab/x.cpp" "h" "indexed" None;
                        FileRow.mk 2 "/src/abc/y.cpp" "h" "indexed" None;
                        FileRow.mk 3 "/lib/z.cpp" "h" "indexed" None] [] [] [] in
  let r := delete_directory_data "/src/ab" t in
  fst r = 2 /\ map FileRow.path (DB.files (snd r)) = ["/lib/z.cpp"].
Proof.
  cbn zeta.
  destruct (delete_directory_matches_the_text_of_the_path "/src/ab"
              (DB.mkTables [FileRow.mk 1 "/src/ab/x.cpp" "h" "indexed" None;
                            FileRow.mk 2 "/src/abc/y.cpp" "h" "indexed" None;
                            FileRow.mk 3 "/lib/z.cpp" "h" "indexed" None] [] [] [])
              eq_refl) as (Hfiles & Hcount & _).
  rewrite Hfiles in Hcount |- *. split; [|reflexivity].
  cbn in Hcount. vm_compute in Hcount |- *. lia.
Defined.

(** X17.  After [delete_directory_data] no entity and no chunk of a removed
    file is left, and the store is as sound as it was: every edge still
    joins two entity rows when it did before, and every entity still has
    its file row when it had one before. *)
Theorem delete_directory_leaves_no_row_of_a_removed_file (path : string) (t : DB.Tables) :
  let t' := snd (delete_directory_data path t) in
  let removed := filter (fun f => under_path path f = true) (DB.files t) in
  Forall (fun e => Forall (fun f => EntityRow.file_id e <> FileRow.id f) removed)
         (DB.entities t')
  /\ Forall (fun c => Forall (fun f => ChunkRow.file_id c <> FileRow.id f) removed)
            (DB.code_chunks t')
  /\ (edges_closed t -> edges_closed t')
  /\ (entities_have_files t -> entities_have_files t').
Proof.
  cbn zeta. unfold delete_directory_data. cbn [snd].
  set (removed := filter (fun f => under_path path f = true) (DB.files t)).
  set (dead_files := map FileRow.id removed).
  set (dead := cascade_closure _ _ _).
  assert (Hdead : forall e, In e (DB.entities t) ->
                            mem (EntityRow.file_id e) dead_files = true ->
                            mem (EntityRow.id e) dead = true).
  { intros e He Hfile. apply mem_true_iff. unfold dead. apply cascade_closure_incl.
    apply in_map_iff. exists e. split; [reflexivity|].
    apply list_elem_of_In, list_elem_of_filter. split; [exact Hfile | now apply list_elem_of_In]. }
  assert (Hremoved : forall f, In f removed -> mem (FileRow.id f) dead_files = true).
  { intros f Hf. apply mem_true_iff. unfold dead_files. now apply in_map. }
  cbn [DB.entities DB.code_chunks DB.files DB.relationships].
  split; [|split; [|split]].
  - apply Forall_forall. intros e He. apply list_elem_of_filter in He.
    destruct He as [Hlive He]. apply Forall_forall. intros f Hf Heq.
    apply list_elem_of_In in He, Hf.
    rewrite (Hdead e He) in Hlive; [discriminate|]. rewrite Heq. now apply Hremoved.
  - apply Forall_forall. intros c Hc. apply list_elem_of_filter in Hc.
    destruct Hc as [Hlive Hc]. apply Forall_forall. intros f Hf Heq.
    apply list_elem_of_In in Hf. apply orb_false_iff in Hlive. destruct Hlive as [Hlive _].
    rewrite Heq, (Hremoved f Hf) in Hlive. discriminate.
  - unfold edges_closed. cbn [DB.relationships DB.entities]. intros Hclosed.
    apply Forall_forall. intros r Hr. apply list_elem_of_filter in Hr.
    destruct Hr as [Hlive Hr]. rewrite Forall_forall in Hclosed.
    destruct (Hclosed r Hr) as [Hf Ht].
    apply orb_false_iff in Hlive. destruct Hlive as [Lf Lt].
    assert (Hkeep : forall id, entity_exists t id = true -> mem id dead = false ->
              mem id (map EntityRow.id
                        (filter (fun e => mem (EntityRow.id e) dead = false)
                                (DB.entities t))) = true).
    { intros id Hid Hd. unfold entity_exists in Hid.
      apply mem_true_iff, in_map_iff in Hid. destruct Hid as (e & <- & He).
      apply mem_true_iff, in_map_iff. exists e. split; [reflexivity|].
      apply list_elem_of_In, list_elem_of_filter. split; [exact Hd | now apply list_elem_of_In]. }
    unfold entity_exists. cbn [DB.entities]. split; now apply Hkeep.
  - unfold entities_have_files. cbn [DB.entities DB.files]. intros Hhave.
    apply Forall_forall. intros e He. apply list_elem_of_filter in He.
    destruct He as [Hlive He]. rewrite Forall_forall in Hhave.
    destruct (Hhave e He) as (f & Hf & Hid). exists f. split; [|exact Hid].
    apply list_elem_of_In, list_elem_of_filter. split; [|now apply list_elem_of_In].
    destruct (under_path path f) eqn:Hunder; [|reflexivity]. exfalso.
    assert (Hin : In f removed).
    { apply list_elem_of_In, list_elem_of_filter. split; [exact Hunder | now apply list_elem_of_In]. }
    apply list_elem_of_In in He.
    rewrite (Hdead e He) in Hlive; [discriminate|]. rewrite <- Hid. now apply Hremoved.
Qed.

(** ** [trace_dependencies] *)

Lemma entities_with_file_all t :
  entities_have_files t -> map fst (entities_with_file t) = DB.entities t.
Proof.
  unfold entities_have_files, entities_with_file.
  induction (DB.entities t) as [|e ents IH]; intros Hall; [reflexivity|].
  inversion Hall as [|? ? (f & Hf & Hid) Hrest]; subst.
  destruct (List.find (fun f => FileRow.id f =? EntityRow.file_id e) (DB.files t))
    as [f'|] eqn:Hfind.
  - cbn [omap list_omap]. rewrite Hfind. cbn [option_map map fst]. f_equal. now apply IH.
  - exfalso. apply (find_none _ _ Hfind) in Hf. apply Nat.eqb_neq in Hf. congruence.
Qed.

Lemma head_filter_find {A B} (P : A -> bool) (l : list (A * B)) :
  option_map fst (head (filter (fun ab => P (fst ab) = true) l))
  = List.find P (map fst l).
Proof.
  induction l as [|[a b] l IH]; [reflexivity|]. cbn [map List.find fst].
  destruct (P a) eqn:Ha.
  - rewrite filter_cons_True by exact Ha. reflexivity.
  - rewrite filter_cons_False by (cbn; rewrite Ha; discriminate). exact IH.
Qed.

(** X18.  In a store where every entity has its file row,
    [trace_dependencies] answers "not found" exactly when [find_symbol]
    does: when no entity has a qualified name that matches the name as a
    pattern or a simple name that is the name.  When they answer, each
    names an entity of the store that matches the name in this way; which
    of several such entities each of them names is left to the store. *)
Theorem trace_and_find_symbol_agree_on_not_found
    (t : DB.Tables) (name direction : string) (depth : nat)
    (relationship_types : list string) (include_usages : bool) (max_usages : nat) :
  entities_have_files t ->
  (trace_dependencies t name direction depth relationship_types = None
   <-> find_symbol t name include_usages max_usages = None)
  /\ (find_symbol t name include_usages max_usages = None
      <-> forall e, In e (DB.entities t) -> symbol_matches name e = false)
  /\ (forall r, trace_dependencies t name direction depth relationship_types = Some r ->
        exists e, In e (DB.entities t) /\ symbol_matches name e = true
                  /\ Trace.target r = EntityRow.qualified_name e
                  /\ Trace.type r = EntityRow.type e)
  /\ (forall r, find_symbol t name include_usages max_usages = Some r ->
        exists e, In e (DB.entities t) /\ symbol_matches name e = true
                  /\ SymbolResult.symbol r = EntityRow.qualified_name e
                  /\ SymbolResult.type r = EntityRow.type e).
Proof.
  intros Hhave.
  pose proof (head_filter_find (symbol_matches name) (entities_with_file t)) as Hfind.
  rewrite (entities_with_file_all t Hhave) in Hfind. symmetry in Hfind.
  unfold trace_dependencies, trace_target, find_symbol, symbol_candidates.
  destruct (filter _ (entities_with_file t)) as [|[entity file_path] rest];
    cbn [head option_map fst] in Hfind; rewrite Hfind.
  - split; [tauto|]. split; [|split; discriminate].
    split; [intros _; apply (find_none _ _ Hfind) | reflexivity].
  - apply find_some in Hfind. destruct Hfind as [Hin Hmatch].
    split; [split; discriminate|]. split.
    + split; [discriminate|]. intros Hnone. rewrite (Hnone entity Hin) in Hmatch.
      discriminate.
    + split; intros r [= <-]; exists entity; repeat split; assumption.
Qed.

(** No entity of [derived_store] matches the name [Gone]: both answer
    "not found". *)
Lemma trace_and_find_symbol_agree_on_not_found_witness :
  trace_dependencies MoreExamples.derived_store "Gone" "both" 3 ["inherits"] = None
  /\ find_symbol MoreExamples.derived_store "Gone" true 5 = None.
Proof.
  assert (Hhave : entities_have_files MoreExamples.derived_store).
  { unfold entities_have_files. vm_compute.
    repeat constructor;
      solve [ eexists; split; [left; reflexivity | reflexivity]
            | eexists; split; [right; left; reflexivity | reflexivity] ]. }
  split; [vm_compute; reflexivity|].
  apply (proj1 (trace_and_find_symbol_agree_on_not_found MoreExamples.derived_store
                  "Gone" "both" 3 ["inherits"] true 5 Hhave)).
  vm_compute. reflexivity.
Defined.

Lemma NoDup_take_of {A} (l : list A) n : NoDup l -> NoDup (take n l).
Proof.
  intros H. rewrite <- (take_drop n l) in H. now apply NoDup_app in H.
Qed.

Lemma str_in_In x names : str_in x names = true <-> In x names.
Proof.
  unfold str_in. rewrite existsb_exists. split.
  - intros (y & Hy & Heq). apply String.eqb_eq in Heq. now subst.
  - intros H. exists x. split; [exact H | apply String.eqb_refl].
Qed.

(** A list of dependencies: at most 50 rows, no row twice, each the row of
    an edge that the query selects. *)
Lemma dependency_rows {R} (select : R -> Prop) `{forall r, Decision (select r)}
    (row_of : R -> option Dependency.t) (rels : list R) :
  let rows := take 50 (remove_dups (omap row_of (filter select rels))) in
  Forall (fun d => exists r, In r rels /\ select r /\ row_of r = Some d) rows
  /\ NoDup rows
  /\ List.length rows <= 50.
Proof.
  cbn zeta. split; [|split].
  - apply Forall_forall. intros d Hd.
    apply (subseteq_take 50) in Hd. apply elem_of_remove_dups, list_elem_of_omap in Hd.
    destruct Hd as (r & Hr & Hrow). apply list_elem_of_filter in Hr.
    destruct Hr as [Hsel Hr]. exists r. apply list_elem_of_In in Hr. auto.
  - apply NoDup_take_of, NoDup_remove_dups.
  - rewrite length_take. lia.
Qed.

(** X19.  [trace_dependencies] lists direct edges only, whatever depth is
    asked for: every row of the two lists is the row of one stored edge of
    an asked-for type that leaves, or arrives at, the target entity itself.
    No row is listed twice and each list has at most 50 rows.  A direction
    other than [outgoing], [incoming] and [both] is no error: both lists
    are then empty.  The answer is "not found" exactly when no entity
    matches the target. *)
Theorem trace_lists_direct_edges_only
    (t : DB.Tables) (target direction : string) (depth : nat)
    (relationship_types : list string) :
  match trace_dependencies t target direction depth relationship_types with
  | None => Forall (fun e => symbol_matches target e = false) (DB.entities t)
  | Some r =>
      exists entity,
        In entity (DB.entities t)
        /\ symbol_matches target entity = true
        /\ Trace.target r = EntityRow.qualified_name entity
        /\ Forall (fun d =>
                     exists row, In row (DB.relationships t)
                                 /\ RelationshipRow.from_entity_id row = EntityRow.id entity
                                 /\ In (RelationshipRow.relationship_type row)
                                       relationship_types
                                 /\ dependency_of t (RelationshipRow.to_entity_id row) row
                                    = Some d)
                  (Trace.outgoing r)
        /\ Forall (fun d =>
                     exists row, In row (DB.relationships t)
                                 /\ RelationshipRow.to_entity_id row = EntityRow.id entity
                                 /\ In (RelationshipRow.relationship_type row)
                                       relationship_types
                                 /\ dependency_of t (RelationshipRow.from_entity_id row) row
                                    = Some d)
                  (Trace.incoming r)
        /\ NoDup (Trace.outgoing r) /\ NoDup (Trace.incoming r)
        /\ List.length (Trace.outgoing r) <= 50 /\ List.length (Trace.incoming r) <= 50
        /\ (~ In direction ["outgoing"; "incoming"; "both"]
            -> Trace.outgoing r = [] /\ Trace.incoming r = [])
  end.
Proof.
  unfold trace_dependencies, trace_target.
  destruct (List.find (symbol_matches target) (DB.entities t)) as [entity|] eqn:Hfind.
  - apply find_some in Hfind. destruct Hfind as [Hin Hmatch].
    exists entity. cbn [Trace.target Trace.outgoing Trace.incoming].
    split; [exact Hin|]. split; [exact Hmatch|]. split; [reflexivity|].
    pose proof (dependency_rows
                  (fun r => RelationshipRow.from_entity_id r = EntityRow.id entity
                            /\ str_in (RelationshipRow.relationship_type r) relationship_types
                               = true)
                  (fun r => dependency_of t (RelationshipRow.to_entity_id r) r)
                  (DB.relationships t)) as (Ho1 & Ho2 & Ho3).
    pose proof (dependency_rows
                  (fun r => RelationshipRow.to_entity_id r = EntityRow.id entity
                            /\ str_in (RelationshipRow.relationship_type r) relationship_types
                               = true)
                  (fun r => dependency_of t (RelationshipRow.from_entity_id r) r)
                  (DB.relationships t)) as (Hi1 & Hi2 & Hi3).
    fold (outgoing_dependencies t (EntityRow.id entity) relationship_types) in Ho1, Ho2, Ho3.
    fold (incoming_dependencies t (EntityRow.id entity) relationship_types) in Hi1, Hi2, Hi3.
    split; [|split; [|split; [|split; [|split; [|split]]]]].
    + destruct (str_in direction ["outgoing"; "both"]); [|constructor].
      eapply Forall_impl; [exact Ho1|]. intros d (row & Hrow & [Hfrom Hty] & Hd).
      exists row. rewrite str_in_In in Hty. auto.
    + destruct (str_in direction ["incoming"; "both"]); [|constructor].
      eapply Forall_impl; [exact Hi1|]. intros d (row & Hrow & [Hto Hty] & Hd).
      exists row. rewrite str_in_In in Hty. auto.
    + destruct (str_in direction ["outgoing"; "both"]); [exact Ho2 | constructor].
    + destruct (str_in direction ["incoming"; "both"]); [exact Hi2 | constructor].
    + destruct (str_in direction ["outgoing"; "both"]); [exact Ho3 | cbn; lia].
    + destruct (str_in direction ["incoming"; "both"]); [exact Hi3 | cbn; lia].
    + intros Hdir.
      destruct (str_in direction ["outgoing"; "both"]) eqn:Hout.
      { exfalso. apply Hdir. apply str_in_In in Hout. cbn in Hout |- *. tauto. }
      destruct (str_in direction ["incoming"; "both"]) eqn:Hinc.
      { exfalso. apply Hdir. apply str_in_In in Hinc. cbn in Hinc |- *. tauto. }
      split; reflexivity.
  - apply Forall_forall. intros e He. apply list_elem_of_In in He.
    exact (find_none _ _ Hfind e He).
Qed.

(* ===================================================================== *)
(** * When the transaction of [index_file] ends normally                   *)
(* ===================================================================== *)

Lemma bind_ok {A B} (m : M A) (k : A -> M B) s a s1 :
  m s = (Ok a, s1) -> bind m k s = k a s1.
Proof. unfold bind. now intros ->. Qed.

(** A loop ends normally when each of its rounds does. *)
Lemma for_each_ok {A} (J : State -> Prop) (Q : A -> Prop) (body : A -> M unit) l :
  (forall x s, Q x -> J s -> exists s', body x s = (Ok tt, s') /\ J s') ->
  Forall Q l ->
  forall s, J s -> exists s', for_each l body s = (Ok tt, s') /\ J s'.
Proof.
  intros Hbody. induction 1 as [|x l Hx _ IH]; intros s Hs; cbn [for_each].
  - exists s. split; [reflexivity | exact Hs].
  - destruct (Hbody x s Hx Hs) as (s1 & Hrun & Hs1).
    rewrite (bind_ok _ _ _ _ _ Hrun). apply IH, Hs1.
Qed.

Lemma entity_exists_entities t t' :
  map EntityRow.id (DB.entities t') = map EntityRow.id (DB.entities t) ->
  forall id, entity_exists t' id = entity_exists t id.
Proof. intros H id. unfold entity_exists. now rewrite H. Qed.

Lemma file_exists_files t t' :
  DB.files t' = DB.files t -> forall id, file_exists t' id = file_exists t id.
Proof. intros H id. unfold file_exists. now rewrite H. Qed.

Lemma ready_insert_entities file_id ents :
  forall entity_map s,
    ready file_id entity_map s ->
    exists entity_map' s',
      insert_entities file_id ents entity_map s = (Ok entity_map', s')
      /\ ready file_id entity_map' s'.
Proof.
  induction ents as [|e ents IH]; intros entity_map s Hready; cbn [insert_entities].
  - exists entity_map, s. split; [reflexivity | exact Hready].
  - destruct Hready as (Hfile & Hmap & Hcache).
    unfold _insert_entity, insert_entity_row.
    unfold bind at 1 2 3 4 5. unfold next_entity_id at 1. unfold get at 1.
    cbn [tables seqs entity_cache]. rewrite Hfile.
    unfold set_tables at 1. unfold ret at 1. unfold cache_put at 1.
    cbn [tables seqs entity_cache].
    apply IH. unfold ready, cache_live, map_live. cbn [tables entity_cache].
    assert (Hold : forall id, entity_exists (tables s) id = true ->
              entity_exists
                (DB.mkTables (DB.files (tables s))
                   (DB.entities (tables s) ++
                      [EntityRow.mk (DB.entities_id_seq (seqs s)) file_id (Entity.type e)
                         (Entity.qualified_name e) (Entity.simple_name e)
                         (Entity.signature e) (Entity.start_line e) (Entity.end_line e)
                         (Entity.complexity_score e) (Entity.is_public e) None
                         (Entity.metadata e)])
                   (DB.relationships (tables s)) (DB.code_chunks (tables s))) id = true).
    { intros id. eapply entity_exists_app. reflexivity. }
    assert (Hnew : entity_exists
                (DB.mkTables (DB.files (tables s))
                   (DB.entities (tables s) ++
                      [EntityRow.mk (DB.entities_id_seq (seqs s)) file_id (Entity.type e)
                         (Entity.qualified_name e) (Entity.simple_name e)
                         (Entity.signature e) (Entity.start_line e) (Entity.end_line e)
                         (Entity.complexity_score e) (Entity.is_public e) None
                         (Entity.metadata e)])
                   (DB.relationships (tables s)) (DB.code_chunks (tables s)))
                (DB.entities_id_seq (seqs s)) = true).
    { unfold entity_exists. cbn [DB.entities]. apply mem_true_iff.
      rewrite map_app. apply in_or_app. right. now left. }
    split; [exact Hfile|]. split.
    + intros name id. destruct (decide (name = Entity.qualified_name e)) as [->|Hne].
      * rewrite lookup_insert_eq. intros [= <-]. exact Hnew.
      * rewrite lookup_insert_ne by congruence. intros H. apply Hold. eapply Hmap, H.
    + intros name id. destruct (decide (name = Entity.qualified_name e)) as [->|Hne].
      * rewrite lookup_insert_eq. intros [= <-]. exact Hnew.
      * rewrite lookup_insert_ne by congruence. intros H. apply Hold. eapply Hcache, H.
Qed.

Lemma ready_resolve_parent file_id entity_map entity s :
  ready file_id entity_map s ->
  exists s', resolve_parent entity_map entity s = (Ok tt, s') /\ ready file_id entity_map s'.
Proof.
  intros Hready. unfold resolve_parent.
  assert (Hret : exists s', ret tt s = (Ok tt, s') /\ ready file_id entity_map s')
    by (exists s; split; [reflexivity | exact Hready]).
  destruct (contains_scope _); [|exact Hret].
  destruct (rsplit_scope1 _) as [|p [|q [|]]]; try exact Hret.
  destruct (entity_map !! p) as [parent|] eqn:Hp; [|exact Hret].
  destruct (entity_map !! Entity.qualified_name entity) as [id|] eqn:Hid; [|exact Hret].
  destruct Hready as (Hfile & Hmap & Hcache).
  unfold update_parent, bind, get, set_tables, raise.
  rewrite (Hmap p parent Hp), andb_false_r.
  eexists. split; [reflexivity|].
  assert (Hsame : forall i,
            entity_exists
              (DB.mkTables (DB.files (tables s))
                 (map (set_parent parent id) (DB.entities (tables s)))
                 (DB.relationships (tables s)) (DB.code_chunks (tables s))) i
            = entity_exists (tables s) i).
  { apply entity_exists_entities. cbn [DB.entities]. rewrite map_map.
    apply map_ext. intros e. apply set_parent_id. }
  unfold ready, cache_live, map_live. cbn [tables entity_cache seqs].
  split; [exact Hfile|]. split; intros name i H; rewrite Hsame; eauto.
Qed.

Lemma lookup_name_live entity_map s name id :
  map_live entity_map (tables s) -> cache_live s ->
  lookup_name entity_map (entity_cache s) name = Some id ->
  entity_exists (tables s) id = true.
Proof.
  intros Hmap Hcache. unfold lookup_name.
  destruct (entity_map !! name) as [i|] eqn:Hi.
  - intros [= <-]. eapply Hmap, Hi.
  - intros H. eapply Hcache, H.
Qed.

Lemma truthy_id_some o : truthy_id o = true -> exists id, o = Some id.
Proof. destruct o; [eauto | discriminate]. Qed.

Lemma ready_insert_relationship file_id entity_map rel s :
  ready file_id entity_map s ->
  exists s', _insert_relationship rel entity_map file_id s = (Ok tt, s')
             /\ ready file_id entity_map s'.
Proof.
  intros Hready.
  assert (Hret : exists s', ret tt s = (Ok tt, s') /\ ready file_id entity_map s')
    by (exists s; split; [reflexivity | exact Hready]).
  destruct Hready as (Hfile & Hmap & Hcache).
  unfold _insert_relationship. unfold bind at 1. unfold get at 1.
  destruct (String.eqb _ "includes"); [exact Hret|].
  set (from_id := lookup_name entity_map (entity_cache s) (Relationship.from_entity rel)).
  assert (Hto : exists to_id,
            (match lookup_name entity_map (entity_cache s) (Relationship.to_entity rel) with
             | Some id => ret (Some id)
             | None => select_id_by_simple_name
                         (last_scope_segment (Relationship.to_entity rel))
             end) s = (Ok to_id, s)
            /\ forall id, to_id = Some id -> entity_exists (tables s) id = true).
  { destruct (lookup_name entity_map (entity_cache s) (Relationship.to_entity rel))
      as [id|] eqn:Hlook.
    - exists (Some id). split; [reflexivity|]. intros i Hi. injection Hi as <-.
      exact (lookup_name_live entity_map s _ id Hmap Hcache Hlook).
    - eexists. split; [reflexivity|]. intros id Hid.
      destruct (List.find _ _) as [row|] eqn:Hfind; [|discriminate].
      cbn in Hid. injection Hid as <-. apply find_some in Hfind. destruct Hfind as [Hin _].
      unfold entity_exists. apply mem_true_iff. now apply in_map. }
  destruct Hto as (to_id & Hrun & Hlive). rewrite (bind_ok _ _ _ _ _ Hrun).
  destruct (truthy_id from_id && truthy_id to_id) eqn:Hboth; [|exact Hret].
  apply andb_true_iff in Hboth. destruct Hboth as [Hf Ht].
  destruct (truthy_id_some _ Hf) as [f Hfrom]. destruct (truthy_id_some _ Ht) as [t' ->].
  rewrite Hfrom. unfold default; cbn [id].
  unfold insert_relationship_row, bind, next_relationship_id, get, set_tables, raise.
  cbn [tables seqs entity_cache].
  rewrite (lookup_name_live entity_map s _ f Hmap Hcache Hfrom), (Hlive t' eq_refl).
  cbn [andb]. eexists. split; [reflexivity|].
  unfold ready, cache_live, map_live. cbn [tables entity_cache].
  split; [exact Hfile|]. split; intros name i H;
    (erewrite entity_exists_entities; [|reflexivity]); eauto.
Qed.

Lemma ready_insert_chunk em file_id entity_map chunk s :
  (exists v, em (CodeChunk.content chunk) = Some v /\ List.length v = vector_width) ->
  ready file_id entity_map s ->
  exists s', _insert_chunk em chunk entity_map file_id s = (Ok tt, s')
             /\ ready file_id entity_map s'.
Proof.
  intros (v & Hv & Hw) (Hfile & Hmap & Hcache).
  unfold _insert_chunk, encode. rewrite Hv.
  unfold insert_chunk_row, bind, ret, next_chunk_id, get, set_tables, raise.
  cbn [tables seqs entity_cache]. rewrite Hw, Nat.eqb_refl. cbn [negb]. rewrite Hfile.
  assert (Hent : match (if truthy_str (CodeChunk.entity_name chunk)
                        then entity_map !! default "" (CodeChunk.entity_name chunk)
                        else None) with
                 | Some e => entity_exists (tables s) e
                 | None => true
                 end = true).
  { destruct (truthy_str _); [|reflexivity].
    destruct (entity_map !! _) as [e|] eqn:He; [|reflexivity]. eapply Hmap, He. }
  rewrite Hent. cbn [andb]. eexists. split; [reflexivity|].
  unfold ready, cache_live, map_live. cbn [tables entity_cache].
  split; [exact Hfile|]. split; intros name i H;
    (erewrite entity_exists_entities; [|reflexivity]); eauto.
Qed.

(** X20.  Of the errors that the store and the embedding model can raise
    here (a foreign key that is violated, a vector of another width than
    384, the embedding model raising), none arises in the transaction of
    [index_file], which then ends normally, when the row of the file is in
    place, the embedding model answers for the content of every chunk with a
    vector of width 384, and every id in the cache of the indexer is the id
    of an entity row that the delete of the rows of the file leaves; the
    cache then still holds ids of entity rows only. *)
Theorem parsed_index_ends_normally em now file_id content ents rels chunks s :
  file_exists (tables s) file_id = true ->
  Forall (fun c => exists v, em (CodeChunk.content c) = Some v
                             /\ List.length v = vector_width) chunks ->
  cache_live (snd (delete_entities_of_file file_id s)) ->
  let r := index_file em now file_id content (Some (ents, rels, chunks)) s in
  fst r = Ok tt /\ cache_live (snd r).
Proof.
  intros Hfile Hchunks Hcache. cbn zeta.
  assert (H1 : ready file_id ∅ (snd (delete_entities_of_file file_id s))).
  { split; [exact Hfile|]. split; [|exact Hcache].
    intros name id H. rewrite lookup_empty in H. discriminate H. }
  destruct (ready_insert_entities file_id ents ∅ _ H1) as (entity_map & s2 & Hrun2 & H2).
  destruct (for_each_ok (ready file_id entity_map) (fun _ => True)
              (resolve_parent entity_map) ents) with (s := s2) as (s3 & Hrun3 & H3);
    [intros x s0 _; apply ready_resolve_parent | apply Forall_forall; auto | exact H2 |].
  destruct (for_each_ok (ready file_id entity_map) (fun _ => True)
              (fun rel => _insert_relationship rel entity_map file_id) rels)
    with (s := s3) as (s4 & Hrun4 & H4);
    [intros x s0 _; apply ready_insert_relationship | apply Forall_forall; auto | exact H3 |].
  destruct (for_each_ok (ready file_id entity_map)
              (fun c => exists v, em (CodeChunk.content c) = Some v
                                  /\ List.length v = vector_width)
              (fun chunk => _insert_chunk em chunk entity_map file_id) chunks)
    with (s := s4) as (s5 & Hrun5 & H5);
    [intros x s0; apply ready_insert_chunk | exact Hchunks | exact H4 |].
  assert (Hrun : index_file em now file_id content (Some (ents, rels, chunks)) s
                 = update_file_indexed now file_id s5).
  { unfold index_file, transaction.
    rewrite (bind_ok (delete_entities_of_file file_id) _ s tt
               (snd (delete_entities_of_file file_id s)) eq_refl).
    rewrite (bind_ok _ _ _ _ _ Hrun2), (bind_ok _ _ _ _ _ Hrun3),
      (bind_ok _ _ _ _ _ Hrun4), (bind_ok _ _ _ _ _ Hrun5).
    reflexivity. }
  rewrite Hrun. split; [reflexivity|].
  destruct H5 as (_ & _ & Hlive). unfold cache_live, map_live in *.
  intros name id H. unfold update_file_indexed, bind, get, set_tables in H |- *.
  cbn [snd tables entity_cache] in H |- *.
  erewrite entity_exists_entities; [|reflexivity]. eapply Hlive, H.
Qed.

(** The file of [one_file_store], with an empty cache and an embedding
    model that always answers. *)
Lemma parsed_index_ends_normally_witness :
  exists ents rels chunks,
    parse_cpp_file (Examples.nested_tree "identifier") Examples.nested_source
    = Some (ents, rels, chunks)
    /\ fst (index_file Examples.zero_encoder 0 1 Examples.nested_source
              (Some (ents, rels, chunks)) Examples.one_file_store) = Ok tt.
Proof.
  eexists _, _, _. split; [vm_compute; reflexivity|].
  apply (parsed_index_ends_normally Examples.zero_encoder 0 1 Examples.nested_source
           _ _ _ Examples.one_file_store).
  - vm_compute. reflexivity.
  - repeat constructor; eexists; (split; [reflexivity | vm_compute; reflexivity]).
  - intros name id H. vm_compute in H. discriminate H.
Defined.

(* ===================================================================== *)
(** * Further properties of a parse                                        *)
(* ===================================================================== *)

Lemma all_nodes_within p tree :
  all_nodes p tree = true -> forall node, within tree node -> p node = true.
Proof.
  intros Htree node Hnode.
  enough (H : all_nodes p node = true).
  { destruct node. cbn [all_nodes] in H. apply andb_true_iff in H. apply H. }
  induction Hnode as [|n c _ IH Hc]; [exact Htree|].
  destruct n as [ty fld sb eb sr er ch]. cbn [all_nodes] in IH. cbn [Node.children] in Hc.
  apply andb_true_iff in IH. destruct IH as [_ IH].
  rewrite forallb_forall in IH. now apply IH.
Qed.

(** X21.  The chunking step of a parse does not raise when no node of
    the tree starts below the last line of the content: no entity of the
    walk then starts past the end, and the scan for comments reads only
    lines that exist. *)
Theorem chunking_ends_normally_when_the_tree_lies_within_the_content tree content :
  all_nodes (fun n => Node.start_row n <=? List.length (splitlines content)) tree = true ->
  exists chunks, _create_chunks (extracted_entities tree content) content = Some chunks.
Proof.
  intros Hrows. unfold _create_chunks.
  destruct (create_chunks_from_cases (splitlines content)
              (extracted_entities tree content) [])
    as [[Hex _]|(_ & css & -> & _)]; [|eauto].
  exfalso. apply Exists_exists in Hex. destruct Hex as (e & He & _ & Hpast).
  assert (Hall : Forall (fun e => Entity.start_line e <= List.length (splitlines content) + 1)
                        (extracted_entities tree content)).
  { apply extracted_entities_Forall.
    - intros s node name Hnode _. cbn [class_entity Entity.start_line]. unfold line_of.
      apply (all_nodes_within _ _ Hrows) in Hnode. apply Nat.leb_le in Hnode. lia.
    - intros s pty node name_node Hnode. cbn [function_entity Entity.start_line].
      unfold line_of.
      apply (all_nodes_within _ _ Hrows) in Hnode. apply Nat.leb_le in Hnode. lia.
    - intros s node name Hnode. cbn [enum_entity Entity.start_line]. unfold line_of.
      apply (all_nodes_within _ _ Hrows) in Hnode. apply Nat.leb_le in Hnode. lia. }
  rewrite Forall_forall in Hall. specialize (Hall e He). lia.
Qed.

(** The tree of the small file of two structs and two functions has its
    nodes on the rows 0 to 4 of a content of four lines. *)
Lemma chunking_ends_normally_when_the_tree_lies_within_the_content_witness :
  exists chunks,
    _create_chunks (extracted_entities Examples.edges_tree Examples.edges_source)
      Examples.edges_source = Some chunks.
Proof.
  apply (chunking_ends_normally_when_the_tree_lies_within_the_content
           Examples.edges_tree Examples.edges_source).
  vm_compute. reflexivity.
Defined.

(** An invariant of the state of the parser that the branches of the walk
    keep is kept by the walk. *)
Section WalkState.
Variable content : string.
Variable J : CppParser -> Prop.
Hypothesis J_namespace : forall ns self, J self -> J (with_namespace ns self).
Hypothesis J_with_class : forall c self, J self -> J (with_class c self).
Hypothesis J_class : forall self node name,
  str_in (Node.type node) ["class_specifier"; "struct_specifier"] = true ->
  J self ->
  J (add_entity
       (class_entity (add_relationships (inherits_edges self node content name) self)
          node content name)
       (add_relationships (inherits_edges self node content name) self)).
Hypothesis J_function : forall self pty node name_node,
  J self -> J (add_entity (function_entity self pty node name_node content) self).
Hypothesis J_enum : forall self node name,
  J self -> J (add_entity (enum_entity self node name) self).

Lemma extract_entities_state node :
  forall pty self, J self -> J (_extract_entities content pty node self).
Proof.
  induction node as [node IH] using node_below_ind. intros pty self Hs.
  assert (Hvisit : forall p l,
    (forall c, In c l -> below node c) ->
    forall s, J s -> J (visit_children content p l s)).
  { intros p l. unfold visit_children.
    induction l as [|c l IHl]; intros Hl s Hinv; cbn [fold_left]; [exact Hinv|].
    apply IHl; [intros c' Hc'; apply Hl; now right|].
    apply IH; [apply Hl; now left | exact Hinv]. }
  assert (Hbody : forall s, J s -> J (visit_body content node s)).
  { intros s Hinv. unfold visit_body.
    destruct (child_by_field_name node "body") as [body|] eqn:Hb; [|exact Hinv].
    apply child_by_field_name_In in Hb. apply Hvisit; [|exact Hinv].
    intros c Hc. exists body. split; [exact Hb|].
    exact (within_child body body c (within_root body) Hc). }
  rewrite extract_unfold.
  destruct (String.eqb (Node.type node) "namespace_definition").
  { destruct (child_by_field_name node "name"); [|exact Hs].
    cbn zeta. apply J_namespace, Hbody, J_namespace, Hs. }
  destruct (str_in (Node.type node) ["class_specifier"; "struct_specifier"]) eqn:Hcls.
  { destruct (child_by_field_name node "name"); [|exact Hs].
    cbn zeta. apply J_with_class, Hbody, J_with_class, J_class; assumption. }
  destruct (str_in (Node.type node) ["function_definition"; "function_declarator"]).
  { destruct (declarator_of node); [|exact Hs].
    destruct (_get_function_name_node _); [|exact Hs]. now apply J_function. }
  destruct (String.eqb (Node.type node) "enum_specifier").
  { destruct (child_by_field_name node "name"); [|exact Hs]. now apply J_enum. }
  apply Hvisit; [|exact Hs].
  intros c Hc. exists c. split; [exact Hc | constructor].
Qed.
End WalkState.

(** X22.  Every [inherits] edge of a parse starts at a class or struct
    entity of the same parse: its "from" end is the qualified name of that
    entity, and its line is the line where the entity starts. *)
Theorem inherits_edges_start_at_a_class_of_the_parse self tree content :
  let r := parse_file self tree content in
  Forall (fun rel =>
            Relationship.relationship_type rel = "inherits" ->
            exists e, In e (parsed_entities r)
                      /\ Entity.qualified_name e = Relationship.from_entity rel
                      /\ In (Entity.type e) ["class"; "struct"]
                      /\ Entity.start_line e = Relationship.line_number rel)
         (parsed_relationships r).
Proof.
  cbn zeta. unfold parse_file. destruct (_create_chunks _ _); [|constructor].
  cbn [parsed_relationships parsed_entities].
  set (walked := _extract_entities content None tree (mkParser [] None [] [])).
  apply extract_relationships_Forall.
  - intros node. unfold edges_at.
    destruct (String.eqb (Node.type node) "preproc_include").
    { destruct (truthy_str _); [|constructor].
      constructor; [|constructor]. cbn. discriminate. }
    destruct (String.eqb (Node.type node) "call_expression"); [|constructor].
    destruct (child_by_field_name node "function"); [|constructor].
    constructor; [|constructor]. cbn. discriminate.
  - enough (H : Forall (fun rel =>
                          exists e, In e (entities walked)
                                    /\ Entity.qualified_name e = Relationship.from_entity rel
                                    /\ In (Entity.type e) ["class"; "struct"]
                                    /\ Entity.start_line e = Relationship.line_number rel)
                       (relationships walked)).
    { eapply Forall_impl; [exact H|]. intros rel Hrel _. exact Hrel. }
    unfold walked.
    apply (extract_entities_state content
             (fun s => Forall (fun rel =>
                          exists e, In e (entities s)
                                    /\ Entity.qualified_name e = Relationship.from_entity rel
                                    /\ In (Entity.type e) ["class"; "struct"]
                                    /\ Entity.start_line e = Relationship.line_number rel)
                       (relationships s))).
    + intros ns s Hs. exact Hs.
    + intros c s Hs. exact Hs.
    + intros s node name Hcls Hs.
      cbn [add_entity add_relationships entities relationships].
      apply Forall_app. split.
      * eapply Forall_impl; [exact Hs|]. intros rel (e & He & Hrest).
        exists e. split; [apply in_or_app; now left | exact Hrest].
      * unfold inherits_edges.
        destruct (child_by_field_name node "base_clause"); [|constructor].
        apply Forall_forall. intros rel Hrel. apply list_elem_of_In, in_map_iff in Hrel.
        destruct Hrel as (base & <- & _).
        eexists. split; [apply in_or_app; right; left; reflexivity|].
        cbn [class_entity Entity.qualified_name Entity.type Entity.start_line
               Relationship.from_entity Relationship.line_number].
        split; [reflexivity|]. split; [|reflexivity].
        destruct (String.eqb (Node.type node) "class_specifier"); cbn; tauto.
    + intros s pty node name_node Hs. cbn [add_entity entities relationships].
      eapply Forall_impl; [exact Hs|]. intros rel (e & He & Hrest).
      exists e. split; [apply in_or_app; now left | exact Hrest].
    + intros s node name Hs. cbn [add_entity entities relationships].
      eapply Forall_impl; [exact Hs|]. intros rel (e & He & Hrest).
      exists e. split; [apply in_or_app; now left | exact Hrest].
    + constructor.
Qed.

(* ===================================================================== *)
(** * The edges that are ever stored                                       *)
(* ===================================================================== *)

(** Indexing what a parse returns keeps the store free of other edges than
    [inherits] edges, and the cache free of the empty name. *)
Lemma index_file_keeps_only_inherits R0 em now file_id content self tree :
  Forall (fun e => Entity.simple_name e <> "")
         (parsed_entities (parse_file self tree content)) ->
  keeps (only_inherits_added R0)
        (index_file em now file_id content (parse_file self tree content)).
Proof.
  intros Hnames.
  pose proof (parsed_edges_shape self tree content) as Hshape.
  pose proof (parse_file_entities self tree content) as Hents.
  destruct (parse_file self tree content) as [[[ents rels] chunks]|] eqn:Hp.
  - cbn [parsed_entities parsed_relationships] in *.
    assert (Hqn : Forall (fun e => Entity.qualified_name e <> "") ents).
    { destruct Hents as [-> | ->]; [constructor|].
      pose proof (qualified_name_nonempty tree content) as Hq.
      rewrite Forall_forall in Hq, Hnames. apply Forall_forall.
      intros e He. apply Hq; [exact He | now apply Hnames]. }
    assert (Hrels : Forall (fun r => Relationship.relationship_type r = "inherits"
                                     \/ Relationship.from_entity r = "") rels).
    { eapply Forall_impl; [exact Hshape|]. intros r [H|[H _]]; [now left | now right]. }
    unfold index_file. apply keeps_transaction; [apply only_inherits_rollback|].
    apply keeps_bind; [apply keeps_added_delete|]. intros _.
    apply keeps_bind_ok; [now apply keeps_added_insert_entities|].
    intros s1 entity_map _ Hok.
    assert (Hmap : entity_map !! "" = None).
    { eapply insert_entities_map; [exact Hqn | | exact Hok]. apply lookup_empty. }
    apply keeps_bind; [apply keeps_for_each; intros e; apply keeps_added_resolve_parent|].
    intros _.
    apply keeps_bind.
    { clear Hshape Hp Hok. induction Hrels as [|r rels' Hr _ IH]; cbn [for_each]; [apply keeps_ret|].
      apply keeps_bind; [now apply keeps_added_insert_relationship|]. intros _. exact IH. }
    intros _.
    apply keeps_bind; [apply keeps_for_each; intros c; apply keeps_added_insert_chunk|].
    intros _. apply keeps_added_same. intros s'. split; reflexivity.
  - unfold index_file. apply (keeps_simple_file_indexing _ em file_id).
    intros eid ty text a b v md _. apply keeps_added_same. intros s.
    unfold insert_chunk_row, bind, get, next_chunk_id, set_tables, raise.
    cbn [tables seqs entity_cache].
    destruct (negb _); [split; reflexivity|]. destruct (_ && _); split; reflexivity.
Qed.

Lemma filter_nothing {A} (P : A -> Prop) `{forall x, Decision (P x)} (l : list A) :
  Forall (fun x => ~ P x) l -> filter P l = [].
Proof.
  induction 1 as [|x l Hx _ IH]; [reflexivity|]. now rewrite filter_cons_False.
Qed.

(** X23.  No call edge and no include edge is ever stored.  When every
    edge of the store is an [inherits] edge, as in an empty store, and the
    parser finds a simple name for every entity, every edge of the store is
    an [inherits] edge after a run of [batch_index_files] too: the parser
    leaves the caller of every call empty, and the indexer drops an edge
    without a resolved caller.  So [trace_dependencies] asked for [calls]
    edges lists nothing, for every target and direction. *)
Theorem no_call_edge_is_ever_stored env file_paths s :
  parses_with_names env ->
  only_inherits (tables s) ->
  let t' := tables (snd (batch_index_files env file_paths s)) in
  only_inherits t'
  /\ forall target direction depth,
       match trace_dependencies t' target direction depth ["calls"] with
       | Some r => Trace.incoming r = [] /\ Trace.outgoing r = []
       | None => True
       end.
Proof.
  intros Hparse Hstart. cbn zeta.
  assert (Honly : only_inherits (tables (snd (batch_index_files env file_paths s)))).
  { assert (H : only_inherits_added [] (snd (batch_index_files env file_paths s))).
    { unfold batch_index_files.
      apply (run_batches_keeps (only_inherits_added []) env).
      - intros path content _. apply keeps_added_same. intros s0. unfold upsert_file.
        destruct (lookup_file (tables s0) path); split; reflexivity.
      - intros file_id content [path Hread].
        destruct (Hparse path content Hread) as [->|(self & tree & -> & Hnames)].
        + unfold index_file. apply (keeps_simple_file_indexing _ (embedding_model env) file_id).
          intros eid ty text a b v md _. apply keeps_added_same. intros s0.
          unfold insert_chunk_row, bind, get, next_chunk_id, set_tables, raise.
          cbn [tables seqs entity_cache].
          destruct (negb _); [split; reflexivity|]. destruct (_ && _); split; reflexivity.
        + now apply index_file_keeps_only_inherits.
      - split; [|apply lookup_empty]. cbn [tables]. intros row Hrow. right.
        unfold only_inherits in Hstart. rewrite Forall_forall in Hstart.
        apply Hstart. now apply list_elem_of_In. }
    destruct H as [Hrows _]. apply Forall_forall. intros row Hrow.
    apply list_elem_of_In in Hrow. destruct (Hrows row Hrow) as [[]|Hinh]. exact Hinh. }
  split; [exact Honly|].
  intros target direction depth. unfold trace_dependencies.
  destruct (trace_target _ target) as [entity|]; [|exact I].
  cbn [Trace.incoming Trace.outgoing].
  unfold only_inherits in Honly.
  assert (Hin : incoming_dependencies (tables (snd (batch_index_files env file_paths s)))
                  (EntityRow.id entity) ["calls"] = []).
  { unfold incoming_dependencies. rewrite filter_nothing; [reflexivity|].
    eapply Forall_impl; [exact Honly|]. intros row Hrow [_ Hty]. rewrite Hrow in Hty.
    discriminate Hty. }
  assert (Hout : outgoing_dependencies (tables (snd (batch_index_files env file_paths s)))
                   (EntityRow.id entity) ["calls"] = []).
  { unfold outgoing_dependencies. rewrite filter_nothing; [reflexivity|].
    eapply Forall_impl; [exact Honly|]. intros row Hrow [_ Hty]. rewrite Hrow in Hty.
    discriminate Hty. }
  rewrite Hin, Hout. split.
  - destruct (str_in direction ["incoming"; "both"]); reflexivity.
  - destruct (str_in direction ["outgoing"; "both"]); reflexivity.
Qed.

(** The small file has a base class and a call.  After the batch the store
    holds one edge, the [inherits] edge. *)
Lemma no_call_edge_is_ever_stored_witness :
  let t' := tables (snd (batch_index_files MoreExamples.edges_env ["b.cpp"]
                           Examples.one_file_store)) in
  only_inherits t' /\ List.length (DB.relationships t') = 1.
Proof.
  cbn zeta.
  assert (Hparse : parses_with_names MoreExamples.edges_env).
  { intros path content Hread. right.
    exists (mkParser [] None [] []), Examples.edges_tree.
    cbn in Hread. destruct (String.eqb path "b.cpp"); [|discriminate Hread].
    injection Hread as <-. split; [reflexivity|].
    vm_compute. repeat constructor; discriminate. }
  assert (Hstart : only_inherits (tables Examples.one_file_store)) by constructor.
  destruct (no_call_edge_is_ever_stored MoreExamples.edges_env ["b.cpp"]
              Examples.one_file_store Hparse Hstart) as [Honly _].
  split; [exact Honly | vm_compute; reflexivity].
Defined.

(* ===================================================================== *)
(** * The parent links                                                     *)
(* ===================================================================== *)

Lemma NoDup_map_inj {A B} (f : A -> B) (l : list A) a b :
  NoDup (map f l) -> In a l -> In b l -> f a = f b -> a = b.
Proof.
  induction l as [|x l IH]; intros Hnd Ha Hb Heq; [destruct Ha|].
  cbn [map] in Hnd. apply NoDup_cons in Hnd. destruct Hnd as [Hx Hnd].
  destruct Ha as [->|Ha], Hb as [->|Hb]; [reflexivity | | |now apply IH].
  - exfalso. apply Hx. rewrite Heq. apply list_elem_of_In. now apply in_map.
  - exfalso. apply Hx. rewrite <- Heq. apply list_elem_of_In. now apply in_map.
Qed.

(** The rows that the first loop appends: rows of the file without a
    parent, with fresh ids that differ from one another, and named by the
    map that the loop returns. *)
Lemma insert_entities_fresh file_id ents :
  forall entity_map s entity_map' s',
    insert_entities file_id ents entity_map s = (Ok entity_map', s') ->
    exists rows,
      DB.entities (tables s') = DB.entities (tables s) ++ rows
      /\ DB.entities_id_seq (seqs s) <= DB.entities_id_seq (seqs s')
      /\ Forall (fun r => EntityRow.file_id r = file_id
                          /\ EntityRow.parent_id r = None
                          /\ DB.entities_id_seq (seqs s) <= EntityRow.id r
                             < DB.entities_id_seq (seqs s')) rows
      /\ NoDup (map EntityRow.id rows)
      /\ forall name id,
           entity_map' !! name = Some id ->
           entity_map !! name = Some id
           \/ exists row, In row rows /\ EntityRow.id row = id
                          /\ EntityRow.qualified_name row = name.
Proof.
  induction ents as [|e ents IH]; intros entity_map s entity_map' s' Hrun;
    cbn [insert_entities] in Hrun.
  - injection Hrun as <- <-. exists []. rewrite app_nil_r.
    repeat split; [lia | constructor | constructor | now left].
  - apply bind_ok_inv in Hrun. destruct Hrun as (id & s1 & Hrow & Hrun).
    apply bind_ok_inv in Hrun. destruct Hrun as ([] & s2 & Hput & Hrun).
    apply IH in Hrun. destruct Hrun as (rows & Hrows & Hseq & Hall & Hnd & Hmap).
    unfold cache_put in Hput. injection Hput as <-.
    unfold _insert_entity, insert_entity_row, bind, next_entity_id, get, set_tables, raise
      in Hrow.
    cbn [tables seqs entity_cache] in Hrow.
    destruct (file_exists (tables s) file_id); [|discriminate].
    cbn in Hrow. injection Hrow as <- <-.
    cbn [tables seqs DB.entities DB.entities_id_seq] in Hrows, Hseq, Hall.
    rewrite <- app_assoc in Hrows.
    eexists. split; [exact Hrows|]. split; [lia|].
    cbn [app]. split; [|split].
    + constructor; [cbn; repeat split; lia|].
      eapply Forall_impl; [exact Hall|]. cbn. intros r (Hf & Hp & Hid). repeat split; auto; lia.
    + cbn [map EntityRow.id]. apply NoDup_cons. split; [|exact Hnd].
      intros Hin. apply list_elem_of_In, in_map_iff in Hin. destruct Hin as (r & Hr & Hin).
      rewrite Forall_forall in Hall. apply list_elem_of_In in Hin.
      destruct (Hall r Hin) as (_ & _ & Hid). lia.
    + intros name id Hid. destruct (Hmap name id Hid) as [Hold|(row & Hin & Hrid & Hqn)].
      * destruct (decide (name = Entity.qualified_name e)) as [->|Hne].
        -- rewrite lookup_insert_eq in Hold. injection Hold as <-.
           right. eexists. split; [left; reflexivity|]. split; reflexivity.
        -- rewrite lookup_insert_ne in Hold by congruence. now left.
      * right. exists row. split; [now right|]. split; assumption.
Qed.

Lemma set_parent_fields parent id e :
  EntityRow.id (set_parent parent id e) = EntityRow.id e
  /\ EntityRow.file_id (set_parent parent id e) = EntityRow.file_id e
  /\ EntityRow.qualified_name (set_parent parent id e) = EntityRow.qualified_name e.
Proof. unfold set_parent. destruct (EntityRow.id e =? id); repeat split. Qed.

Lemma set_parent_inj parent id e e' :
  e = e' -> set_parent parent id e = set_parent parent id e'.
Proof. now intros ->. Qed.

(** A round of the loop over the parents keeps the links sound. *)
Lemma keeps_links_resolve_parent file_id entity_map entity :
  keeps (fun s => links_sound file_id entity_map (tables s))
        (resolve_parent entity_map entity).
Proof.
  unfold resolve_parent. destruct (contains_scope _); [|apply keeps_ret].
  destruct (rsplit_scope1 (Entity.qualified_name entity)) as [|pn [|q [|]]] eqn:Hsplit;
    try apply keeps_ret.
  destruct (entity_map !! pn) as [parent|] eqn:Hp; [|apply keeps_ret].
  destruct (entity_map !! Entity.qualified_name entity) as [id|] eqn:Hid; [|apply keeps_ret].
  intros s (Hmap & Hunique & Hlinks).
  unfold update_parent, bind, get, set_tables, raise.
  destruct (_ && _); cbn [snd tables]; [repeat split; assumption|].
  set (t' := DB.mkTables _ _ _ _).
  assert (Hin' : forall r, In r (DB.entities (tables s)) ->
                           In (set_parent parent id r) (DB.entities t')).
  { intros r Hr. unfold t'. cbn [DB.entities]. now apply in_map. }
  assert (Hback : forall r', In r' (DB.entities t') ->
                             exists r, In r (DB.entities (tables s))
                                       /\ r' = set_parent parent id r).
  { intros r' Hr'. unfold t' in Hr'. cbn [DB.entities] in Hr'. apply in_map_iff in Hr'.
    destruct Hr' as (r & <- & Hr). eauto. }
  split; [|split].
  - intros name i Hi. destruct (Hmap name i Hi) as (row & Hrow & Hrid & Hqn & Hfile).
    exists (set_parent parent id row). split; [now apply Hin'|].
    destruct (set_parent_fields parent id row) as (-> & -> & ->). auto.
  - intros r1' r2' H1 H2 Hfile Heq.
    destruct (Hback r1' H1) as (r1 & Hr1 & ->). destruct (Hback r2' H2) as (r2 & Hr2 & ->).
    destruct (set_parent_fields parent id r1) as (E1 & F1 & _).
    destruct (set_parent_fields parent id r2) as (E2 & _ & _).
    apply set_parent_inj. apply Hunique; congruence.
  - apply Forall_forall. intros r' Hr' Hfile. apply list_elem_of_In in Hr'.
    destruct (Hback r' Hr') as (r & Hr & ->).
    destruct (set_parent_fields parent id r) as (E & F & Q).
    rewrite F in Hfile.
    assert (Hkeep : forall prow last,
              In prow (DB.entities (tables s)) ->
              EntityRow.file_id prow = EntityRow.file_id r ->
              rsplit_scope1 (EntityRow.qualified_name r)
              = [EntityRow.qualified_name prow; last] ->
              exists prow' last',
                In prow' (DB.entities t')
                /\ EntityRow.id prow' = EntityRow.id prow
                /\ EntityRow.file_id prow' = EntityRow.file_id (set_parent parent id r)
                /\ rsplit_scope1 (EntityRow.qualified_name (set_parent parent id r))
                   = [EntityRow.qualified_name prow'; last']).
    { intros prow last Hprow Hpf Hps. exists (set_parent parent id prow), last.
      split; [now apply Hin'|].
      destruct (set_parent_fields parent id prow) as (-> & -> & ->).
      rewrite F, Q. auto. }
    unfold parent_ok. unfold set_parent at 1.
    destruct (EntityRow.id r =? id) eqn:Hrid; cbn [EntityRow.parent_id].
    + apply Nat.eqb_eq in Hrid.
      destruct (Hmap _ _ Hid) as (row_e & Hrow_e & Hide & Hqne & Hfe).
      assert (Hsame : row_e = r) by (apply Hunique; [assumption | assumption | exact Hfe | congruence]).
      subst row_e.
      destruct (Hmap _ _ Hp) as (prow & Hprow & Hidp & Hqnp & Hfp).
      destruct (Hkeep prow q Hprow) as (prow' & last' & H1 & H2 & H3 & H4);
        [congruence | rewrite Hqne, Hqnp; exact Hsplit |].
      exists prow', last'. repeat split; try assumption. congruence.
    + rewrite Forall_forall in Hlinks. apply list_elem_of_In in Hr.
      specialize (Hlinks r Hr Hfile). unfold parent_ok in Hlinks.
      destruct (EntityRow.parent_id r) as [p|]; [|exact I].
      destruct Hlinks as (prow & last & Hprow & Hidp & Hfp & Hps).
      destruct (Hkeep prow last Hprow Hfp Hps) as (prow' & last' & H1 & H2 & H3 & H4).
      exists prow', last'. repeat split; try assumption. congruence.
Qed.

Lemma links_sound_entities file_id entity_map t t' :
  DB.entities t' = DB.entities t ->
  links_sound file_id entity_map t -> links_sound file_id entity_map t'.
Proof.
  intros He (Hmap & Hunique & Hlinks). unfold links_sound, parent_ok in *. rewrite He.
  repeat split; assumption.
Qed.

(** X24.  When [index_file] ends normally on a parsed file, in a store
    whose entity ids are all below the sequence, every parent link of an
    entity row of the file is empty or is the id of an entity row of the same
    file whose qualified name is the qualified name of the entity without
    its last segment. *)
Theorem parent_links_name_the_enclosing_entity
    em now file_id content ents rels chunks s :
  ids_handed_out s ->
  fst (index_file em now file_id content (Some (ents, rels, chunks)) s) = Ok tt ->
  let t' := tables (snd (index_file em now file_id content (Some (ents, rels, chunks)) s)) in
  Forall (parent_ok t') (entities_of_file t' file_id).
Proof.
  intros Hids Hok. cbn zeta.
  destruct (index_file_ok_stages _ _ _ _ _ _ _ _ Hok)
    as (s1 & entity_map & s2 & s3 & s4 & s5 & H1 & H2 & H3 & H4 & H5 & H6).
  assert (Hs1 : s1 = snd (delete_entities_of_file file_id s)) by now rewrite H1.
  assert (Hfree : Forall (fun e => EntityRow.file_id e <> file_id) (DB.entities (tables s1)))
    by (rewrite Hs1; apply delete_leaves_no_entity_of_file).
  assert (Hold : Forall (fun e => EntityRow.id e < DB.entities_id_seq (seqs s1))
                        (DB.entities (tables s1))).
  { rewrite Hs1. unfold delete_entities_of_file. cbn [snd tables seqs DB.entities].
    apply Forall_forall. intros e He. apply list_elem_of_filter in He.
    unfold ids_handed_out in Hids. rewrite Forall_forall in Hids. now apply Hids. }
  destruct (insert_entities_fresh _ _ _ _ _ _ H2) as (rows & Hrows & Hseq & Hall & Hnd & Hmap).
  assert (G2 : links_sound file_id entity_map (tables s2)).
  { rewrite Forall_forall in Hall, Hfree, Hold.
    assert (Hnew : forall r, In r (DB.entities (tables s2)) ->
                             EntityRow.file_id r = file_id -> In r rows).
    { intros r Hr Hfile. rewrite Hrows in Hr. apply in_app_or in Hr.
      destruct Hr as [Hr|Hr]; [|exact Hr].
      exfalso. apply list_elem_of_In in Hr. exact (Hfree r Hr Hfile). }
    split; [|split].
    - intros name id Hid. destruct (Hmap name id Hid) as [Hempty|(row & Hin & Hrid & Hqn)].
      { rewrite lookup_empty in Hempty. discriminate. }
      exists row. split; [rewrite Hrows; apply in_or_app; now right|].
      apply list_elem_of_In in Hin. destruct (Hall row Hin) as (Hf & _). auto.
    - intros r r' Hr Hr' Hfile Heq.
      pose proof (Hnew r Hr Hfile) as Hin. rewrite Hrows in Hr'. apply in_app_or in Hr'.
      destruct Hr' as [Hr'|Hr'].
      + exfalso. apply list_elem_of_In in Hr', Hin.
        specialize (Hold r' Hr'). destruct (Hall r Hin) as (_ & _ & Hid). lia.
      + exact (NoDup_map_inj EntityRow.id rows r r' Hnd Hin Hr' Heq).
    - apply Forall_forall. intros r Hr Hfile. apply list_elem_of_In in Hr.
      pose proof (Hnew r Hr Hfile) as Hin. apply list_elem_of_In in Hin.
      destruct (Hall r Hin) as (_ & Hp & _). unfold parent_ok. now rewrite Hp. }
  assert (G3 : links_sound file_id entity_map (tables s3)).
  { pose proof (keeps_for_each (fun s => links_sound file_id entity_map (tables s)) ents
                  (resolve_parent entity_map)
                  (keeps_links_resolve_parent file_id entity_map) s2 G2) as H.
    now rewrite H3 in H. }
  assert (Hents : DB.entities (tables (snd (index_file em now file_id content
                                              (Some (ents, rels, chunks)) s)))
                  = DB.entities (tables s3)).
  { assert (K : forall A (m : M A) s a s',
               keeps (fun s => DB.entities (tables s) = DB.entities (tables s3)) m ->
               m s = (a, s') ->
               DB.entities (tables s) = DB.entities (tables s3) ->
               DB.entities (tables s') = DB.entities (tables s3)).
    { intros A m s0 a s' Hk Hm Hx. specialize (Hk s0 Hx). now rewrite Hm in Hk. }
    assert (P4 : DB.entities (tables s4) = DB.entities (tables s3)).
    { eapply K; [|exact H4|reflexivity].
      apply keeps_for_each. intros r. apply keeps_insert_relationship.
      intros; apply keeps_proj; same_step. }
    assert (P5 : DB.entities (tables s5) = DB.entities (tables s3)).
    { eapply K; [|exact H5|exact P4].
      apply keeps_for_each. intros c. apply (keeps_insert_chunk _ em file_id).
      intros; apply keeps_proj; same_step. }
    eapply K; [|exact H6|exact P5]. apply keeps_proj. same_step. }
  destruct (links_sound_entities file_id entity_map _ _ Hents G3) as (_ & _ & Hlinks).
  unfold entities_of_file. apply Forall_forall. intros r Hr.
  apply list_elem_of_filter in Hr. destruct Hr as [Hfile Hr].
  rewrite Forall_forall in Hlinks. now apply Hlinks.
Qed.

(** The example of the specification: the row of the method has the row of
    the class as its parent. *)
Lemma parent_links_name_the_enclosing_entity_witness :
  exists ents rels chunks,
    parse_cpp_file (Examples.nested_tree "identifier") Examples.nested_source
    = Some (ents, rels, chunks)
    /\ let t' := tables (snd (index_file Examples.zero_encoder 0 1 Examples.nested_source
                                (Some (ents, rels, chunks)) Examples.one_file_store)) in
       map EntityRow.parent_id (entities_of_file t' 1) = [None; Some 1]
       /\ Forall (parent_ok t') (entities_of_file t' 1).
Proof.
  eexists _, _, _. split; [vm_compute; reflexivity|]. cbn zeta.
  split; [vm_compute; reflexivity|].
  apply (parent_links_name_the_enclosing_entity Examples.zero_encoder 0 1
           Examples.nested_source _ _ _ Examples.one_file_store).
  - unfold ids_handed_out. vm_compute. constructor.
  - vm_compute. reflexivity.
Defined.
